(** * Pi42 dashboard and request proxy: a shallow embedding

    The development follows the three source files of the repository:

    - the request proxy, route handler [POST] of [/api/pi42];
    - the landing page, with [toNumber], [computeCombinedContracts] and
      [summarise];
    - the dashboard component, with [proxyRequest], [fetchMarketBundle],
      the API explorer's [execute], and the realtime handlers
      [handleTrade] and [handleKline] together with the effect that
      subscribes to the topics of the current selection; and further
      the selection state with the effect that refetches the bundle,
      [buildDepthSeries] and the rows of the trades table.

    JavaScript numbers are IEEE 754 binary64 values and are modelled by
    the kernel's primitive floats; arrays are lists; objects used as
    records are records; an object used as a dictionary is a finite map
    of its own properties when it is only looked up, read together with
    the properties every object inherits, and an association list in the
    order of [Object.entries] when it is enumerated; a string is a string
    of characters, and the sequence of its UTF-16 code units where the
    code goes by the white space in it. *)

From Stdlib Require Import ZArith List String Ascii Bool Floats SpecFloat Permutation Sorted.
From stdpp Require Import base list strings gmap pretty.

#[local] Set Warnings "-inexact-float,-register-all".
#[local] Open Scope string_scope.
#[local] Open Scope list_scope.
#[local] Open Scope Z_scope.

(** ** JavaScript values shared by the three files *)

Definition number : Type := float.

(** The binary64 values behind the numbers, in the standard library's
    specification of the format. *)
Module FloatSpec.

(** A double above zero: a positive finite number or plus infinity. *)
Definition aboveZero (x : spec_float) : bool :=
  match x with
  | S754_finite false _ _ | S754_infinity false => true
  | _ => false
  end.

(** What [Math.abs] returns on a finite number: zero, or a positive finite
    number in canonical form. *)
Definition magnitude (x : spec_float) : bool :=
  match x with
  | S754_zero false => true
  | S754_finite false m e => canonical_mantissa FloatOps.prec FloatOps.emax m e
  | _ => false
  end.

End FloatSpec.

(** ** [Array.prototype.slice] and friends *)

Module JsArray.

Section Slice.
Context {A : Type}.

(** [relative_index len i] is the clamping that [slice] applies to either
    of its arguments: a negative index counts from the end and is clipped
    at [0], any other index is clipped at the length. *)
Definition relative_index (len i : Z) : Z :=
  if i <? 0 then Z.max (len + i) 0 else Z.min i len.

(** [arr.slice(start)] *)
Definition slice_from (start : Z) (arr : list A) : list A :=
  drop (Z.to_nat (relative_index (Z.of_nat (length arr)) start)) arr.

(** [arr.slice(start, stop)] *)
Definition slice (start stop : Z) (arr : list A) : list A :=
  let len := Z.of_nat (length arr) in
  let k := relative_index len start in
  let final := relative_index len stop in
  take (Z.to_nat (Z.max (final - k) 0)) (drop (Z.to_nat k) arr).

(** [arr.findIndex(p)]: the index of the first element satisfying [p],
    or [-1]. *)
Fixpoint findIndex_from (p : A -> bool) (arr : list A) (i : Z) : Z :=
  match arr with
  | [] => -1
  | x :: rest => if p x then i else findIndex_from p rest (i + 1)
  end.

Definition findIndex (p : A -> bool) (arr : list A) : Z :=
  findIndex_from p arr 0.

(** [arr[index] = v] for an index inside the array. *)
Definition assign (index : Z) (v : A) (arr : list A) : list A :=
  <[Z.to_nat index := v]> arr.

(** [arr.push(v)] *)
Definition push (v : A) (arr : list A) : list A := arr ++ [v].

End Slice.

End JsArray.

(** ** The wire types of [types/pi42.ts]

    Each interface is a record in a module of its own, so that the short
    field names of the exchange's payloads ([e], [E], [s], ...) are kept. *)

Module Pi42Ticker.
Record t : Type := mk
  { e : string; E : number; s : string; p : string; P : string; w : string;
    c : string; Q : string; o : string; h : string; l : string; v : string;
    q : string; O : number; C : number; F : number; L : number; n : number }.
End Pi42Ticker.

Module Pi42DepthResponse.
Record t : Type := mk
  { e : string; E : number; T : number; s : string;
    U : number; u : number; pu : number;
    b : list (string * string); a : list (string * string) }.
End Pi42DepthResponse.

Module Pi42AggTrade.
Record t : Type := mk
  { e : string; E : number; a : number; s : string; p : string; q : string;
    f : number; l : number; T : number; m : bool }.
End Pi42AggTrade.

Module Pi42Kline.
Record t : Type := mk
  { startTime : string; open : string; high : string; low : string;
    close : string; endTime : string; volume : string }.
End Pi42Kline.

(** ** The realtime handlers of the dashboard

    [setTrades] and [setKlines] are called with an updater function; the
    handlers below are those updaters, from the previous list to the next. *)

Module Realtime.

(** "The last [n] entries" of a list, oldest first: how the specification
    words a bounded buffer. *)
Definition last_entries {A : Type} (n : nat) (arr : list A) : list A :=
  drop (length arr - n)%nat arr.

(** [handleTrade]: [setTrades((prev) => [...prev.slice(-180), payload])] *)
Definition handleTrade (payload : Pi42AggTrade.t) (prev : list Pi42AggTrade.t)
  : list Pi42AggTrade.t :=
  JsArray.slice_from (-180) prev ++ [payload].

(** The payload of a [kline] event: [{ k: Pi42Kline }], where the handler
    guards against a payload without [k]. *)
Record KlinePayload : Type := { k : option Pi42Kline.t }.

(** [handleKline] *)
Definition handleKline (payload : KlinePayload) (prev : list Pi42Kline.t)
  : list Pi42Kline.t :=
  match k payload with
  | None => prev
  | Some pk =>
      let next := prev in
      let index :=
        JsArray.findIndex
          (fun item => String.eqb (Pi42Kline.startTime item) (Pi42Kline.startTime pk))
          next in
      let next :=
        if 0 <=? index then JsArray.assign index pk next
        else JsArray.push pk next in
      JsArray.slice_from (-400) next
  end.

(** Events delivered one at a time, oldest first. *)
Definition feedTrades (events : list Pi42AggTrade.t) (prev : list Pi42AggTrade.t)
  : list Pi42AggTrade.t :=
  fold_left (fun st ev => handleTrade ev st) events prev.

Definition feedKlines (events : list KlinePayload) (prev : list Pi42Kline.t)
  : list Pi42Kline.t :=
  fold_left (fun st ev => handleKline ev st) events prev.

(** The incoming candle and an entry of the list share their start time:
    the test of [findIndex]. *)
Definition sameStart (pk item : Pi42Kline.t) : bool :=
  String.eqb (Pi42Kline.startTime item) (Pi42Kline.startTime pk).

(** [i] is the position of the first element of [arr] that satisfies [p]. *)
Definition first_match {A : Type} (p : A -> bool) (arr : list A) (i : nat) : Prop :=
  (exists x, arr !! i = Some x /\ p x = true) /\
  (forall j y, (j < i)%nat -> arr !! j = Some y -> p y = false).

(** Sample candles, for concrete runs. *)
Definition sampleKline (startTime close : string) : Pi42Kline.t :=
  Pi42Kline.mk startTime "1" "1" "1" close startTime "0".

(** A numbered trade print, for concrete runs. *)
Definition sampleTrade (i : nat) : Pi42AggTrade.t :=
  Pi42AggTrade.mk "aggTrade" 0%float
    (PrimFloat.of_uint63 (Uint63.of_Z (Z.of_nat i)))
    "BTCINR" "100" "1" 0%float 0%float 0%float false.

Definition sampleTrades (count : nat) : list Pi42AggTrade.t :=
  map sampleTrade (seq 1 count).

End Realtime.

(** ** [Array.prototype.sort] with a comparator

    ECMAScript requires the sort to be stable and reads a comparator
    result [v] as "[x] goes after [y]" when [v > 0] (a [NaN] result counts
    as [0]).  For a consistent comparator the outcome is the same for every
    conforming engine; insertion from the right is one such sort. *)

Module JsSort.

Section Sort.
Context {A : Type} (compareFn : A -> A -> number).

(** [comes_after x y]: the comparator asks for [x] to be placed after [y]. *)
Definition comes_after (x y : A) : bool := (0 <? compareFn x y)%float.

(** Neither element is asked to go after the other. *)
Definition tied (x y : A) : bool :=
  negb (comes_after x y) && negb (comes_after y x).

Fixpoint insert (x : A) (sorted : list A) : list A :=
  match sorted with
  | [] => [x]
  | y :: rest =>
      if comes_after x y then y :: insert x rest else x :: y :: rest
  end.

Definition sort (arr : list A) : list A := foldr insert [] arr.

(** The comparator is consistent on [arr] (a strict weak order on its
    elements): it never asks for both [x] after [y] and [y] after [x], and
    "not after" is transitive.  This is the condition under which
    ECMAScript fixes the result of [sort]. *)
Definition consistent (arr : list A) : Prop :=
  (forall x y, x ∈ arr -> y ∈ arr ->
     comes_after x y = true -> comes_after y x = false) /\
  (forall x y z, x ∈ arr -> y ∈ arr -> z ∈ arr ->
     comes_after x y = false -> comes_after y z = false ->
     comes_after x z = false).

(** No element is asked to go after one that follows it. *)
Definition in_order : list A -> Prop :=
  StronglySorted (fun x y => comes_after x y = false).

(** The elements tied with an element of [arr] stand in [result] in the
    order they had in [arr]. *)
Definition ties_kept (arr result : list A) : Prop :=
  forall x, x ∈ arr -> List.filter (tied x) result = List.filter (tied x) arr.

End Sort.

End JsSort.

(** ** The landing page: combined metrics and their summary *)

Module Page.

Module Pi42Contract.
(** The fields of [Pi42Contract] that the code modelled here reads
    ([isDefaultContract] comes through the interface's index signature
    and is only tested for truthiness). *)
Record t : Type := mk
  { name : string; contractName : string; baseAsset : string;
    quoteAsset : string; market : option string;
    depthGrouping : option (list string); isDefaultContract : bool }.
End Pi42Contract.

Module Pi42MarketInfoEntry.
Record t : Type := mk
  { lastPrice : option string; marketPrice : option string;
    priceChangePercent : option string; baseAssetVolume : option string;
    quoteAssetVolume : option string; upcomingFundingRate : option string }.
End Pi42MarketInfoEntry.

Module CombinedContractMetrics.
Record t : Type := mk
  { contract : Pi42Contract.t;
    marketStats : option Pi42MarketInfoEntry.t;
    market : string;
    lastPrice : option number;
    markPrice : option number;
    priceChangePercent : option number;
    baseVolume : option number;
    quoteVolume : option number;
    fundingRateBps : option number }.
End CombinedContractMetrics.

Import CombinedContractMetrics.

Record Summary : Type :=
  { totalContracts : nat;
    markets : list string;
    totalQuoteVolume : number;
    totalBaseVolume : number;
    averageFundingRate : number;
    topMovers : list CombinedContractMetrics.t }.

(** [x ?? 0] *)
Definition orZero (x : option number) : number := default 0%float x.

(** An array length as a number. *)
Definition lengthNumber {A : Type} (arr : list A) : number :=
  PrimFloat.of_uint63 (Uint63.of_Z (Z.of_nat (length arr))).

(** [computeCombinedContracts] *)
Definition computeCombinedContracts (contracts : list CombinedContractMetrics.t)
  : list CombinedContractMetrics.t :=
  JsSort.sort
    (fun a b => (orZero (quoteVolume b) - orZero (quoteVolume a))%float)
    (List.filter (fun item => bool_decide (is_Some (marketStats item))) contracts).

(** The comparator of the top-movers sort. *)
Definition moversCompare (a b : CombinedContractMetrics.t) : number :=
  (PrimFloat.abs (orZero (priceChangePercent b)) -
   PrimFloat.abs (orZero (priceChangePercent a)))%float.

(** [typeof item.priceChangePercent === "number"] *)
Definition hasNumericChange (item : CombinedContractMetrics.t) : bool :=
  match priceChangePercent item with Some _ => true | None => false end.

(** [summarise] *)
Definition summarise (contracts : list CombinedContractMetrics.t)
    (markets : list string) : Summary :=
  let totalQuoteVolume :=
    fold_left (fun acc item => (acc + orZero (quoteVolume item))%float)
      contracts 0%float in
  let totalBaseVolume :=
    fold_left (fun acc item => (acc + orZero (baseVolume item))%float)
      contracts 0%float in
  let averageFundingRate :=
    if (0 <? length contracts)%nat
    then (fold_left (fun acc item => (acc + orZero (fundingRateBps item))%float)
            contracts 0%float / lengthNumber contracts)%float
    else 0%float in
  let topMovers :=
    JsArray.slice 0 6
      (JsSort.sort moversCompare
         (List.filter hasNumericChange contracts)) in
  {| totalContracts := length contracts;
     markets := markets;
     totalQuoteVolume := totalQuoteVolume;
     totalBaseVolume := totalBaseVolume;
     averageFundingRate := averageFundingRate;
     topMovers := topMovers |}.

(** The market info is a plain object, the stats entries being its own
    properties.  A plain object inherits the properties of
    [Object.prototype]: [constructor] and its six methods, and the legacy
    accessor [__proto__] with the four legacy accessor methods. *)
Definition objectPrototypeKeys : list string :=
  ["constructor"; "hasOwnProperty"; "isPrototypeOf"; "propertyIsEnumerable";
   "toLocaleString"; "toString"; "valueOf";
   "__defineGetter__"; "__defineSetter__";
   "__lookupGetter__"; "__lookupSetter__"; "__proto__"].

(** What an inherited property reads as: a function, or the prototype
    itself for [__proto__].  Either is an object, hence truthy, and has
    none of the fields of a stats entry. *)
Definition inheritedValue : Pi42MarketInfoEntry.t :=
  Pi42MarketInfoEntry.mk None None None None None None.

(** [marketInfo[name]]: the own property of that name, or else the
    inherited one; [None] for [undefined]. *)
Definition readProperty (marketInfo : gmap string Pi42MarketInfoEntry.t)
    (name : string) : option Pi42MarketInfoEntry.t :=
  match marketInfo !! name with
  | Some stats => Some stats
  | None =>
      if bool_decide (name ∈ objectPrototypeKeys) then Some inheritedValue
      else None
  end.

Section Home.

(** [Number(s)] on a string is the language's StringToNumber conversion;
    it is a builtin, taken as given. *)
Variable Number : string -> number.

(** [toNumber]; [None] stands for both [null] and [undefined]. *)
Definition toNumber (value : option (string + number)) : option number :=
  match value with
  | None => None
  | Some (inr n) => Some n
  | Some (inl s) =>
      let parsed := Number s in
      if PrimFloat.is_finite parsed then Some parsed else None
  end.

(** [stats?.field] for a field of the stats entry. *)
Definition statsField (stats : option Pi42MarketInfoEntry.t)
    (field : Pi42MarketInfoEntry.t -> option string) : option string :=
  stats ≫= field.

(** The funding rate in basis points:
    [stats?.upcomingFundingRate !== undefined
       ? Number(stats.upcomingFundingRate) * 10000 : undefined] *)
Definition fundingRate (stats : option Pi42MarketInfoEntry.t) : option number :=
  match statsField stats Pi42MarketInfoEntry.upcomingFundingRate with
  | Some rate => Some (Number rate * 10000)%float
  | None => None
  end.

(** The callback of [exchangeInfo.contracts.map] in [Home]. *)
Definition combine (marketInfo : gmap string Pi42MarketInfoEntry.t)
    (contract : Pi42Contract.t) : CombinedContractMetrics.t :=
  let stats := readProperty marketInfo (Pi42Contract.name contract) in
  let str (field : Pi42MarketInfoEntry.t -> option string) :=
    inl <$> statsField stats field in
  {| contract := contract;
     marketStats := stats;
     market := default "Unknown" (Pi42Contract.market contract);
     lastPrice :=
       toNumber (match str Pi42MarketInfoEntry.lastPrice with
                 | Some v => Some v
                 | None => str Pi42MarketInfoEntry.marketPrice
                 end);
     markPrice := toNumber (str Pi42MarketInfoEntry.marketPrice);
     priceChangePercent := toNumber (str Pi42MarketInfoEntry.priceChangePercent);
     baseVolume := toNumber (str Pi42MarketInfoEntry.baseAssetVolume);
     quoteVolume := toNumber (str Pi42MarketInfoEntry.quoteAssetVolume);
     fundingRateBps := fundingRate stats |}.

(** The combined list and the summary that [Home] hands to the dashboard. *)
Definition combinedContracts (contracts : list Pi42Contract.t)
    (marketInfo : gmap string Pi42MarketInfoEntry.t)
  : list CombinedContractMetrics.t :=
  computeCombinedContracts (map (combine marketInfo) contracts).

Definition homeSummary (contracts : list Pi42Contract.t) (markets : list string)
    (marketInfo : gmap string Pi42MarketInfoEntry.t) : Summary :=
  summarise (combinedContracts contracts marketInfo) markets.

End Home.

(** StringToNumber on a plain decimal literal, [[-]digits[.digits]]: the
    quotient of two integers that are exact in binary64 is rounded once,
    so for such a literal with at most 15 digits the result is the double
    nearest to it, as the language prescribes.  Anything else reads as
    [NaN] here; it serves the worked examples, where [Number] must run. *)
Definition digitValue (c : ascii) : option Z :=
  let code := Z.of_N (N_of_ascii c) in
  if (48 <=? code) && (code <=? 57) then Some (code - 48) else None.

Fixpoint scanDecimal (s : string) (mantissa : Z) (fraction : Z)
    (afterDot : bool) (digits : Z) : option (Z * Z) :=
  match s with
  | EmptyString =>
      if (0 <? digits) && (digits <=? 15) then Some (mantissa, fraction) else None
  | String c rest =>
      if Ascii.eqb c "."
      then if afterDot then None
           else scanDecimal rest mantissa fraction true digits
      else match digitValue c with
           | Some d =>
               scanDecimal rest (mantissa * 10 + d)
                 (if afterDot then fraction + 1 else fraction) afterDot (digits + 1)
           | None => None
           end
  end.

Definition numberOfZ (z : Z) : number := PrimFloat.of_uint63 (Uint63.of_Z z).

Definition decimalLiteral (s : string) : number :=
  let '(negative, digits) :=
    match s with
    | String "-" rest => (true, rest)
    | _ => (false, s)
    end in
  match scanDecimal digits 0 0 false 0 with
  | Some (mantissa, fraction) =>
      let magnitude := (numberOfZ mantissa / numberOfZ (10 ^ fraction))%float in
      if negative then (- magnitude)%float else magnitude
  | None => PrimFloat.nan
  end.

(** Sample data for the worked examples: a contract by name, a stats entry
    that carries only a funding rate, combined metrics that carry only a
    price change. *)
Definition sampleContract (name : string) : Pi42Contract.t :=
  Pi42Contract.mk name name "BTC" "INR" (Some "INR") None false.

Definition statsWithFunding (rate : option string) : Pi42MarketInfoEntry.t :=
  Pi42MarketInfoEntry.mk None None None None None rate.

Definition metricsWithChange (name : string) (change : option number)
  : CombinedContractMetrics.t :=
  CombinedContractMetrics.mk (sampleContract name)
    (Some (statsWithFunding None)) "INR" None None change None None None.

(** Two contracts with funding rates 0.0001 and 0.0003. *)
Definition fundingContracts : list Pi42Contract.t :=
  [sampleContract "BTCINR"; sampleContract "ETHINR"].

Definition fundingMarketInfo : gmap string Pi42MarketInfoEntry.t :=
  <["BTCINR" := statsWithFunding (Some "0.0001")]>
    (<["ETHINR" := statsWithFunding (Some "0.0003")]> ∅).

(** Seven contracts with the price changes +1, -10, +3, -2, +0.5, +7, -0.1. *)
Definition moverContracts : list CombinedContractMetrics.t :=
  map (fun entry => metricsWithChange entry.1 (Some (decimalLiteral entry.2)))
    [("A", "1"); ("B", "-10"); ("C", "3"); ("D", "-2");
     ("E", "0.5"); ("F", "7"); ("G", "-0.1")].

(** The absolute price change the ranking goes by. *)
Definition magnitude (item : CombinedContractMetrics.t) : number :=
  PrimFloat.abs (orZero (priceChangePercent item)).

(** The price change, when there is one, is a finite number. *)
Definition finiteChange (item : CombinedContractMetrics.t) : bool :=
  match priceChangePercent item with
  | Some change => PrimFloat.is_finite change
  | None => true
  end.

(** "Sorted descending by absolute price-change percent": no contract
    stands before one with a larger magnitude. *)
Definition descendingByMagnitude : list CombinedContractMetrics.t -> Prop :=
  StronglySorted (fun x y => (magnitude x <? magnitude y)%float = false).

(** "Ties kept in the list's prior order": the contracts whose magnitude
    equals that of a contract of [arr] stand in [ranked] as they stood in
    [arr]. *)
Definition sameMagnitude (x y : CombinedContractMetrics.t) : bool :=
  (magnitude x =? magnitude y)%float.

Definition tiesInOrder (arr ranked : list CombinedContractMetrics.t) : Prop :=
  forall x, x ∈ arr ->
    List.filter (sameMagnitude x) ranked = List.filter (sameMagnitude x) arr.

(** "The sum of per-contract basis points, absent rates contributing 0",
    added up from the left as [reduce] does. *)
Definition sumBps (contracts : list CombinedContractMetrics.t) : number :=
  fold_left PrimFloat.add
    (map (fun item => orZero (fundingRateBps item)) contracts) 0%float.

(** "The first 6 contracts of the combined list sorted descending by
    absolute price-change percent", read word for word. *)
Definition topMoversAsStated (contracts : list CombinedContractMetrics.t)
  : list CombinedContractMetrics.t :=
  take 6 (JsSort.sort moversCompare contracts).

End Page.

(** ** JSON values, thrown errors *)

Module Json.

(** A parsed JSON value; the fields of an object are listed in the order
    [Object.entries] enumerates them. *)
Inductive t : Type :=
| Null
| Bool (b : bool)
| Num (n : number)
| Str (s : string)
| Arr (items : list t)
| Obj (fields : list (string * t)).

(** [fields[key]], [None] for [undefined]. *)
Fixpoint field (key : string) (fields : list (string * t)) : option t :=
  match fields with
  | [] => None
  | (name, v) :: rest => if String.eqb name key then Some v else field key rest
  end.

(** A [JSON.parse] for the worked examples: it knows the literals and the
    empty object, and throws on anything else. *)
Definition parseLiteral (text : string) : option t :=
  if String.eqb text "null" then Some Null
  else if String.eqb text "true" then Some (Bool true)
  else if String.eqb text "false" then Some (Bool false)
  else if String.eqb text "{}" then Some (Obj [])
  else None.

End Json.

(** A computation that returns or throws an [Error] with a message. *)
Inductive Result (A : Type) : Type :=
| Ok (value : A)
| Throw (message : string).
Arguments Ok {A} value.
Arguments Throw {A} message.

(** Sequencing stops at the first throw; [x ← r; k] is the notation. *)
#[global] Instance Result_bind : MBind Result := fun A B f r =>
  match r with
  | Ok value => f value
  | Throw message => Throw message
  end.

#[global] Instance Result_ret : MRet Result := fun A value => Ok value.

#[global] Instance Result_fmap : FMap Result := fun A B f r =>
  match r with
  | Ok value => Ok (f value)
  | Throw message => Throw message
  end.

(** [JSON.parse] for the worked examples. *)
Definition sampleParse (text : string) : Result Json.t :=
  match Json.parseLiteral text with
  | Some value => Ok value
  | None => Throw "Unexpected token"
  end.

Module HttpMethod.
Inductive t : Type := GET | POST | PUT | DELETE | PATCH.

Definition of_string (s : string) : option t :=
  if String.eqb s "GET" then Some GET
  else if String.eqb s "POST" then Some POST
  else if String.eqb s "PUT" then Some PUT
  else if String.eqb s "DELETE" then Some DELETE
  else if String.eqb s "PATCH" then Some PATCH
  else None.

Definition eqb (x y : t) : bool :=
  match x, y with
  | GET, GET | POST, POST | PUT, PUT | DELETE, DELETE | PATCH, PATCH => true
  | _, _ => false
  end.
End HttpMethod.

Module Target.
Inductive t : Type := public | private.

Definition of_string (s : string) : option t :=
  if String.eqb s "public" then Some public
  else if String.eqb s "private" then Some private
  else None.
End Target.

(** ** The request proxy: [POST /api/pi42] *)

Module ZodIssue.
(** What went wrong at a path of the payload.  The kinds are the ones this
    schema can raise: a value of the wrong type (a missing required key
    included), a string outside an enumeration, a string without the
    required prefix, a value that matches no member of a union. *)
Inductive Kind : Type := WrongType | NotInEnum | BadPrefix | NoUnionMember.
Record t : Type := mk { path : list string; kind : Kind }.
End ZodIssue.

Module UpstreamResponse.
(** What [fetch] resolves to: the status line and the body, which
    [response.text()] reads or fails to read. *)
Record t : Type := mk
  { status : Z; statusText : string; text : Result string }.
End UpstreamResponse.

Module NextResponse.
(** The JSON bodies the handler sends. *)
Inductive Body : Type :=
| Mirrored (status : Z) (statusText : string) (data : Json.t)
| InvalidPayload (error : string) (issues : list ZodIssue.t)
| Failure (error : string).

Record t : Type := mk { status : Z; body : Body }.

(** The statuses the Fetch standard calls null body statuses. *)
Definition nullBodyStatus (status : Z) : bool :=
  (status =? 101) || (status =? 103) || (status =? 204) ||
  (status =? 205) || (status =? 304).

(** [NextResponse.json(body, { status })] builds the response through the
    platform's [Response.json].  The Fetch standard's "initialize a
    response" throws a [RangeError] for a status outside 200..599 and a
    [TypeError] when a body is given with a null body status; a JSON
    response always has a body.  The messages are those of the Node
    runtime (the first without its inner quotation marks). *)
Definition json (body : Body) (status : Z) : Result t :=
  if (status <? 200) || (599 <? status)
  then Throw "init[status] must be in the range of 200 to 599, inclusive."
  else if nullBodyStatus status
  then Throw ("Response constructor: Invalid response status code " +:+
              pretty status)
  else Ok (mk status body).
End NextResponse.

Module Proxy.

(** A value of [z.union([z.string(), z.number(), z.boolean()])]. *)
Inductive QueryValue : Type :=
| QStr (s : string)
| QNum (n : number)
| QBool (b : bool).

(** A value of [z.union([z.string(), z.record(z.string(), z.any())])]. *)
Inductive BodyValue : Type :=
| BodyText (s : string)
| BodyRecord (fields : list (string * Json.t)).

(** [parsed.data]: the output type of [requestSchema]. *)
Record Parsed : Type :=
  { method : HttpMethod.t;
    path : string;
    target : Target.t;
    query : list (string * QueryValue);
    headers : list (string * string);
    body : option BodyValue }.

(** The outcome of checking a value against a schema. *)
Inductive Checked (A : Type) : Type :=
| Valid (value : A)
| Invalid (issues : list ZodIssue.t).
Arguments Valid {A} value.
Arguments Invalid {A} issues.

Definition issuesOf {A : Type} (c : Checked A) : list ZodIssue.t :=
  match c with
  | Valid _ => []
  | Invalid issues => issues
  end.

Definition issue (path : list string) (kind : ZodIssue.Kind) : ZodIssue.t :=
  ZodIssue.mk path kind.

(** [method: z.enum(["GET", "POST", "PUT", "DELETE", "PATCH"])] *)
Definition checkMethod (v : option Json.t) : Checked HttpMethod.t :=
  match v with
  | Some (Json.Str s) =>
      match HttpMethod.of_string s with
      | Some m => Valid m
      | None => Invalid [issue ["method"] ZodIssue.NotInEnum]
      end
  | _ => Invalid [issue ["method"] ZodIssue.WrongType]
  end.

(** [path: z.string().startsWith("/")] *)
Definition checkPath (v : option Json.t) : Checked string :=
  match v with
  | Some (Json.Str s) =>
      if String.prefix "/" s then Valid s
      else Invalid [issue ["path"] ZodIssue.BadPrefix]
  | _ => Invalid [issue ["path"] ZodIssue.WrongType]
  end.

(** [target: z.enum(["public", "private"]).default("public")] *)
Definition checkTarget (v : option Json.t) : Checked Target.t :=
  match v with
  | None => Valid Target.public
  | Some (Json.Str s) =>
      match Target.of_string s with
      | Some t => Valid t
      | None => Invalid [issue ["target"] ZodIssue.NotInEnum]
      end
  | Some _ => Invalid [issue ["target"] ZodIssue.WrongType]
  end.

(** The values of a [z.record]: every entry is checked, the issues of all
    entries are collected, and the record is valid when there is none. *)
Fixpoint checkEntries {A : Type} (field : string)
    (check : Json.t -> option A) (kind : ZodIssue.Kind)
    (entries : list (string * Json.t)) : list (string * A) * list ZodIssue.t :=
  match entries with
  | [] => ([], [])
  | (key, v) :: rest =>
      let '(values, issues) := checkEntries field check kind rest in
      match check v with
      | Some a => ((key, a) :: values, issues)
      | None => (values, issue [field; key] kind :: issues)
      end
  end.

Definition checkRecord {A : Type} (field : string)
    (check : Json.t -> option A) (kind : ZodIssue.Kind)
    (v : option Json.t) : Checked (list (string * A)) :=
  match v with
  | None => Valid []
  | Some (Json.Obj entries) =>
      match checkEntries field check kind entries with
      | (values, []) => Valid values
      | (_, issues) => Invalid issues
      end
  | Some _ => Invalid [issue [field] ZodIssue.WrongType]
  end.

Definition asQueryValue (v : Json.t) : option QueryValue :=
  match v with
  | Json.Str s => Some (QStr s)
  | Json.Num n => Some (QNum n)
  | Json.Bool b => Some (QBool b)
  | _ => None
  end.

Definition asString (v : Json.t) : option string :=
  match v with
  | Json.Str s => Some s
  | _ => None
  end.

(** [query: z.record(z.string(), z.union([...])).optional().default({})] *)
Definition checkQuery : option Json.t -> Checked (list (string * QueryValue)) :=
  checkRecord "query" asQueryValue ZodIssue.NoUnionMember.

(** [headers: z.record(z.string(), z.string()).optional().default({})] *)
Definition checkHeaders : option Json.t -> Checked (list (string * string)) :=
  checkRecord "headers" asString ZodIssue.WrongType.

(** [body: z.union([z.string(), z.record(z.string(), z.any())]).optional()] *)
Definition checkBody (v : option Json.t) : Checked (option BodyValue) :=
  match v with
  | None => Valid None
  | Some (Json.Str s) => Valid (Some (BodyText s))
  | Some (Json.Obj fields) => Valid (Some (BodyRecord fields))
  | Some _ => Invalid [issue ["body"] ZodIssue.NoUnionMember]
  end.

(** [requestSchema.safeParse(raw)]: a [z.object] checks every key, drops
    the keys it does not know, and succeeds when no key raised an issue. *)
Definition safeParse (raw : Json.t) : Checked Parsed :=
  match raw with
  | Json.Obj fields =>
      let m := checkMethod (Json.field "method" fields) in
      let p := checkPath (Json.field "path" fields) in
      let t := checkTarget (Json.field "target" fields) in
      let q := checkQuery (Json.field "query" fields) in
      let h := checkHeaders (Json.field "headers" fields) in
      let b := checkBody (Json.field "body" fields) in
      match m, p, t, q, h, b with
      | Valid m, Valid p, Valid t, Valid q, Valid h, Valid b =>
          Valid {| method := m; path := p; target := t;
                   query := q; headers := h; body := b |}
      | _, _, _, _, _, _ =>
          Invalid (issuesOf m ++ issuesOf p ++ issuesOf t ++
                   issuesOf q ++ issuesOf h ++ issuesOf b)
      end
  | _ => Invalid [issue [] ZodIssue.WrongType]
  end.

(** The platform objects the handler works with.  [URL] and [Headers] are
    the platform's classes, [JSON.parse], [JSON.stringify] and [String]
    its builtins, [fetch] the upstream call; [resolveBaseUrl] is imported
    from the repository's [lib/pi42], which is not part of the sources at
    hand.  They are taken as given. *)
Class Runtime : Type :=
  { URL : Type;
    Headers : Type;
    resolveBaseUrl : Target.t -> string;
    (** [new URL(path, baseUrl)] *)
    new_URL : string -> string -> Result URL;
    (** [url.searchParams.set(key, value)] *)
    searchParams_set : URL -> string -> string -> URL;
    (** [new Headers({...})] *)
    new_Headers : list (string * string) -> Headers;
    (** [headers.set(key, value)] *)
    Headers_set : Headers -> string -> string -> Result Headers;
    (** [String(value)] on a number *)
    String_of_number : number -> string;
    (** [JSON.stringify(body, null, 0)] on a record *)
    JSON_stringify : list (string * Json.t) -> string;
    JSON_parse : string -> Result Json.t }.

(** [forwardInit] together with the URL: what [fetch] is called with. *)
Record ForwardRequest `{Runtime} : Type :=
  { fwd_url : URL;
    fwd_method : HttpMethod.t;
    fwd_headers : Headers;
    fwd_cache : string;
    fwd_body : option string }.

Section Handler.
Context `{rt : Runtime}.

(** The upstream exchange, as [fetch] sees it. *)
Variable fetch : ForwardRequest -> Result UpstreamResponse.t.

(** [String(value)] on a query value. *)
Definition String_of (value : QueryValue) : string :=
  match value with
  | QStr s => s
  | QNum n => String_of_number n
  | QBool true => "true"
  | QBool false => "false"
  end.

(** The callback over [Object.entries(query)]: empty strings are skipped
    ([undefined] and [null] cannot pass the schema). *)
Definition setQuery (url : URL) (entry : string * QueryValue) : URL :=
  let '(key, value) := entry in
  match value with
  | QStr "" => url
  | _ => searchParams_set url key (String_of value)
  end.

(** The callback over [Object.entries(headers)]: [if (!value) return]. *)
Definition setHeader (acc : Result Headers) (entry : string * string)
  : Result Headers :=
  let '(key, value) := entry in
  forwardHeaders ← acc;
  if String.eqb value "" then Ok forwardHeaders
  else Headers_set forwardHeaders key value.

(** Lines 32 to 60 of the handler: from the parsed payload to the
    arguments of [fetch]. *)
Definition forwardRequest (data : Parsed) : Result ForwardRequest :=
  let baseUrl := resolveBaseUrl (target data) in
  url ← new_URL (path data) baseUrl;
  let url := fold_left setQuery (query data) url in
  forwardHeaders ←
    fold_left setHeader (headers data)
      (Ok (new_Headers [("Accept", "application/json");
                        ("Content-Type", "application/json")]));
  Ok {| fwd_url := url;
        fwd_method := method data;
        fwd_headers := forwardHeaders;
        fwd_cache := "no-store";
        fwd_body :=
          match body data with
          | None => None
          | Some (BodyText s) => Some s
          | Some (BodyRecord fields) => Some (JSON_stringify fields)
          end |}.

(** Lines 63 to 70: [data = text ? JSON.parse(text) : null], with the raw
    text when parsing throws. *)
Definition decodeBody (text : string) : Json.t :=
  if String.eqb text "" then Json.Null
  else match JSON_parse text with
       | Ok value => value
       | Throw _ => Json.Str text
       end.

(** The [try] block, with the upstream requests it issued. *)
Definition tryBlock (req_json : Result Json.t)
  : Result NextResponse.t * list ForwardRequest :=
  match req_json with
  | Throw message => (Throw message, [])
  | Ok raw =>
      match safeParse raw with
      | Invalid issues =>
          (NextResponse.json
             (NextResponse.InvalidPayload "Invalid request payload" issues) 400,
           [])
      | Valid data =>
          match forwardRequest data with
          | Throw message => (Throw message, [])
          | Ok forwardInit =>
              (response ← fetch forwardInit;
               text ← UpstreamResponse.text response;
               let data := decodeBody text in
               NextResponse.json
                 (NextResponse.Mirrored (UpstreamResponse.status response)
                    (UpstreamResponse.statusText response) data)
                 (UpstreamResponse.status response),
               [forwardInit])
          end
      end
  end.

(** [POST]: the [try] block, and the [catch] that answers 500 with the
    error's message.  [req_json] is the outcome of [await req.json()]. *)
Definition POST (req_json : Result Json.t)
  : Result NextResponse.t * list ForwardRequest :=
  let '(outcome, issued) := tryBlock req_json in
  (match outcome with
   | Ok response => Ok response
   | Throw message => NextResponse.json (NextResponse.Failure message) 500
   end, issued).

End Handler.

(** A check succeeded. *)
Definition isValid {A : Type} (c : Checked A) : Prop :=
  exists value, c = Valid value.

(** The statuses a response with a body may carry: 200 to 599 without
    the null body statuses. *)
Definition bodyPermitted (status : Z) : bool :=
  (200 <=? status) && (status <=? 599) &&
  negb (NextResponse.nullBodyStatus status).

(** The schema as the interface description words it, key by key. *)
Definition isObject (v : Json.t) : bool :=
  match v with Json.Obj _ => true | _ => false end.

Definition isString (v : Json.t) : bool :=
  match v with Json.Str _ => true | _ => false end.

Definition isScalar (v : Json.t) : bool :=
  match v with Json.Str _ | Json.Num _ | Json.Bool _ => true | _ => false end.

Definition absentOr (p : Json.t -> bool) (v : option Json.t) : bool :=
  match v with None => true | Some x => p x end.

Definition allValues (p : Json.t -> bool) (v : Json.t) : bool :=
  match v with
  | Json.Obj entries => forallb (fun entry => p (snd entry)) entries
  | _ => false
  end.

Definition methodOk (v : option Json.t) : bool :=
  match v with
  | Some (Json.Str s) => bool_decide (is_Some (HttpMethod.of_string s))
  | _ => false
  end.

Definition pathOk (v : option Json.t) : bool :=
  match v with
  | Some (Json.Str s) => String.prefix "/" s
  | _ => false
  end.

Definition targetOk : option Json.t -> bool :=
  absentOr (fun v => match v with
                     | Json.Str s => bool_decide (is_Some (Target.of_string s))
                     | _ => false
                     end).

Definition queryOk : option Json.t -> bool := absentOr (allValues isScalar).

Definition headersOk : option Json.t -> bool := absentOr (allValues isString).

Definition bodyOk : option Json.t -> bool :=
  absentOr (fun v => isString v || isObject v).

Definition conforms (raw : Json.t) : bool :=
  match raw with
  | Json.Obj fields =>
      methodOk (Json.field "method" fields) &&
      pathOk (Json.field "path" fields) &&
      targetOk (Json.field "target" fields) &&
      queryOk (Json.field "query" fields) &&
      headersOk (Json.field "headers" fields) &&
      bodyOk (Json.field "body" fields)
  | _ => false
  end.

(** The answer the interface description promises for a request body
    that violates the schema: status 400, a body [{error, issues}] with at
    least one issue, and no request upstream. *)
Definition rejected `{Runtime}
    (answer : Result NextResponse.t * list ForwardRequest) : Prop :=
  exists error issues,
    issues <> [] /\
    answer =
    (Ok (NextResponse.mk 400 (NextResponse.InvalidPayload error issues)), []).

(** A runtime for the worked examples: URLs and header sets kept as plain
    data. *)
#[local] Instance sampleRuntime : Runtime :=
  {| URL := string * list (string * string);
     Headers := list (string * string);
     resolveBaseUrl := fun t =>
       match t with
       | Target.public => "https://api.pi42.com"
       | Target.private => "https://fapi.pi42.com"
       end;
     new_URL := fun path base => Ok (base +:+ path, []);
     searchParams_set := fun url key value =>
       (fst url, snd url ++ [(key, value)]);
     new_Headers := fun init => init;
     Headers_set := fun h key value => Ok (h ++ [(key, value)]);
     String_of_number := fun _ => "0";
     JSON_stringify := fun _ => "{}";
     JSON_parse := sampleParse |}.

(** An upstream that answers every request the same way. *)
Definition constantUpstream (response : UpstreamResponse.t)
  : @ForwardRequest sampleRuntime -> Result UpstreamResponse.t :=
  fun _ => Ok response.

(** [204 No Content]: the status line, and a body that reads as the empty
    string. *)
Definition noContent : UpstreamResponse.t :=
  UpstreamResponse.mk 204 "No Content" (Ok "").

(** [200 OK] with an empty body. *)
Definition okEmpty : UpstreamResponse.t :=
  UpstreamResponse.mk 200 "OK" (Ok "").

(** A request without a body: [req.json()] rejects with the parser's
    error for the empty text. *)
Definition emptyRequestBody : Result Json.t :=
  Throw "Unexpected end of JSON input".

(** Payloads for the worked examples. *)
Definition deleteOrder : Json.t :=
  Json.Obj [("method", Json.Str "DELETE"); ("path", Json.Str "/v1/order")].

Definition relativePath : Json.t :=
  Json.Obj [("method", Json.Str "GET"); ("path", Json.Str "v1/exchange")].

End Proxy.

(** ** The dashboard: client-side requests *)

Module Dashboard.

(** The argument of [proxyRequest]; an absent key is [None]. *)
Record ProxyPayload : Type :=
  { method : HttpMethod.t;
    path : string;
    target : option Target.t;
    query : option Json.t;
    body : option Json.t;
    headers : option Json.t }.

(** What [fetch("/api/pi42", ...)] resolves to: the status and the body as
    [res.json()] reads it. *)
Record ApiReply : Type := { status : Z; json : Result Json.t }.

(** [res.ok] *)
Definition ok (res : ApiReply) : bool :=
  (200 <=? status res) && (status res <=? 299).

(** A settled promise together with the proxy requests made on the way. *)
Definition Traced (A : Type) : Type := Result A * list ProxyPayload.

(** [{ data: T }], the envelope of the exchange's answers. *)
Record Envelope (T : Type) : Type := { data : option T }.
Arguments data {T} _.

Record MarketBundle : Type :=
  { ticker : option Pi42Ticker.t;
    depth : option Pi42DepthResponse.t;
    trades : list Pi42AggTrade.t;
    klines : list Pi42Kline.t }.

(** [Promise.all] over four promises: it rejects when one of them does
    (the reason is that of the rejection that settles first; the model
    takes the first in array order), and every request has been made by
    then, whichever way it ends. *)
Definition Promise_all4 {A B C D : Type}
    (pa : Traced A) (pb : Traced B) (pc : Traced C) (pd : Traced D)
  : Traced (A * B * C * D) :=
  (a ← pa.1; b ← pb.1; c ← pc.1; d ← pd.1; Ok (a, b, c, d),
   pa.2 ++ pb.2 ++ pc.2 ++ pd.2).

(** A string of the language is a sequence of UTF-16 code units.  The
    texts typed into the API explorer are kept as such, since the code
    goes by the white space at their ends. *)
Definition CodeUnit : Type := Z.
Definition Text : Type := list CodeUnit.

(** The code units of a string of ASCII characters. *)
Definition codeUnits (s : string) : Text :=
  map (fun c => Z.of_N (N_of_ascii c)) (list_ascii_of_string s).

(** The white space of the language, as [trim] strips it: the WhiteSpace
    code points (TAB, VT, FF, ZWNBSP and the space separators of Unicode,
    its category Zs: SPACE, NBSP, U+1680, U+2000 to U+200A, U+202F, U+205F,
    U+3000) and the LineTerminator code points (LF, CR, LS, PS).  All lie
    in the basic plane: each is one code unit, and no surrogate is one. *)
Definition isStrWhiteSpaceChar (c : CodeUnit) : bool :=
  ((0x09 <=? c) && (c <=? 0x0D)) || (c =? 0x20) || (c =? 0xA0) ||
  (c =? 0x1680) || ((0x2000 <=? c) && (c <=? 0x200A)) ||
  (c =? 0x2028) || (c =? 0x2029) || (c =? 0x202F) || (c =? 0x205F) ||
  (c =? 0x3000) || (c =? 0xFEFF).

Section Client.

(** The browser's builtins and the network, taken as given: the call to
    the proxy route, [String(value)] as [new Error(value)] applies it to a
    message that is not a string, [JSON.parse], [JSON.stringify(v, null, 2)],
    and the reading of an answer at the type the source asserts for it
    ([as T]). *)
Variable callApi : ProxyPayload -> Result ApiReply.
Variable String_of_json : Json.t -> string.
Variable JSON_parse : Text -> Result Json.t.
Variable JSON_stringify_pretty : Json.t -> string.
Variable asTicker : Json.t -> Envelope Pi42Ticker.t.
Variable asDepth : Json.t -> Envelope Pi42DepthResponse.t.
Variable asTrades : Json.t -> Envelope (list Pi42AggTrade.t).
Variable asKlines : Json.t -> list Pi42Kline.t.

(** [v?.key]: the key of an object, [undefined] on anything else. *)
Definition optionalField (key : string) (v : Json.t) : option Json.t :=
  match v with
  | Json.Obj fields => Json.field key fields
  | _ => None
  end.

(** [x ?? y] on a value that may be [undefined] or [null]. *)
Definition nullish (v : option Json.t) : option Json.t :=
  match v with
  | Some Json.Null => None
  | other => other
  end.

(** The message of the error thrown for an answer that is not [ok]:
    [detail?.error ?? `Request failed with ${res.status}`]. *)
Definition failureMessage (res : ApiReply) : string :=
  let detail :=
    match json res with
    | Ok v => v
    | Throw _ => Json.Obj []
    end in
  match nullish (optionalField "error" detail) with
  | Some (Json.Str message) => message
  | Some other => String_of_json other
  | None => "Request failed with " +:+ pretty (status res)
  end.

(** [proxyRequest<T>] *)
Definition proxyRequest {T : Type} (asT : Json.t -> T) (payload : ProxyPayload)
  : Traced (option T) :=
  (res ← callApi payload;
   if negb (ok res) then Throw (failureMessage res)
   else
     json ← json res;
     Ok (asT <$> nullish (optionalField "data" json)),
   [payload]).

Definition getRequest (path : string) : ProxyPayload :=
  {| method := HttpMethod.GET; path := path; target := None;
     query := None; body := None; headers := None |}.

(** The four requests of a bundle. *)
Definition tickerRequest (symbol : string) : ProxyPayload :=
  getRequest ("/v1/market/ticker24Hr/" +:+ symbol).

Definition depthRequest (symbol : string) : ProxyPayload :=
  getRequest ("/v1/market/depth/" +:+ symbol).

Definition tradesRequest (symbol : string) : ProxyPayload :=
  getRequest ("/v1/market/aggTrade/" +:+ symbol).

Definition klinesRequest (symbol interval : string) : ProxyPayload :=
  {| method := HttpMethod.POST; path := "/v1/market/klines"; target := None;
     query := None;
     body := Some (Json.Obj [("pair", Json.Str symbol);
                             ("interval", Json.Str interval);
                             ("limit", Json.Num 400%float)]);
     headers := None |}.

(** [fetchMarketBundle] *)
Definition fetchMarketBundle (symbol interval : string) : Traced MarketBundle :=
  let settled :=
    Promise_all4
      (proxyRequest asTicker (tickerRequest symbol))
      (proxyRequest asDepth (depthRequest symbol))
      (proxyRequest asTrades (tradesRequest symbol))
      (proxyRequest asKlines (klinesRequest symbol interval)) in
  ('(ticker, depth, trades, klines) ← settled.1;
   Ok {| ticker := ticker ≫= data;
         depth := depth ≫= data;
         trades :=
           match trades ≫= data with
           | Some list => JsArray.slice_from (-120) list
           | None => []
           end;
         klines := default [] klines |},
   settled.2).

(** The market state of the [Dashboard] component. *)
Record MarketState : Type :=
  { st_ticker : option Pi42Ticker.t;
    st_depth : option Pi42DepthResponse.t;
    st_trades : list Pi42AggTrade.t;
    st_klines : list Pi42Kline.t;
    st_loading : bool;
    (** what [console.error] printed *)
    st_console : list string }.

(** The effect that refreshes the bundle for [contractName] and
    [interval]; [cancelled] tells whether the effect had been cleaned up
    by the time the promise settled. *)
Definition refreshBundle (contractName interval : string) (cancelled : bool)
    (st : MarketState) : MarketState * list ProxyPayload :=
  if String.eqb contractName "" then (st, [])
  else
    let '(outcome, issued) := fetchMarketBundle contractName interval in
    let st :=
      match outcome with
      | Ok bundle =>
          if cancelled then st
          else {| st_ticker := ticker bundle;
                  st_depth := depth bundle;
                  st_trades := trades bundle;
                  st_klines := klines bundle;
                  st_loading := st_loading st;
                  st_console := st_console st |}
      | Throw message =>
          {| st_ticker := st_ticker st;
             st_depth := st_depth st;
             st_trades := st_trades st;
             st_klines := st_klines st;
             st_loading := st_loading st;
             st_console :=
               st_console st ++ ["Failed to refresh bundle: " +:+ message] |}
      end in
    (if cancelled then st
     else {| st_ticker := st_ticker st;
             st_depth := st_depth st;
             st_trades := st_trades st;
             st_klines := st_klines st;
             st_loading := false;
             st_console := st_console st |},
     issued).

(** One of the four requests of the bundle rejects. *)
Definition someRejects (symbol interval : string) : Prop :=
  (exists m, (proxyRequest asTicker (tickerRequest symbol)).1 = Throw m) \/
  (exists m, (proxyRequest asDepth (depthRequest symbol)).1 = Throw m) \/
  (exists m, (proxyRequest asTrades (tradesRequest symbol)).1 = Throw m) \/
  (exists m, (proxyRequest asKlines (klinesRequest symbol interval)).1 = Throw m).

(** *** The API explorer *)

(** [s.trim()]: the white space at both ends is removed. *)
Fixpoint trimStart (s : Text) : Text :=
  match s with
  | [] => []
  | c :: rest => if isStrWhiteSpaceChar c then trimStart rest else s
  end.

Definition trim (s : Text) : Text :=
  List.rev (trimStart (List.rev (trimStart s))).

(** [s === ""] *)
Definition isEmpty (s : Text) : bool :=
  match s with [] => true | _ :: _ => false end.

(** The form state of [ApiExplorer]. *)
Record Explorer : Type :=
  { ex_method : HttpMethod.t;
    ex_path : string;
    ex_target : Target.t;
    ex_query : Text;
    ex_body : Text;
    ex_headers : Text;
    ex_response : string;
    ex_isLoading : bool;
    ex_error : option string }.

(** The three conditionals at the head of [execute]'s [try] block. *)
Definition queryPayload (st : Explorer) : Result Json.t :=
  if isEmpty (trim (ex_query st)) then Ok (Json.Obj [])
  else JSON_parse (ex_query st).

Definition bodyPayload (st : Explorer) : Result (option Json.t) :=
  if isEmpty (trim (ex_body st)) || HttpMethod.eqb (ex_method st) HttpMethod.GET
  then Ok None
  else parsed ← JSON_parse (ex_body st); Ok (Some parsed).

Definition headersPayload (st : Explorer) : Result Json.t :=
  if isEmpty (trim (ex_headers st)) then Ok (Json.Obj [])
  else JSON_parse (ex_headers st).

(** The argument [execute] builds for [proxyRequest], when all three
    conditionals return. *)
Definition explorerPayload (st : Explorer) : Result ProxyPayload :=
  q ← queryPayload st;
  b ← bodyPayload st;
  h ← headersPayload st;
  Ok {| method := ex_method st; path := ex_path st;
        target := Some (ex_target st);
        query := Some q; body := b; headers := Some h |}.

(** [execute]: the state once the handler has run to its end, and the
    proxy requests it made. *)
Definition execute (st : Explorer) : Explorer * list ProxyPayload :=
  let '(outcome, issued) :=
    match explorerPayload st with
    | Throw message => (Throw message, [])
    | Ok payload =>
        let '(res, issued) := proxyRequest (fun v => v) payload in
        (value ← res; Ok (JSON_stringify_pretty (default Json.Null value)), issued)
    end in
  ({| ex_method := ex_method st; ex_path := ex_path st;
      ex_target := ex_target st; ex_query := ex_query st;
      ex_body := ex_body st; ex_headers := ex_headers st;
      ex_response :=
        match outcome with
        | Ok text => text
        | Throw _ => ex_response st
        end;
      ex_isLoading := false;
      ex_error :=
        match outcome with
        | Ok _ => None
        | Throw message => Some message
        end |},
   issued).

(** [s.trim() === ""] *)
Definition blank (s : Text) : Prop := trim s = [].

(** The state [execute] leaves when it ends with a local error. *)
Definition failedWith (st : Explorer) (message : string) : Explorer :=
  {| ex_method := ex_method st; ex_path := ex_path st;
     ex_target := ex_target st; ex_query := ex_query st;
     ex_body := ex_body st; ex_headers := ex_headers st;
     ex_response := ex_response st;
     ex_isLoading := false;
     ex_error := Some message |}.

(** One of the three conditionals throws, the earlier ones having
    returned. *)
Definition parseFails (st : Explorer) (message : string) : Prop :=
  queryPayload st = Throw message \/
  (exists q, queryPayload st = Ok q /\ bodyPayload st = Throw message) \/
  (exists q b, queryPayload st = Ok q /\ bodyPayload st = Ok b /\
               headersPayload st = Throw message).

(** The parsing of a field as the specification words it: "each JSON
    field is parsed, empty string treated as [{}]", the body left out for
    [GET]. *)
Definition fieldAsStated (text : Text) : Result Json.t :=
  if isEmpty text then Ok (Json.Obj []) else JSON_parse text.

Definition payloadAsStated (st : Explorer) : Result ProxyPayload :=
  q ← fieldAsStated (ex_query st);
  b ← fieldAsStated (ex_body st);
  h ← fieldAsStated (ex_headers st);
  Ok {| method := ex_method st; path := ex_path st;
        target := Some (ex_target st);
        query := Some q;
        body := if HttpMethod.eqb (ex_method st) HttpMethod.GET
                then None else Some b;
        headers := Some h |}.

End Client.

(** A proxy route for the worked examples: the request for [failing]
    is lost on the way, every other one is answered with an empty
    envelope. *)
Definition sampleApi (failing : string) (payload : ProxyPayload)
  : Result ApiReply :=
  if String.eqb (path payload) failing then Throw "Failed to fetch"
  else Ok {| status := 200;
             json := Ok (Json.Obj [("data", Json.Obj [("data", Json.Null)])]) |}.

Definition sampleToString (v : Json.t) : string := "[object Object]".

Definition emptyEnvelope {T : Type} (v : Json.t) : Envelope T :=
  {| data := None |}.

(** The answer read as an envelope of [count] trades. *)
Definition tradesEnvelope (count : nat) (v : Json.t)
  : Envelope (list Pi42AggTrade.t) :=
  {| data := Some (Realtime.sampleTrades count) |}.

Definition sampleMarket : MarketState :=
  {| st_ticker := None; st_depth := None;
     st_trades := Realtime.sampleTrades 3; st_klines := [];
     st_loading := true; st_console := [] |}.

(** An explorer form with the given method and body text, the other
    fields as the component initialises them. *)
Definition sampleExplorer (method : HttpMethod.t) (body : string) : Explorer :=
  {| ex_method := method; ex_path := "/v1/market/ticker24Hr/BTCINR";
     ex_target := Target.public; ex_query := codeUnits "{}";
     ex_body := codeUnits body; ex_headers := codeUnits "{}";
     ex_response := ""; ex_isLoading := false; ex_error := None |}.

(** The same form with a query text of one no-break space and line
    separator each, and a headers text of three spaces. *)
Definition spacedExplorer (method : HttpMethod.t) (body : string) : Explorer :=
  {| ex_method := method; ex_path := "/v1/market/ticker24Hr/BTCINR";
     ex_target := Target.public; ex_query := [0xA0; 0x2028];
     ex_body := codeUnits body; ex_headers := codeUnits "   ";
     ex_response := ""; ex_isLoading := false; ex_error := None |}.

(** [JSON.parse] on a text, for the worked examples: the text read as
    ASCII characters, any other code unit being an unexpected token. *)
Definition asciiOf (text : Text) : option string :=
  fold_right
    (fun c rest =>
       s ← rest;
       if (0 <=? c) && (c <? 128) then Some (String (ascii_of_N (Z.to_N c)) s)
       else None)
    (Some EmptyString) text.

Definition sampleParseText (text : Text) : Result Json.t :=
  match asciiOf text with
  | Some s => sampleParse s
  | None => Throw "Unexpected token"
  end.

(** *** The socket and the realtime subscription effect

    The socket is one object shared by every run of the effect.  Its state
    is the sequence of calls made on it and the listeners it holds; a
    listener is known by the event and by the effect run that created the
    handler, since every run builds new closures. *)

Inductive Emit : Type :=
| subscribe (params : list string)
| unsubscribe (params : list string).

Inductive Owner : Type :=
| SocketEffect
| Run (run : nat).

Inductive Call : Type :=
| Emitted (message : Emit)
| On (event : string) (owner : Owner)
| Off (event : string) (owner : Owner).

Record Socket : Type :=
  { calls : list Call;
    listeners : list (string * Owner) }.

(** [io(...)] *)
Definition io : Socket := {| calls := []; listeners := [] |}.

(** [socket.emit(...)] *)
Definition emit (message : Emit) (socket : Socket) : Socket :=
  {| calls := calls socket ++ [Emitted message];
     listeners := listeners socket |}.

(** [socket.on(event, handler)] *)
Definition on (event : string) (owner : Owner) (socket : Socket) : Socket :=
  {| calls := calls socket ++ [On event owner];
     listeners := listeners socket ++ [(event, owner)] |}.

Definition sameOwner (x y : Owner) : bool :=
  match x, y with
  | SocketEffect, SocketEffect => true
  | Run n, Run m => Nat.eqb n m
  | _, _ => false
  end.

Definition sameListener (x y : string * Owner) : bool :=
  String.eqb x.1 y.1 && sameOwner x.2 y.2.

Fixpoint removeFirst {A : Type} (same : A -> A -> bool) (x : A) (arr : list A)
  : list A :=
  match arr with
  | [] => []
  | y :: rest => if same x y then rest else y :: removeFirst same x rest
  end.

(** [socket.off(event, handler)]: that listener is removed. *)
Definition off (event : string) (owner : Owner) (socket : Socket) : Socket :=
  {| calls := calls socket ++ [Off event owner];
     listeners := removeFirst sameListener (event, owner) (listeners socket) |}.

(** The socket effect, which runs once: it creates the socket and listens
    to its connection events. *)
Definition connectionEvents : list string :=
  ["connect"; "disconnect"; "connect_error"].

Definition socketEffect : Socket :=
  fold_left (fun s event => on event SocketEffect s) connectionEvents io.

(** The dependency array of the subscription effect. *)
Record Deps : Type :=
  { lowerSymbol : string; depthGroupingValue : string; interval : string }.

Definition sameDeps (x y : Deps) : bool :=
  String.eqb (lowerSymbol x) (lowerSymbol y) &&
  String.eqb (depthGroupingValue x) (depthGroupingValue y) &&
  String.eqb (interval x) (interval y).

Definition topics (deps : Deps) : list string :=
  [ lowerSymbol deps +:+ "@depth_" +:+ depthGroupingValue deps;
    lowerSymbol deps +:+ "@aggTrade";
    lowerSymbol deps +:+ "@ticker";
    lowerSymbol deps +:+ "@kline_" +:+ interval deps ].

Definition events : list string :=
  ["depthUpdate"; "aggTrade"; "24hrTicker"; "kline"].

(** What the effect returns for its cleanup: the topics and the handlers
    of that run. *)
Record Cleanup : Type := { cl_topics : list string; cl_run : nat }.

(** The body of the effect, run number [run]. *)
Definition subscriptionEffect (run : nat) (deps : Deps)
    (socketRef : option Socket) : option Socket * option Cleanup :=
  match socketRef with
  | None => (None, None)
  | Some socket =>
      if String.eqb (lowerSymbol deps) "" then (Some socket, None)
      else
        let socket := emit (subscribe (topics deps)) socket in
        let socket :=
          fold_left (fun s event => on event (Run run) s) events socket in
        (Some socket, Some {| cl_topics := topics deps; cl_run := run |})
  end.

(** The function the effect returned. *)
Definition runCleanup (cleanup : Cleanup) (socket : Socket) : Socket :=
  let socket := emit (unsubscribe (cl_topics cleanup)) socket in
  fold_left (fun s event => off event (Run (cl_run cleanup)) s) events socket.

(** The part of the component the effect lives in: the socket behind
    [socketRef], the dependencies of the last run, its cleanup, and the
    number of runs so far. *)
Record Subscriber : Type :=
  { socketRef : option Socket;
    lastDeps : option Deps;
    cleanup : option Cleanup;
    runs : nat }.

(** A commit with dependencies [deps]: when they differ from those of the
    last run, the framework calls that run's cleanup and then the effect. *)
Definition commit (deps : Deps) (st : Subscriber) : Subscriber :=
  let changed :=
    match lastDeps st with
    | Some previous => negb (sameDeps previous deps)
    | None => true
    end in
  if changed then
    let socketRef :=
      match cleanup st, socketRef st with
      | Some c, Some socket => Some (runCleanup c socket)
      | _, other => other
      end in
    let '(socketRef, cleanup) := subscriptionEffect (runs st) deps socketRef in
    {| socketRef := socketRef; lastDeps := Some deps;
       cleanup := cleanup; runs := S (runs st) |}
  else st.

(** The first commit: the socket effect comes before the subscription
    effect, so [socketRef] holds the socket when the latter first runs. *)
Definition mount (deps : Deps) : Subscriber :=
  commit deps {| socketRef := Some socketEffect; lastDeps := None;
                 cleanup := None; runs := 0 |}.

(** A sequence of selection changes after the first commit. *)
Definition select (changes : list Deps) (st : Subscriber) : Subscriber :=
  fold_left (fun st deps => commit deps st) changes st.

(** The topic sets that are active on the feed after a sequence of calls:
    each [subscribe] adds its set, each [unsubscribe] withdraws one set
    with the same topics; listening changes nothing on the feed. *)
Definition sameTopics (x y : list string) : bool := bool_decide (x = y).

Definition deliver (active : list (list string)) (call : Call)
  : list (list string) :=
  match call with
  | Emitted (subscribe params) => active ++ [params]
  | Emitted (unsubscribe params) => removeFirst sameTopics params active
  | On _ _ | Off _ _ => active
  end.

Definition activeSets (history : list Call) : list (list string) :=
  fold_left deliver history [].

(** Calls that only attach or detach listeners. *)
Definition listening (call : Call) : Prop :=
  match call with Emitted _ => False | On _ _ | Off _ _ => True end.

(** The selection has a symbol, so the effect subscribes. *)
Definition hasSymbol (deps : Deps) : bool :=
  negb (String.eqb (lowerSymbol deps) "").

(** The calls of the socket effect. *)
Definition connecting : list Call :=
  map (fun event => On event SocketEffect) connectionEvents.

Definition connectionListeners : list (string * Owner) :=
  map (fun event => (event, SocketEffect)) connectionEvents.

(** The calls of one run of the subscription effect, and of its cleanup. *)
Definition subscribing (deps : Deps) (run : nat) : list Call :=
  Emitted (subscribe (topics deps)) ::
  map (fun event => On event (Run run)) events.

Definition unsubscribing (deps : Deps) (run : nat) : list Call :=
  Emitted (unsubscribe (topics deps)) ::
  map (fun event => Off event (Run run)) events.

(** The calls of the selections that have come and gone: each subscribed
    and attached its handlers, then unsubscribed and detached them, before
    the next one. *)
Definition session (selection : Deps * nat) : list Call :=
  subscribing selection.1 selection.2 ++ unsubscribing selection.1 selection.2.

Definition closed (past : list (Deps * nat)) : list Call :=
  flat_map session past.

(** What the current selection has called and registered. *)
Definition opened (deps : Deps) (run : nat) : list Call :=
  if hasSymbol deps then subscribing deps run else [].

Definition handlers (deps : Deps) (run : nat) : list (string * Owner) :=
  if hasSymbol deps then map (fun event => (event, Run run)) events else [].

(** The subscriber stands on the selection [deps]. *)
Definition settled (deps : Deps) (st : Subscriber) : Prop :=
  exists socket past run,
    socketRef st = Some socket /\
    lastDeps st = Some deps /\
    calls socket = connecting ++ closed past ++ opened deps run /\
    listeners socket = connectionListeners ++ handlers deps run /\
    cleanup st =
      (if hasSymbol deps
       then Some {| cl_topics := topics deps; cl_run := run |}
       else None).

(** The values the dependencies are computed from, on ASCII characters. *)
Definition isWhiteSpace (c : ascii) : bool :=
  let code := Z.of_N (N_of_ascii c) in
  ((9 <=? code) && (code <=? 13)) || (code =? 32).

Definition lowerAscii (c : ascii) : ascii :=
  let code := N_of_ascii c in
  if ((65 <=? code) && (code <=? 90))%N then ascii_of_N (code + 32) else c.

Fixpoint toLowerCase (s : string) : string :=
  match s with
  | EmptyString => EmptyString
  | String c rest => String (lowerAscii c) (toLowerCase rest)
  end.

Fixpoint stripWhiteSpace (s : string) : string :=
  match s with
  | EmptyString => EmptyString
  | String c rest =>
      if isWhiteSpace c then stripWhiteSpace rest
      else String c (stripWhiteSpace rest)
  end.

Definition selectionDeps (selectedContract : option Page.Pi42Contract.t)
    (interval : string) : Deps :=
  let contractName :=
    match selectedContract with
    | Some contract => Page.Pi42Contract.name contract
    | None => ""
    end in
  let grouping : option string :=
    contract ← selectedContract;
    buckets ← Page.Pi42Contract.depthGrouping contract;
    head buckets in
  {| lowerSymbol := toLowerCase contractName;
     depthGroupingValue :=
       match grouping with
       | Some bucket => stripWhiteSpace bucket
       | None => "0.1"
       end;
     interval := interval |}.

End Dashboard.
(** ** Finite doubles as integers

    A finite binary64 value is an integer multiple of [2 ^ emin], the
    spacing of the subnormal numbers; the multiple orders the values. *)

Module Binary64.

(** Zero or a finite number in canonical form. *)
Definition finite (x : spec_float) : bool :=
  match x with
  | S754_zero _ => true
  | S754_finite _ m e => canonical_mantissa FloatOps.prec FloatOps.emax m e
  | _ => false
  end.

(** The value in units of [2 ^ emin]. *)
Definition scaled (x : spec_float) : Z :=
  match x with
  | S754_finite s m e =>
      cond_Zopp s (Zpos m * 2 ^ (e - SpecFloat.emin FloatOps.prec FloatOps.emax))
  | _ => 0
  end.

(** The multiple behind a number. *)
Definition rank (a : number) : Z := scaled (Prim2SF a).

End Binary64.

(** ** The landing page, continued: the order of the combined list, the
    primary contract and the initial snapshot *)

Module Landing.
Import Page Page.CombinedContractMetrics.

(** The key of the sort in [computeCombinedContracts]: [quoteVolume ?? 0]. *)
Definition volume (item : CombinedContractMetrics.t) : number :=
  orZero (quoteVolume item).

(** The quote volume, when there is one, is a finite number. *)
Definition finiteVolume (item : CombinedContractMetrics.t) : bool :=
  PrimFloat.is_finite (volume item).

(** The test of the filter in [computeCombinedContracts]. *)
Definition hasStats (item : CombinedContractMetrics.t) : bool :=
  bool_decide (is_Some (marketStats item)).

(** No contract stands before one with a larger quote volume. *)
Definition descendingByVolume : list CombinedContractMetrics.t -> Prop :=
  StronglySorted (fun x y => (volume x <? volume y)%float = false).

Definition sameVolume (x y : CombinedContractMetrics.t) : bool :=
  (volume x =? volume y)%float.

(** Contracts of equal quote volume stand in [ranked] as they stood in
    [arr]. *)
Definition volumeTiesInOrder (arr ranked : list CombinedContractMetrics.t)
  : Prop :=
  forall x, x ∈ arr ->
    List.filter (sameVolume x) ranked = List.filter (sameVolume x) arr.

(** [combinedContracts.find((item) => item.contract.isDefaultContract)
      ?? combinedContracts[0]] *)
Definition primaryContract (combined : list CombinedContractMetrics.t)
  : option CombinedContractMetrics.t :=
  match List.find (fun item => Pi42Contract.isDefaultContract (contract item))
          combined with
  | Some item => Some item
  | None => head combined
  end.

(** The argument of [getKlines]. *)
Module KlinesParams.
Record t : Type := mk { pair : string; interval : string; limit : number }.
End KlinesParams.

(** The [initialSnapshot] prop of the dashboard. *)
Module InitialSnapshot.
Record t : Type := mk
  { contract : option string;
    ticker : option Pi42Ticker.t;
    depth : option Pi42DepthResponse.t;
    trades : list Pi42AggTrade.t;
    klines : list Pi42Kline.t }.
End InitialSnapshot.

(** The calls [Home] makes for the snapshot. *)
Inductive Call : Type :=
| GetTicker (symbol : string)
| GetDepth (symbol : string)
| GetAggTrades (symbol : string)
| GetKlines (params : KlinesParams.t).

Section Snapshot.

(** The four fetchers are imported from the repository's [lib/pi42],
    which is not part of the sources at hand; they are taken as given,
    each a promise that resolves or rejects. *)
Variable getTicker : string -> Result (option Pi42Ticker.t).
Variable getDepth : string -> Result (option Pi42DepthResponse.t).
Variable getAggTrades : string -> Result (list Pi42AggTrade.t).
Variable getKlines : KlinesParams.t -> Result (list Pi42Kline.t).

Definition klinesParams (symbol : string) : KlinesParams.t :=
  KlinesParams.mk symbol "1h" 180%float.

(** The part of [Home] from [primaryContract] to the [initialSnapshot]
    prop: the snapshot, the calls made, and what [console.error]
    printed.  The four variables keep their initial values unless
    [Promise.all] resolves, since the destructuring assignment comes after
    the [await]. *)
Definition initialSnapshot (combined : list CombinedContractMetrics.t)
  : InitialSnapshot.t * list Call * list string :=
  match primaryContract combined with
  | None =>
      (InitialSnapshot.mk None None None [] [], [], [])
  | Some primary =>
      let symbol := Pi42Contract.name (CombinedContractMetrics.contract primary) in
      let calls :=
        [GetTicker symbol; GetDepth symbol; GetAggTrades symbol;
         GetKlines (klinesParams symbol)] in
      let settled : Result _ :=
        t ← getTicker symbol;
        d ← getDepth symbol;
        tr ← getAggTrades symbol;
        kl ← getKlines (klinesParams symbol);
        Ok (t, d, tr, kl) in
      match settled with
      | Ok (t, d, tr, kl) =>
          (InitialSnapshot.mk (Some symbol) t d tr kl, calls, [])
      | Throw message =>
          (InitialSnapshot.mk (Some symbol) None None [] [], calls,
           ["Failed to fetch initial market data: " +:+ message])
      end
  end.

End Snapshot.

(** Sample metrics: a contract by name with a quote volume. *)
Definition metricsWithVolume (name : string) (volume : option number)
  : CombinedContractMetrics.t :=
  CombinedContractMetrics.mk (sampleContract name)
    (Some (statsWithFunding None)) "INR" None None None None volume None.

(** Sample metrics of a contract by name, flagged as the default contract
    or not, and a combined list whose second and third contracts are
    flagged. *)
Definition metricsFlagged (name : string) (flag : bool)
  : CombinedContractMetrics.t :=
  CombinedContractMetrics.mk
    (Pi42Contract.mk name name "BTC" "INR" (Some "INR") None flag)
    (Some (statsWithFunding None)) "INR" None None None None None None.

Definition flaggedContracts : list CombinedContractMetrics.t :=
  [metricsFlagged "BTCINR" false; metricsFlagged "ETHINR" true;
   metricsFlagged "SOLINR" true].

End Landing.

(** ** The request proxy, continued: what is forwarded and what is
    reported *)

Module Forwarding.
Import Proxy.

(** The entries the two [forEach] callbacks of the handler act on. *)
Definition nonEmptyQuery (entry : string * QueryValue) : bool :=
  match entry.2 with
  | QStr "" => false
  | _ => true
  end.

Definition nonEmptyHeader (entry : string * string) : bool :=
  negb (String.eqb entry.2 "").

(** The payload without its query entries and headers of empty value. *)
Definition withoutEmptyValues (data : Parsed) : Parsed :=
  {| method := method data; path := path data; target := target data;
     query := List.filter nonEmptyQuery (query data);
     headers := List.filter nonEmptyHeader (headers data);
     body := body data |}.

(** The keys of [requestSchema], each with what the schema asks of it. *)
Definition schemaKeys : list (string * (option Json.t -> bool)) :=
  [("method", methodOk); ("path", pathOk); ("target", targetOk);
   ("query", queryOk); ("headers", headersOk); ("body", bodyOk)].

Definition knownKey (key : string) : bool :=
  existsb (fun entry => String.eqb entry.1 key) schemaKeys.

(** The issue list names the key: one of its issues has a path that starts
    with it. *)
Definition reported (key : string) (issues : list ZodIssue.t) : Prop :=
  exists issue, issue ∈ issues /\ head (ZodIssue.path issue) = Some key.

(** Sample payloads: a path without a slash and headers that are not an
    object; a query with an empty value. *)
Definition twoViolations : list (string * Json.t) :=
  [("method", Json.Str "GET"); ("path", Json.Str "v1/exchange");
   ("headers", Json.Num 1%float)].

Definition sampleParsed : Parsed :=
  {| method := HttpMethod.GET; path := "/v1/exchange"; target := Target.public;
     query := [("a", QStr ""); ("b", QBool false); ("c", QStr "x")];
     headers := [("X-Empty", ""); ("X-Trace", "1")];
     body := None |}.

End Forwarding.

(** ** The dashboard's requests through the proxy route *)

Module EndToEnd.
Import Proxy.

Definition methodName (m : HttpMethod.t) : string :=
  match m with
  | HttpMethod.GET => "GET"
  | HttpMethod.POST => "POST"
  | HttpMethod.PUT => "PUT"
  | HttpMethod.DELETE => "DELETE"
  | HttpMethod.PATCH => "PATCH"
  end.

Definition targetName (t : Target.t) : string :=
  match t with
  | Target.public => "public"
  | Target.private => "private"
  end.

(** A key of an object literal whose value may be [undefined]:
    [JSON.stringify] leaves such a key out. *)
Definition optionalKey (key : string) (v : option Json.t)
  : list (string * Json.t) :=
  match v with
  | Some x => [(key, x)]
  | None => []
  end.

Section Wire.

(** What the receiver reads of a JSON value the sender wrote,
    [JSON.parse(JSON.stringify(v))], and the JSON form of the issue list;
    both are the platform's and the schema library's, taken as given. *)
Variable wire : Json.t -> Json.t.
Variable issuesJson : list ZodIssue.t -> Json.t.

(** What [req.json()] reads in the route of the body
    [JSON.stringify(payload)] that [proxyRequest] sends. *)
Definition requestJson (payload : Dashboard.ProxyPayload) : Json.t :=
  Json.Obj
    ([("method", Json.Str (methodName (Dashboard.method payload)));
      ("path", Json.Str (Dashboard.path payload))] ++
     optionalKey "target"
       (match Dashboard.target payload with
        | Some t => Some (Json.Str (targetName t))
        | None => None
        end) ++
     optionalKey "query" (wire <$> Dashboard.query payload) ++
     optionalKey "body" (wire <$> Dashboard.body payload) ++
     optionalKey "headers" (wire <$> Dashboard.headers payload)).

(** What [res.json()] reads in the browser of a body the route sent with
    [NextResponse.json]. *)
Definition bodyJson (body : NextResponse.Body) : Json.t :=
  match body with
  | NextResponse.Mirrored status statusText data =>
      Json.Obj [("status", Json.Num (Page.numberOfZ status));
                ("statusText", Json.Str statusText);
                ("data", wire data)]
  | NextResponse.InvalidPayload error issues =>
      Json.Obj [("error", Json.Str error); ("issues", issuesJson issues)]
  | NextResponse.Failure error =>
      Json.Obj [("error", Json.Str error)]
  end.

Definition replyOf (response : NextResponse.t) : Dashboard.ApiReply :=
  {| Dashboard.status := NextResponse.status response;
     Dashboard.json := Ok (bodyJson (NextResponse.body response)) |}.

Context `{rt : Runtime}.
Variable fetch : ForwardRequest -> Result UpstreamResponse.t.

(** [fetch("/api/pi42", ...)] when the request reaches the route. *)
Definition callRoute (payload : Dashboard.ProxyPayload)
  : Result Dashboard.ApiReply :=
  replyOf <$> (POST fetch (Ok (requestJson payload))).1.

End Wire.

(** An upstream that answers [404 Not Found] with an error body of its
    own. *)
Definition notFound : UpstreamResponse.t :=
  UpstreamResponse.mk 404 "Not Found" (Ok "null").

End EndToEnd.

(** ** The dashboard component: selection and the bundle effect

    The component keeps the selected symbol, the interval and the market
    state; an effect refetches the bundle whenever the contract name or
    the interval changes.  Each run of the effect has a [cancelled]
    variable of its own, which its cleanup sets; the promise of a run
    settles at some later time.  The model keeps the promises that have
    not settled and steps on the user's selections and on the settling of
    a promise. *)

Module Component.
Import Page.CombinedContractMetrics Dashboard.

(** [contracts.find((item) => item.contract.name === selectedSymbol)
      ?? contracts[0]] *)
Definition selectedContract (contracts : list Page.CombinedContractMetrics.t)
    (selectedSymbol : string) : option Page.CombinedContractMetrics.t :=
  match List.find
          (fun item =>
             String.eqb (Page.Pi42Contract.name (contract item)) selectedSymbol)
          contracts with
  | Some item => Some item
  | None => head contracts
  end.

(** [selectedContract?.contract.name ?? ""] *)
Definition contractName (contracts : list Page.CombinedContractMetrics.t)
    (selectedSymbol : string) : string :=
  match selectedContract contracts selectedSymbol with
  | Some item => Page.Pi42Contract.name (contract item)
  | None => ""
  end.

(** [initialSnapshot.contract ?? contracts[0]?.contract.name ?? ""] *)
Definition initialSymbol (snapshot : Landing.InitialSnapshot.t)
    (contracts : list Page.CombinedContractMetrics.t) : string :=
  match Landing.InitialSnapshot.contract snapshot with
  | Some symbol => symbol
  | None =>
      match head contracts with
      | Some item => Page.Pi42Contract.name (contract item)
      | None => ""
      end
  end.

(** A bundle promise that has not settled: the effect run that started
    it, what it asked for, and the [cancelled] variable of that run. *)
Record Fetch : Type :=
  { fetch_run : nat;
    fetch_symbol : string;
    fetch_interval : string;
    fetch_cancelled : bool }.

Record State : Type :=
  { selectedSymbol : string;
    interval : string;
    market : MarketState;
    (** the dependencies [contractName, interval] of the last effect run *)
    deps : option (string * string);
    (** the run whose cleanup the last effect run returned, if it
        returned one *)
    cleanup : option nat;
    pending : list Fetch;
    runs : nat }.

Definition setLoading (value : bool) (m : MarketState) : MarketState :=
  {| st_ticker := st_ticker m; st_depth := st_depth m;
     st_trades := st_trades m; st_klines := st_klines m;
     st_loading := value; st_console := st_console m |}.

(** The [then], [catch] and [finally] callbacks of the effect, for a run
    whose [cancelled] variable has the given value when the promise
    settles. *)
Definition applyOutcome (cancelled : bool) (outcome : Result MarketBundle)
    (m : MarketState) : MarketState :=
  let m :=
    match outcome with
    | Ok bundle =>
        if cancelled then m
        else {| st_ticker := ticker bundle; st_depth := depth bundle;
                st_trades := trades bundle; st_klines := klines bundle;
                st_loading := st_loading m; st_console := st_console m |}
    | Throw message =>
        {| st_ticker := st_ticker m; st_depth := st_depth m;
           st_trades := st_trades m; st_klines := st_klines m;
           st_loading := st_loading m;
           st_console :=
             st_console m ++ ["Failed to refresh bundle: " +:+ message] |}
    end in
  if cancelled then m else setLoading false m.

(** The cleanup of a run: [cancelled = true]. *)
Definition cancel (run : nat) (pending : list Fetch) : list Fetch :=
  map (fun f =>
         if Nat.eqb (fetch_run f) run
         then {| fetch_run := fetch_run f; fetch_symbol := fetch_symbol f;
                 fetch_interval := fetch_interval f; fetch_cancelled := true |}
         else f)
    pending.

Definition sameDeps (last : option (string * string)) (next : string * string)
  : bool :=
  match last with
  | Some previous =>
      String.eqb previous.1 next.1 && String.eqb previous.2 next.2
  | None => false
  end.

(** The bundle effect at a commit: when the dependencies have changed,
    the cleanup of the last run and then the effect, which returns early
    for an empty contract name. *)
Definition commit (contracts : list Page.CombinedContractMetrics.t)
    (st : State) : State :=
  let name := contractName contracts (selectedSymbol st) in
  let next := (name, interval st) in
  if sameDeps (deps st) next then st
  else
    let pending :=
      match cleanup st with
      | Some run => cancel run (pending st)
      | None => pending st
      end in
    if String.eqb name ""
    then {| selectedSymbol := selectedSymbol st; interval := interval st;
            market := market st; deps := Some next; cleanup := None;
            pending := pending; runs := S (runs st) |}
    else {| selectedSymbol := selectedSymbol st; interval := interval st;
            market := market st; deps := Some next;
            cleanup := Some (runs st);
            pending :=
              pending ++ [{| fetch_run := runs st; fetch_symbol := name;
                             fetch_interval := interval st;
                             fetch_cancelled := false |}];
            runs := S (runs st) |}.

(** [handleSymbolSelect] *)
Definition handleSymbolSelect (symbol : string) (st : State) : State :=
  if String.eqb symbol (selectedSymbol st) then st
  else {| selectedSymbol := symbol; interval := interval st;
          market := setLoading true (market st); deps := deps st;
          cleanup := cleanup st; pending := pending st; runs := runs st |}.

(** [handleIntervalChange] *)
Definition handleIntervalChange (value : string) (st : State) : State :=
  if String.eqb value (interval st) then st
  else {| selectedSymbol := selectedSymbol st; interval := value;
          market := setLoading true (market st); deps := deps st;
          cleanup := cleanup st; pending := pending st; runs := runs st |}.

(** The promise of a run settles. *)
Definition settle (run : nat) (outcome : Result MarketBundle) (st : State)
  : State :=
  match List.find (fun f => Nat.eqb (fetch_run f) run) (pending st) with
  | None => st
  | Some f =>
      {| selectedSymbol := selectedSymbol st; interval := interval st;
         market := applyOutcome (fetch_cancelled f) outcome (market st);
         deps := deps st; cleanup := cleanup st;
         pending :=
           List.filter (fun g => negb (Nat.eqb (fetch_run g) run)) (pending st);
         runs := runs st |}
  end.

Inductive Event : Type :=
| SelectSymbol (symbol : string)
| ChangeInterval (value : string)
| Settle (run : nat) (outcome : Result MarketBundle).

(** One event: the handler, then the commit of the render it causes. *)
Definition step (contracts : list Page.CombinedContractMetrics.t)
    (st : State) (event : Event) : State :=
  match event with
  | SelectSymbol symbol => commit contracts (handleSymbolSelect symbol st)
  | ChangeInterval value => commit contracts (handleIntervalChange value st)
  | Settle run outcome => commit contracts (settle run outcome st)
  end.

(** The first render and its commit. *)
Definition mount (contracts : list Page.CombinedContractMetrics.t)
    (snapshot : Landing.InitialSnapshot.t) : State :=
  commit contracts
    {| selectedSymbol := initialSymbol snapshot contracts;
       interval := "1h";
       market :=
         {| st_ticker := Landing.InitialSnapshot.ticker snapshot;
            st_depth := Landing.InitialSnapshot.depth snapshot;
            st_trades := Landing.InitialSnapshot.trades snapshot;
            st_klines := Landing.InitialSnapshot.klines snapshot;
            st_loading := false; st_console := [] |};
       deps := None; cleanup := None; pending := []; runs := 0 |}.

Definition run (contracts : list Page.CombinedContractMetrics.t)
    (events : list Event) (st : State) : State :=
  fold_left (step contracts) events st.

(** The market data of a state, without the loading flag and the
    console. *)
Definition marketData (m : MarketState)
  : option Pi42Ticker.t * option Pi42DepthResponse.t *
    list Pi42AggTrade.t * list Pi42Kline.t :=
  (st_ticker m, st_depth m, st_trades m, st_klines m).

(** The names the contracts table offers. *)
Definition listed (contracts : list Page.CombinedContractMetrics.t)
    (symbol : string) : Prop :=
  exists item, item ∈ contracts /\
    Page.Pi42Contract.name (contract item) = symbol.

(** The selections of an event sequence are names the table offers. *)
Definition offered (contracts : list Page.CombinedContractMetrics.t)
    (event : Event) : Prop :=
  match event with
  | SelectSymbol symbol => listed contracts symbol
  | _ => True
  end.

(** The promise belongs to the last run of the effect. *)
Definition current (f : Fetch) (st : State) : Prop :=
  cleanup st = Some (fetch_run f) /\
  deps st = Some (fetch_symbol f, fetch_interval f).

(** What holds of the promises in every state the component reaches:
    they are told apart by their runs, and one that is not cancelled
    belongs to the last run. *)
Record Invariant (st : State) : Prop :=
  { inv_runs : Forall (fun f => (fetch_run f < runs st)%nat) (pending st);
    inv_nodup : NoDup (map fetch_run (pending st));
    inv_current :
      Forall (fun f => fetch_cancelled f = false -> current f st) (pending st) }.

(** The effect has run for what the state shows: the dependencies of the
    last run are the contract name and the interval of the state. *)
Definition rendered (contracts : list Page.CombinedContractMetrics.t)
    (st : State) : Prop :=
  deps st = Some (contractName contracts (selectedSymbol st), interval st).

(** A promise that is not cancelled has yet to settle. *)
Definition waiting (st : State) : Prop :=
  exists f, f ∈ pending st /\ fetch_cancelled f = false.

(** The rows of the trades table: [trades.slice(-100).reverse()]. *)
Definition tradeRows (trades : list Pi42AggTrade.t) : list Pi42AggTrade.t :=
  rev (JsArray.slice_from (-100) trades).

(** Sample data: three contracts, a snapshot that names the first, and a
    bundle that holds one trade. *)
Definition sampleContracts : list Page.CombinedContractMetrics.t :=
  [Landing.metricsWithVolume "BTCINR" None;
   Landing.metricsWithVolume "ETHINR" None;
   Landing.metricsWithVolume "SOLINR" None].

Definition sampleSnapshot : Landing.InitialSnapshot.t :=
  Landing.InitialSnapshot.mk (Some "BTCINR") None None [] [].

Definition sampleBundle : MarketBundle :=
  {| ticker := None; depth := None;
     trades := Realtime.sampleTrades 1; klines := [] |}.

End Component.

(** ** The depth chart: [buildDepthSeries] *)

Module DepthSeries.

Record DepthPoint : Type :=
  { price : number; bidLiquidity : number; askLiquidity : number }.

(** SameValueZero, the equality of [Map] keys: [NaN] equals [NaN], and
    [+0] equals [-0]. *)
Definition sameValueZero (x y : number) : bool :=
  (x =? y)%float || (PrimFloat.is_nan x && PrimFloat.is_nan y).

(** A [Map<number, DepthPoint>]: its entries in insertion order. *)
Definition DepthMap : Type := list (number * DepthPoint).

(** [depthMap.get(key)] *)
Fixpoint get (key : number) (depthMap : DepthMap) : option DepthPoint :=
  match depthMap with
  | [] => None
  | (k, v) :: rest => if sameValueZero k key then Some v else get key rest
  end.

(** [depthMap.set(key, value)]: the entry of the key gets the value and
    keeps its place; a new key goes to the end. *)
Fixpoint set (key : number) (value : DepthPoint) (depthMap : DepthMap)
  : DepthMap :=
  match depthMap with
  | [] => [(key, value)]
  | (k, v) :: rest =>
      if sameValueZero k key then (k, value) :: rest
      else (k, v) :: set key value rest
  end.

(** [depthMap.values()] *)
Definition values (depthMap : DepthMap) : list DepthPoint := map snd depthMap.

Section Build.

(** [Number(s)] on a string, a builtin, taken as given. *)
Variable Number : string -> number.

(** [{ price: key, bidLiquidity: 0, askLiquidity: 0 }] *)
Definition newPoint (key : number) : DepthPoint :=
  {| price := key; bidLiquidity := 0%float; askLiquidity := 0%float |}.

(** The callback of the first [forEach]; the state is [cumulativeBid] and
    the map.  The point object is mutated in place and set again under its
    key. *)
Definition addBid (state : number * DepthMap) (level : string * string)
  : number * DepthMap :=
  let '(cumulativeBid, depthMap) := state in
  let '(price, qty) := level in
  let cumulativeBid := (cumulativeBid + Number qty)%float in
  let key := Number price in
  let existing := default (newPoint key) (get key depthMap) in
  (cumulativeBid,
   set key {| price := DepthSeries.price existing;
              bidLiquidity := cumulativeBid;
              askLiquidity := askLiquidity existing |} depthMap).

(** The callback of the second [forEach]. *)
Definition addAsk (state : number * DepthMap) (level : string * string)
  : number * DepthMap :=
  let '(cumulativeAsk, depthMap) := state in
  let '(price, qty) := level in
  let cumulativeAsk := (cumulativeAsk + Number qty)%float in
  let key := Number price in
  let existing := default (newPoint key) (get key depthMap) in
  (cumulativeAsk,
   set key {| price := DepthSeries.price existing;
              bidLiquidity := bidLiquidity existing;
              askLiquidity := cumulativeAsk |} depthMap).

(** Both callbacks have one shape: they differ in the field they set. *)
Definition setBid (total : number) (point : DepthPoint) : DepthPoint :=
  {| price := price point; bidLiquidity := total;
     askLiquidity := askLiquidity point |}.

Definition setAsk (total : number) (point : DepthPoint) : DepthPoint :=
  {| price := price point; bidLiquidity := bidLiquidity point;
     askLiquidity := total |}.

Definition addWith (update : number -> DepthPoint -> DepthPoint)
    (state : number * DepthMap) (level : string * string) : number * DepthMap :=
  let cumulative := (state.1 + Number level.2)%float in
  let key := Number level.1 in
  let existing := default (newPoint key) (get key state.2) in
  (cumulative, set key (update cumulative existing) state.2).

(** [buildDepthSeries] *)
Definition buildDepthSeries (depth : option Pi42DepthResponse.t)
  : list DepthPoint :=
  match depth with
  | None => []
  | Some depth =>
      let '(_, depthMap) :=
        fold_left addBid (JsArray.slice 0 20 (Pi42DepthResponse.b depth))
          (0%float, []) in
      let '(_, depthMap) :=
        fold_left addAsk (JsArray.slice 0 20 (Pi42DepthResponse.a depth))
          (0%float, depthMap) in
      JsSort.sort (fun a b => (price a - price b)%float) (values depthMap)
  end.

(** The series in words.  The levels of one side, each with the quantity
    accumulated up to it: *)
Fixpoint runningTotals (acc : number) (levels : list (string * string))
  : list (number * number) :=
  match levels with
  | [] => []
  | (price, qty) :: rest =>
      (Number price, (acc + Number qty)%float) ::
      runningTotals (acc + Number qty)%float rest
  end.

(** the total at the last level whose price is [key], and [0] when the
    side has no level at that price: *)
Definition liquidityAt (key : number) (totals : list (number * number))
  : number :=
  fold_left (fun found level => if sameValueZero level.1 key then level.2 else found)
    totals 0%float.

(** the prices of both sides, each once, in the order they first occur: *)
Definition addKey (keys : list number) (key : number) : list number :=
  if existsb (fun k => sameValueZero k key) keys then keys else keys ++ [key].

Definition distinctKeys (keys : list number) : list number :=
  fold_left addKey keys [].

(** and the point of a price. *)
Definition pointAt (bids asks : list (number * number)) (key : number)
  : DepthPoint :=
  {| price := key;
     bidLiquidity := liquidityAt key bids;
     askLiquidity := liquidityAt key asks |}.

End Build.

(** The map whose keys are [keys], in that order, each with the point
    that [point] gives for it. *)
Definition entries (point : number -> DepthPoint) (keys : list number)
  : DepthMap :=
  map (fun k => (k, point k)) keys.

(** The first twenty levels of a side. *)
Definition top20 (levels : list (string * string)) : list (string * string) :=
  take 20 levels.

(** A price as the class of numbers that are the same [Map] key: both
    zeros are one key. *)
Definition keyClass (x : number) : spec_float :=
  match Prim2SF x with
  | S754_zero _ => S754_zero false
  | other => other
  end.

(** Strictly ascending by price. *)
Definition ascending : list DepthPoint -> Prop :=
  StronglySorted (fun x y => (price x <? price y)%float = true).

(** A sample book: two bid levels at one price and one at another, one
    ask level at a price of its own. *)
Definition sampleDepth : Pi42DepthResponse.t :=
  Pi42DepthResponse.mk "depthUpdate" 0%float 0%float "BTCINR"
    0%float 0%float 0%float
    [("100", "1"); ("99.5", "2"); ("100", "4")]
    [("100.5", "3")].

End DepthSeries.


(** * Facts about the embedding *)

(** ** Arrays: [slice] and [findIndex] *)

Section ArrayFacts.
Context {A : Type}.
Implicit Types (arr : list A) (n i j : nat) (p : A -> bool).

Lemma slice_from_last_entries n arr :
  (0 < n)%nat ->
  JsArray.slice_from (- Z.of_nat n) arr = Realtime.last_entries n arr.
Proof.
  intros Hn.
  unfold JsArray.slice_from, JsArray.relative_index, Realtime.last_entries.
  destruct (Z.ltb_spec (- Z.of_nat n) 0) as [_|Hge]; [|lia].
  f_equal. lia.
Qed.

Lemma slice_0_take n arr : JsArray.slice 0 (Z.of_nat n) arr = take n arr.
Proof.
  unfold JsArray.slice, JsArray.relative_index.
  change (0 <? 0) with false. cbv iota.
  rewrite (proj2 (Z.ltb_ge (Z.of_nat n) 0)) by lia.
  replace (Z.to_nat (Z.min 0 (Z.of_nat (length arr)))) with 0%nat by lia.
  rewrite drop_0.
  destruct (Nat.le_gt_cases n (length arr)).
  - f_equal. lia.
  - rewrite !take_ge by lia. reflexivity.
Qed.

Lemma last_entries_length n arr :
  length (Realtime.last_entries n arr) = Nat.min n (length arr).
Proof. unfold Realtime.last_entries. rewrite length_drop. lia. Qed.

Lemma last_entries_app_one n arr x :
  Realtime.last_entries (S n) (arr ++ [x]) = Realtime.last_entries n arr ++ [x].
Proof.
  unfold Realtime.last_entries. rewrite length_app. simpl.
  replace (length arr + 1 - S n)%nat with (length arr - n)%nat by lia.
  rewrite drop_app_le by lia. reflexivity.
Qed.

Lemma last_entries_idem_app n arr more :
  Realtime.last_entries n (Realtime.last_entries n arr ++ more) =
  Realtime.last_entries n (arr ++ more).
Proof.
  unfold Realtime.last_entries.
  rewrite !length_app, length_drop, !drop_app, drop_drop, length_drop.
  f_equal; f_equal; lia.
Qed.

Lemma last_entries_subseteq n arr x :
  x ∈ Realtime.last_entries n arr -> x ∈ arr.
Proof. unfold Realtime.last_entries. apply subseteq_drop. Qed.

Lemma findIndex_from_first_match p arr : forall i (base : Z),
  Realtime.first_match p arr i ->
  JsArray.findIndex_from p arr base = base + Z.of_nat i.
Proof.
  induction arr as [|x arr IH]; intros i base [[y [Hy Hp]] Hbefore].
  - rewrite lookup_nil in Hy. discriminate.
  - simpl. destruct i as [|i].
    + simpl in Hy. injection Hy as ->. rewrite Hp. lia.
    + rewrite (Hbefore 0%nat x) by (simpl; (lia || reflexivity)).
      rewrite (IH i (base + 1)).
      * lia.
      * split; [exists y; split; assumption|].
        intros j z Hj Hz. apply (Hbefore (S j) z); [lia|exact Hz].
Qed.

Lemma findIndex_first_match p arr i :
  Realtime.first_match p arr i -> JsArray.findIndex p arr = Z.of_nat i.
Proof.
  intros H. unfold JsArray.findIndex.
  rewrite (findIndex_from_first_match p arr i 0 H). lia.
Qed.

Lemma findIndex_from_no_match p arr : forall (base : Z),
  (forall x, x ∈ arr -> p x = false) -> JsArray.findIndex_from p arr base = -1.
Proof.
  induction arr as [|x arr IH]; intros base Hnone; simpl; [reflexivity|].
  rewrite (Hnone x) by apply list_elem_of_here.
  apply IH. intros y Hy. apply Hnone, list_elem_of_further, Hy.
Qed.

Lemma findIndex_no_match p arr :
  (forall x, x ∈ arr -> p x = false) -> JsArray.findIndex p arr = -1.
Proof. apply findIndex_from_no_match. Qed.

Lemma filter_no_match p arr :
  (forall x, x ∈ arr -> p x = false) -> List.filter p arr = [].
Proof.
  induction arr as [|x arr IH]; intros Hnone; simpl; [reflexivity|].
  rewrite (Hnone x) by apply list_elem_of_here.
  apply IH. intros y Hy. apply Hnone, list_elem_of_further, Hy.
Qed.

Lemma first_match_end p arr x :
  (forall y, y ∈ arr -> p y = false) -> p x = true ->
  Realtime.first_match p (arr ++ [x]) (length arr).
Proof.
  intros Hnone Hx. split.
  - exists x. split; [|exact Hx]. apply list_lookup_middle. reflexivity.
  - intros j y Hj Hy. rewrite lookup_app_l in Hy by exact Hj.
    apply Hnone. eapply list_elem_of_lookup_2, Hy.
Qed.

End ArrayFacts.

(** ** The realtime handlers *)

Section RealtimeFacts.
Import Realtime.

(** A trade event keeps the last 180 earlier trades and adds the new one:
    the last 181 entries of the list with the trade appended. *)
Lemma handleTrade_last_entries payload prev :
  handleTrade payload prev = last_entries 181 (prev ++ [payload]).
Proof.
  unfold handleTrade.
  rewrite (slice_from_last_entries 180) by lia.
  symmetry. apply last_entries_app_one.
Qed.

Lemma feedTrades_last_entries events : forall prev,
  feedTrades events (last_entries 181 prev) = last_entries 181 (prev ++ events).
Proof.
  induction events as [|ev events IH]; intros prev; simpl.
  - rewrite app_nil_r. reflexivity.
  - rewrite handleTrade_last_entries, last_entries_idem_app.
    unfold feedTrades in IH. rewrite IH, <- app_assoc. reflexivity.
Qed.

(** X3: trades fed one at a time to an empty list leave its last 181. *)
Lemma feedTrades_from_empty events :
  feedTrades events [] = last_entries 181 events.
Proof. apply (feedTrades_last_entries events []). Qed.

(** C2, on the code: after 200 trade events fed one at a time to an empty
    list, the list holds 181 trades, the trades numbered 20 to 200 in
    arrival order; the cut to 180 comes before the append, not after. *)
Theorem realtime_trades_after_200_events :
  length (feedTrades (sampleTrades 200) []) = 181%nat /\
  feedTrades (sampleTrades 200) [] = map sampleTrade (seq 20 181).
Proof. split; vm_compute; reflexivity. Qed.

Lemma handleKline_replace prev pk i :
  first_match (sameStart pk) prev i ->
  handleKline {| k := Some pk |} prev = last_entries 400 (<[i := pk]> prev).
Proof.
  intros H. unfold handleKline. simpl.
  fold (sameStart pk). rewrite (findIndex_first_match _ _ _ H).
  destruct (Z.leb_spec 0 (Z.of_nat i)); [|lia].
  rewrite (slice_from_last_entries 400) by lia.
  unfold JsArray.assign. rewrite Nat2Z.id. reflexivity.
Qed.

Lemma handleKline_append prev pk :
  (forall item, item ∈ prev -> sameStart pk item = false) ->
  handleKline {| k := Some pk |} prev = last_entries 400 (prev ++ [pk]).
Proof.
  intros H. unfold handleKline. simpl.
  fold (sameStart pk). rewrite (findIndex_no_match _ _ H). simpl.
  rewrite (slice_from_last_entries 400) by lia. reflexivity.
Qed.

Lemma handleKline_bounded pk prev :
  (length (handleKline {| k := Some pk |} prev) <= 400)%nat.
Proof.
  unfold handleKline. simpl.
  rewrite (slice_from_last_entries 400) by lia.
  rewrite last_entries_length. lia.
Qed.

Lemma handleKline_twice prev k1 k2 :
  Pi42Kline.startTime k2 = Pi42Kline.startTime k1 ->
  (forall item, item ∈ prev -> sameStart k1 item = false) ->
  exists older,
    feedKlines [{| k := Some k1 |}; {| k := Some k2 |}] prev = older ++ [k2] /\
    (forall item, item ∈ older -> item ∈ prev).
Proof.
  intros Hsame Hnone. unfold feedKlines. simpl.
  rewrite (handleKline_append prev k1 Hnone).
  rewrite (last_entries_app_one 399).
  set (older := last_entries 399 prev).
  assert (Hold : forall item, item ∈ older -> sameStart k2 item = false).
  { intros item Hin. unfold sameStart. rewrite Hsame.
    apply Hnone, (last_entries_subseteq 399), Hin. }
  assert (Hk1 : sameStart k2 k1 = true).
  { unfold sameStart. rewrite Hsame. apply String.eqb_refl. }
  rewrite (handleKline_replace _ k2 (length older)
             (first_match_end (sameStart k2) older k1 Hold Hk1)).
  replace (<[length older := k2]> (older ++ [k1])) with (older ++ [k2]).
  2:{ rewrite <- (Nat.add_0_r (length older)) at 1.
      rewrite insert_app_r. reflexivity. }
  rewrite (last_entries_app_one 399).
  exists (last_entries 399 older). split; [reflexivity|].
  intros item Hin.
  apply (last_entries_subseteq 399), (last_entries_subseteq 399), Hin.
Qed.

(** C6: a kline event whose start time matches an entry replaces the first
    such entry where it stands (same length, every other position
    untouched); with no match the candle is appended at the end; either
    way the list is then cut to its last 400 entries.  Two candles with
    the same start time, fed in turn to a list that had none for it, leave
    exactly one entry for that start time, the second candle. *)
Theorem kline_upsert (prev : list Pi42Kline.t) (pk : Pi42Kline.t) :
  (forall i, first_match (sameStart pk) prev i ->
     handleKline {| k := Some pk |} prev = last_entries 400 (<[i := pk]> prev) /\
     length (<[i := pk]> prev) = length prev /\
     <[i := pk]> prev !! i = Some pk /\
     (forall j, j <> i -> <[i := pk]> prev !! j = prev !! j)) /\
  ((forall item, item ∈ prev -> sameStart pk item = false) ->
     handleKline {| k := Some pk |} prev = last_entries 400 (prev ++ [pk])) /\
  (length (handleKline {| k := Some pk |} prev) <= 400)%nat /\
  (forall latest,
     Pi42Kline.startTime latest = Pi42Kline.startTime pk ->
     (forall item, item ∈ prev -> sameStart pk item = false) ->
     List.filter (sameStart pk)
       (feedKlines [{| k := Some pk |}; {| k := Some latest |}] prev) = [latest]).
Proof.
  split; [|split; [|split]].
  - intros i Hi. split; [apply handleKline_replace, Hi|].
    split; [apply length_insert|].
    destruct Hi as [[x [Hx _]] _].
    split; [apply list_lookup_insert_eq, (lookup_lt_Some _ _ _ Hx)|].
    intros j Hj. apply list_lookup_insert_ne. congruence.
  - apply handleKline_append.
  - apply handleKline_bounded.
  - intros latest Hsame Hnone.
    destruct (handleKline_twice prev pk latest Hsame Hnone) as (older & -> & Hold).
    rewrite List.filter_app, (filter_no_match (sameStart pk) older).
    + simpl. unfold sameStart. rewrite Hsame, String.eqb_refl. reflexivity.
    + intros item Hin. apply Hnone, Hold, Hin.
Qed.

(** The upsert on a concrete list: the candle for start time 100 is
    replaced where it stands, and fed twice to the empty list it is held
    once, with the latest close. *)
Lemma kline_upsert_witness :
  first_match (sameStart (sampleKline "100" "9"))
    [sampleKline "50" "7"; sampleKline "100" "8"] 1 /\
  handleKline {| k := Some (sampleKline "100" "9") |}
    [sampleKline "50" "7"; sampleKline "100" "8"] =
  last_entries 400 [sampleKline "50" "7"; sampleKline "100" "9"] /\
  List.filter (sameStart (sampleKline "100" "8"))
    (feedKlines [{| k := Some (sampleKline "100" "8") |};
                 {| k := Some (sampleKline "100" "9") |}] []) =
  [sampleKline "100" "9"].
Proof.
  assert (H : first_match (sameStart (sampleKline "100" "9"))
                [sampleKline "50" "7"; sampleKline "100" "8"] 1).
  { split.
    - exists (sampleKline "100" "8"). split; reflexivity.
    - intros j y Hj Hy. destruct j as [|j]; [|lia].
      injection Hy as <-. reflexivity. }
  split; [exact H|]. split.
  - exact (proj1 (proj1 (kline_upsert _ _) 1%nat H)).
  - apply (proj2 (proj2 (proj2 (kline_upsert [] (sampleKline "100" "8"))))).
    + reflexivity.
    + intros item Hin. apply elem_of_nil in Hin. contradiction.
Defined.

End RealtimeFacts.

(** ** The order of finite doubles

    The comparator of the top-movers sort subtracts two magnitudes and the
    sort looks at the sign of the difference.  In binary64 the difference
    of two finite numbers is rounded, but it is zero only when they are
    equal and otherwise has the sign of the exact difference; the facts
    below derive this from the specification of the format. *)

Section FloatOrder.

#[local] Abbreviation prec := FloatOps.prec.
#[local] Abbreviation emax := FloatOps.emax.
#[local] Abbreviation emin := (SpecFloat.emin prec emax).
#[local] Abbreviation fexp := (SpecFloat.fexp prec emax).

Lemma emin_value : emin = -1074.
Proof. reflexivity. Qed.

Lemma digits2_pos_bounds m :
  2 ^ (Zpos (digits2_pos m) - 1) <= Zpos m < 2 ^ Zpos (digits2_pos m).
Proof.
  induction m as [m IH|m IH|]; cbn [digits2_pos].
  - rewrite Pos2Z.inj_succ.
    replace (Z.succ (Zpos (digits2_pos m)) - 1) with (Z.succ (Zpos (digits2_pos m) - 1)) by lia.
    rewrite !Z.pow_succ_r by lia. lia.
  - rewrite Pos2Z.inj_succ.
    replace (Z.succ (Zpos (digits2_pos m)) - 1) with (Z.succ (Zpos (digits2_pos m) - 1)) by lia.
    rewrite !Z.pow_succ_r by lia. lia.
  - simpl. lia.
Qed.

Lemma iter_xO_value m d : Zpos (Pos.iter xO m d) = Zpos m * 2 ^ Zpos d.
Proof.
  induction d as [|d IH] using Pos.peano_ind.
  - simpl. lia.
  - rewrite Pos.iter_succ, Pos2Z.inj_succ, Z.pow_succ_r by lia.
    rewrite Pos2Z.inj_xO, IH. lia.
Qed.

Lemma shr_1_mantissa mrs :
  0 <= shr_m mrs -> shr_m (shr_1 mrs) = shr_m mrs / 2.
Proof.
  destruct mrs as [m r s]. cbn [shr_m]. intros Hm.
  destruct m as [|p|p]; [reflexivity| |lia].
  destruct p as [p|p|]; cbn [shr_1 shr_m].
  - rewrite Pos2Z.inj_xI. apply Z.div_unique with (r := 1); lia.
  - rewrite Pos2Z.inj_xO. apply Z.div_unique with (r := 0); lia.
  - reflexivity.
Qed.

Lemma iter_shr_1_mantissa p : forall mrs,
  0 <= shr_m mrs ->
  shr_m (SpecFloat.iter_pos shr_1 p mrs) = shr_m mrs / 2 ^ Zpos p.
Proof.
  induction p as [p IH|p IH|]; intros mrs Hm; cbn [SpecFloat.iter_pos].
  - assert (H1 : 0 <= shr_m (shr_1 mrs)).
    { rewrite shr_1_mantissa by exact Hm. apply Z.div_pos; lia. }
    assert (H2 : 0 <= shr_m (SpecFloat.iter_pos shr_1 p (shr_1 mrs))).
    { rewrite IH by exact H1. apply Z.div_pos; [exact H1|]. apply Z.pow_pos_nonneg; lia. }
    rewrite IH by exact H2. rewrite IH by exact H1.
    rewrite shr_1_mantissa by exact Hm.
    rewrite !Z.div_div by (try apply Z.pow_pos_nonneg; lia).
    f_equal.
    replace (Zpos p~1) with (1 + Zpos p + Zpos p) by lia.
    rewrite (Z.pow_add_r 2 (1 + Zpos p) (Zpos p)) by lia.
    rewrite (Z.pow_add_r 2 1 (Zpos p)) by lia. lia.
  - assert (H2 : 0 <= shr_m (SpecFloat.iter_pos shr_1 p mrs)).
    { rewrite IH by exact Hm. apply Z.div_pos; [exact Hm|]. apply Z.pow_pos_nonneg; lia. }
    rewrite IH by exact H2. rewrite IH by exact Hm.
    rewrite !Z.div_div by (try apply Z.pow_pos_nonneg; lia).
    f_equal.
    replace (Zpos p~0) with (Zpos p + Zpos p) by lia.
    rewrite (Z.pow_add_r 2 (Zpos p) (Zpos p)) by lia. lia.
  - rewrite shr_1_mantissa by exact Hm. reflexivity.
Qed.

Lemma shr_record_of_loc_mantissa m l : shr_m (shr_record_of_loc m l) = m.
Proof. destruct l as [|[| |]]; reflexivity. Qed.

(** Shifting a positive mantissa at an exponent not below [emin] keeps
    it positive. *)
Lemma shr_fexp_positive m e l :
  0 < m -> emin <= e ->
  0 < shr_m (fst (shr_fexp prec emax m e l)) /\
  emin <= snd (shr_fexp prec emax m e l).
Proof.
  intros Hm He. unfold shr_fexp, shr.
  destruct m as [|p|p]; try lia.
  cbn [Zdigits2].
  destruct (SpecFloat.fexp prec emax (Zpos (digits2_pos p) + e) - e) as [|n|n] eqn:Hn;
    cbn [fst snd]; rewrite ?shr_record_of_loc_mantissa; try (split; lia).
  rewrite iter_shr_1_mantissa by (rewrite shr_record_of_loc_mantissa; lia).
  rewrite shr_record_of_loc_mantissa.
  assert (Hlt : Zpos n <= Zpos (digits2_pos p) - 1 /\ emin <= e + Zpos n).
  { unfold SpecFloat.fexp, SpecFloat.emin in *.
    change prec with 53 in *. change emax with 1024 in *. lia. }
  destruct Hlt as [Hlt He'].
  pose proof (digits2_pos_bounds p) as [Hlow _].
  split; [|exact He'].
  apply Z.div_str_pos. split; [apply Z.pow_pos_nonneg; lia|].
  etransitivity; [|exact Hlow]. apply Z.pow_le_mono_r; lia.
Qed.

Lemma round_nearest_even_ge m l : m <= round_nearest_even m l.
Proof.
  unfold round_nearest_even. destruct l as [|[| |]]; try lia.
  destruct (Z.even m); lia.
Qed.

Lemma binary_round_aux_positive m e l :
  0 < m -> emin <= e ->
  FloatSpec.aboveZero (binary_round_aux prec emax false m e l) = true.
Proof.
  intros Hm He. unfold binary_round_aux.
  pose proof (shr_fexp_positive m e l Hm He) as [H1 H1e].
  destruct (shr_fexp prec emax m e l) as [mrs' e']. cbn [fst snd] in H1, H1e.
  pose proof (round_nearest_even_ge (shr_m mrs') (loc_of_shr_record mrs')) as Hr.
  pose proof (shr_fexp_positive
                (round_nearest_even (shr_m mrs') (loc_of_shr_record mrs'))
                e' loc_Exact ltac:(lia) H1e) as [H2 _].
  destruct (shr_fexp prec emax _ e' loc_Exact) as [mrs'' e''].
  cbn [fst] in H2.
  destruct (shr_m mrs'') as [|p|p]; try lia.
  destruct (e'' <=? emax - prec); reflexivity.
Qed.

Lemma fexp_ge_emin k : emin <= fexp k.
Proof. unfold SpecFloat.fexp. lia. Qed.

Lemma binary_round_positive m e :
  emin <= e -> FloatSpec.aboveZero (binary_round prec emax false m e) = true.
Proof.
  intros He. unfold binary_round, shl_align.
  destruct (fexp (Zpos (digits2_pos m) + e) - e) as [|d|d] eqn:Hd;
    try (apply binary_round_aux_positive; lia).
  apply binary_round_aux_positive; [lia|apply fexp_ge_emin].
Qed.

(** Nothing that rounds with a negative sign is above zero. *)
Lemma binary_round_negative m e :
  SFltb (S754_zero false) (binary_round prec emax true m e) = false.
Proof.
  unfold binary_round, binary_round_aux.
  destruct (shl_align m e _) as [mz ez].
  destruct (shr_fexp prec emax (Zpos mz) ez loc_Exact) as [mrs' e'].
  destruct (shr_fexp prec emax _ e' loc_Exact) as [mrs'' e''].
  destruct (shr_m mrs'') as [|p|p]; try reflexivity.
  destruct (e'' <=? emax - prec); reflexivity.
Qed.

Lemma positive_above_zero x :
  FloatSpec.aboveZero x = true -> SFltb (S754_zero false) x = true.
Proof. destruct x as [s|s| |s m e]; try destruct s; try discriminate; reflexivity. Qed.

(** The aligned mantissa: [m * 2 ^ (e - ez)] for [ez <= e]. *)
Lemma shl_align_value m e ez :
  ez <= e -> Zpos (fst (shl_align m e ez)) = Zpos m * 2 ^ (e - ez).
Proof.
  intros Hle. unfold shl_align.
  destruct (ez - e) as [|d|d] eqn:Hd; cbn [fst].
  - replace (e - ez) with 0 by lia. simpl. lia.
  - lia.
  - rewrite iter_xO_value. f_equal. f_equal. lia.
Qed.

(** A canonical mantissa has at most [prec] digits, an exponent not below
    [emin], and exactly [prec] digits above [emin]. *)
Lemma canonical_facts m e :
  canonical_mantissa prec emax m e = true ->
  emin <= e /\ Zpos (digits2_pos m) <= 53 /\
  (emin < e -> Zpos (digits2_pos m) = 53).
Proof.
  unfold canonical_mantissa. intros H. apply Z.eqb_eq in H.
  unfold SpecFloat.fexp, SpecFloat.emin in *.
  change prec with 53 in *. change emax with 1024 in *. lia.
Qed.

(** With canonical mantissas, the comparison of the representations is
    the comparison of the values. *)
Lemma SFcompare_canonical mx ex my ey :
  canonical_mantissa prec emax mx ex = true ->
  canonical_mantissa prec emax my ey = true ->
  SFcompare (S754_finite false my ey) (S754_finite false mx ex) =
  Some (Z.compare
          (Zpos (fst (shl_align my ey (Z.min ex ey))))
          (Zpos (fst (shl_align mx ex (Z.min ex ey))))).
Proof.
  intros Hx Hy.
  apply canonical_facts in Hx as (Hxe & Hxd & Hxn).
  apply canonical_facts in Hy as (Hye & Hyd & Hyn).
  pose proof (digits2_pos_bounds mx) as [Hxl Hxu].
  pose proof (digits2_pos_bounds my) as [Hyl Hyu].
  rewrite !shl_align_value by lia.
  cbn [SFcompare]. f_equal.
  destruct (Z.compare_spec ey ex) as [Heq|Hlt|Hgt].
  - subst ey. rewrite Z.min_id, Z.sub_diag. simpl (2 ^ 0).
    rewrite !Z.mul_1_r. reflexivity.
  - symmetry. apply Z.compare_lt_iff.
    rewrite Z.min_r by lia. rewrite Z.sub_diag. simpl (2 ^ 0). rewrite Z.mul_1_r.
    assert (Hd : Zpos (digits2_pos mx) = 53) by (apply Hxn; lia).
    rewrite Hd in Hxl.
    assert (Hp : 2 ^ 1 <= 2 ^ (ex - ey)) by (apply Z.pow_le_mono_r; lia).
    assert (Hy53 : Zpos my < 2 ^ 53).
    { eapply Z.lt_le_trans; [exact Hyu|]. apply Z.pow_le_mono_r; lia. }
    change (2 ^ 1) with 2 in Hp. change (2 ^ (53 - 1)) with 4503599627370496 in Hxl.
    change (2 ^ 53) with 9007199254740992 in Hy53. nia.
  - symmetry. apply Z.compare_gt_iff.
    rewrite Z.min_l by lia. rewrite Z.sub_diag. simpl (2 ^ 0). rewrite Z.mul_1_r.
    assert (Hd : Zpos (digits2_pos my) = 53) by (apply Hyn; lia).
    rewrite Hd in Hyl.
    assert (Hp : 2 ^ 1 <= 2 ^ (ey - ex)) by (apply Z.pow_le_mono_r; lia).
    assert (Hx53 : Zpos mx < 2 ^ 53).
    { eapply Z.lt_le_trans; [exact Hxu|]. apply Z.pow_le_mono_r; lia. }
    change (2 ^ 1) with 2 in Hp. change (2 ^ (53 - 1)) with 4503599627370496 in Hyl.
    change (2 ^ 53) with 9007199254740992 in Hx53. nia.
Qed.

(** The sign of a difference of magnitudes is the outcome of their
    comparison. *)
Lemma SFsub_above_zero x y :
  FloatSpec.magnitude x = true -> FloatSpec.magnitude y = true ->
  SFltb (S754_zero false) (SFsub prec emax x y) = SFltb y x.
Proof.
  destruct x as [[|]| | |[|] mx ex]; try discriminate;
    destruct y as [[|]| | |[|] my ey]; try discriminate;
    intros Hx Hy; try reflexivity.
  cbn [FloatSpec.magnitude] in Hx, Hy.
  unfold SFltb at 2. rewrite (SFcompare_canonical mx ex my ey Hx Hy).
  cbn [SFsub cond_Zopp].
  set (ax := Zpos (fst (shl_align mx ex (Z.min ex ey)))).
  set (ay := Zpos (fst (shl_align my ey (Z.min ex ey)))).
  assert (Hez : emin <= Z.min ex ey).
  { apply canonical_facts in Hx as (Hxe & _). apply canonical_facts in Hy as (Hye & _). lia. }
  destruct (Z.compare_spec ay ax) as [Heq|Hlt|Hgt].
  - replace (ax - ay) with 0 by lia. reflexivity.
  - destruct (ax - ay) as [|d|d] eqn:Hd; try lia.
    cbn [binary_normalize].
    apply positive_above_zero, binary_round_positive, Hez.
  - destruct (ax - ay) as [|d|d] eqn:Hd; try lia.
    cbn [binary_normalize]. apply binary_round_negative.
Qed.


Lemma SFltb_asym x y :
  FloatSpec.magnitude x = true -> FloatSpec.magnitude y = true ->
  SFltb x y = true -> SFltb y x = false.
Proof.
  destruct x as [[|]| | |[|] mx ex]; try discriminate;
    destruct y as [[|]| | |[|] my ey]; try discriminate;
    intros _ _; try reflexivity; try discriminate.
  unfold SFltb. cbn [SFcompare].
  change (Pos.compare_cont Eq mx my) with (Pos.compare mx my).
  change (Pos.compare_cont Eq my mx) with (Pos.compare my mx).
  destruct (Z.compare_spec ex ey), (Z.compare_spec ey ex); try lia;
    try reflexivity; try discriminate.
  destruct (Pos.compare_spec mx my), (Pos.compare_spec my mx); try lia;
    try reflexivity; try discriminate.
Qed.

Lemma SFltb_negtrans x y z :
  FloatSpec.magnitude x = true -> FloatSpec.magnitude y = true -> FloatSpec.magnitude z = true ->
  SFltb x y = false -> SFltb y z = false -> SFltb x z = false.
Proof.
  destruct x as [[|]| | |[|] mx ex]; try discriminate;
    destruct y as [[|]| | |[|] my ey]; try discriminate;
    destruct z as [[|]| | |[|] mz ez]; try discriminate;
    intros _ _ _; try reflexivity; try discriminate.
  unfold SFltb. cbn [SFcompare].
  change (Pos.compare_cont Eq mx my) with (Pos.compare mx my).
  change (Pos.compare_cont Eq my mz) with (Pos.compare my mz).
  change (Pos.compare_cont Eq mx mz) with (Pos.compare mx mz).
  destruct (Z.compare_spec ex ey), (Z.compare_spec ey ez), (Z.compare_spec ex ez);
    try lia; try reflexivity; try discriminate;
    destruct (Pos.compare_spec mx my), (Pos.compare_spec my mz),
      (Pos.compare_spec mx mz);
    try lia; try reflexivity; try discriminate.
Qed.

(** The magnitude of a finite double. *)
Lemma abs_is_magnitude (a : float) :
  PrimFloat.is_finite a = true -> FloatSpec.magnitude (Prim2SF (PrimFloat.abs a)) = true.
Proof.
  intros Hfin. rewrite FloatAxioms.abs_spec.
  pose proof (Prim2SF_valid a) as Hvalid.
  unfold PrimFloat.is_finite in Hfin.
  apply negb_true_iff, orb_false_iff in Hfin as [Hnan Hinf].
  unfold Prim2SF in *. rewrite Hnan in *.
  destruct (PrimFloat.is_zero a); [reflexivity|].
  rewrite Hinf in *.
  destruct (FloatOps.Z.frexp a) as [r exp].
  destruct (shr_fexp prec emax _ _ loc_Exact) as [shr e'].
  destruct (shr_m shr) as [|p|p]; try reflexivity.
  cbn [SFabs FloatSpec.magnitude valid_binary] in *.
  unfold bounded in Hvalid. apply andb_true_iff in Hvalid as [Hc _]. exact Hc.
Qed.

(** On finite doubles, the sign of [|b| - |a|] tells whether [|a| < |b|]. *)
Lemma abs_difference_above_zero (a b : float) :
  PrimFloat.is_finite a = true -> PrimFloat.is_finite b = true ->
  (0 <? PrimFloat.abs b - PrimFloat.abs a)%float =
  (PrimFloat.abs a <? PrimFloat.abs b)%float.
Proof.
  intros Ha Hb. rewrite !FloatAxioms.ltb_spec, FloatAxioms.sub_spec.
  change (Prim2SF 0%float) with (S754_zero false).
  apply SFsub_above_zero; apply abs_is_magnitude; assumption.
Qed.


(** Two magnitudes neither of which is below the other are equal. *)
Lemma SFltb_tied x y :
  FloatSpec.magnitude x = true -> FloatSpec.magnitude y = true ->
  negb (SFltb x y) && negb (SFltb y x) = SFeqb x y.
Proof.
  destruct x as [[|]| | |[|] mx ex]; try discriminate;
    destruct y as [[|]| | |[|] my ey]; try discriminate;
    intros _ _; try reflexivity.
  unfold SFltb, SFeqb. cbn [SFcompare].
  change (Pos.compare_cont Eq mx my) with (Pos.compare mx my).
  change (Pos.compare_cont Eq my mx) with (Pos.compare my mx).
  destruct (Z.compare_spec ex ey), (Z.compare_spec ey ex); try lia;
    try reflexivity.
  destruct (Pos.compare_spec mx my), (Pos.compare_spec my mx); try lia;
    reflexivity.
Qed.

End FloatOrder.

(** ** Sorting with a consistent comparator *)

Section SortFacts.
Context {A : Type} (compareFn : A -> A -> number).
#[local] Abbreviation after := (JsSort.comes_after compareFn).
#[local] Abbreviation tied := (JsSort.tied compareFn).
#[local] Abbreviation insert := (JsSort.insert compareFn).
#[local] Abbreviation sort := (JsSort.sort compareFn).
#[local] Abbreviation consistent := (JsSort.consistent compareFn).
Implicit Types (x y z : A) (arr sorted : list A).

Lemma insert_perm x sorted : Permutation (insert x sorted) (x :: sorted).
Proof.
  induction sorted as [|y rest IH]; simpl; [reflexivity|].
  destruct (after x y).
  - rewrite IH. apply perm_swap.
  - reflexivity.
Qed.

Lemma sort_perm arr : Permutation (sort arr) arr.
Proof.
  induction arr as [|x arr IH]; simpl; [reflexivity|].
  rewrite insert_perm, IH. reflexivity.
Qed.

Lemma sort_elem_of arr x : x ∈ sort arr <-> x ∈ arr.
Proof. rewrite (sort_perm arr). reflexivity. Qed.

Lemma consistent_subset arr arr' :
  (forall x, x ∈ arr' -> x ∈ arr) -> consistent arr -> consistent arr'.
Proof.
  intros Hsub [Hasym Htrans]. split.
  - intros x y Hx Hy. apply Hasym; auto.
  - intros x y z Hx Hy Hz. apply Htrans; auto.
Qed.

Lemma insert_in_order x sorted :
  consistent (x :: sorted) ->
  JsSort.in_order compareFn sorted ->
  JsSort.in_order compareFn (insert x sorted).
Proof.
  unfold JsSort.in_order.
  induction sorted as [|y rest IH]; intros Hc Hsorted; simpl.
  - repeat constructor.
  - apply StronglySorted_inv in Hsorted as [Hrest Hy].
    rewrite Forall_forall in Hy.
    pose proof Hc as [Hasym Htrans].
    assert (Hx_in : x ∈ x :: y :: rest) by apply list_elem_of_here.
    assert (Hy_in : y ∈ x :: y :: rest)
      by apply list_elem_of_further, list_elem_of_here.
    destruct (after x y) eqn:Hxy.
    + constructor.
      * apply IH; [|exact Hrest].
        apply (consistent_subset (x :: y :: rest)); [|exact Hc].
        intros u. rewrite !elem_of_cons. tauto.
      * rewrite Forall_forall. intros z Hz.
        rewrite (insert_perm x rest) in Hz.
        apply elem_of_cons in Hz as [->|Hz].
        -- apply Hasym; assumption.
        -- apply Hy, Hz.
    + constructor; [constructor; [exact Hrest|rewrite Forall_forall; exact Hy]|].
      constructor; [exact Hxy|].
      rewrite Forall_forall. intros z Hz.
      apply (Htrans x y z); try assumption.
      * do 2 apply list_elem_of_further. exact Hz.
      * apply Hy, Hz.
Qed.

Lemma sort_in_order arr : consistent arr -> JsSort.in_order compareFn (sort arr).
Proof.
  induction arr as [|x arr IH]; intros Hc; simpl; [constructor|].
  apply insert_in_order.
  - apply (consistent_subset (x :: arr)); [|exact Hc].
    intros y. rewrite !elem_of_cons, sort_elem_of. tauto.
  - apply IH, (consistent_subset (x :: arr)); [|exact Hc].
    intros y Hy. apply list_elem_of_further, Hy.
Qed.

Lemma insert_ties x a sorted :
  consistent (x :: a :: sorted) ->
  List.filter (tied x) (insert a sorted) = List.filter (tied x) (a :: sorted).
Proof.
  induction sorted as [|y rest IH]; intros Hc; [reflexivity|].
  pose proof Hc as [Hasym Htrans].
  assert (Hx : x ∈ x :: a :: y :: rest) by apply list_elem_of_here.
  assert (Ha : a ∈ x :: a :: y :: rest)
    by apply list_elem_of_further, list_elem_of_here.
  assert (Hy : y ∈ x :: a :: y :: rest)
    by (do 2 apply list_elem_of_further; apply list_elem_of_here).
  assert (IH' : List.filter (tied x) (insert a rest) =
                List.filter (tied x) (a :: rest)).
  { apply IH, (consistent_subset (x :: a :: y :: rest)); [|exact Hc].
    intros u. rewrite !elem_of_cons. tauto. }
  cbn [JsSort.insert]. destruct (after a y) eqn:Hay; [|reflexivity].
  cbn [List.filter] in IH' |- *. rewrite IH'.
  destruct (tied x a) eqn:Hxa; destruct (tied x y) eqn:Hxy; try reflexivity.
  exfalso. unfold JsSort.tied in Hxa, Hxy.
  apply andb_true_iff in Hxa as [_ Hax]. apply andb_true_iff in Hxy as [Hxy _].
  apply negb_true_iff in Hax, Hxy.
  rewrite (Htrans a x y Ha Hx Hy Hax Hxy) in Hay. discriminate.
Qed.

Lemma sort_ties_within whole x arr :
  consistent whole -> x ∈ whole -> (forall y, y ∈ arr -> y ∈ whole) ->
  List.filter (tied x) (sort arr) = List.filter (tied x) arr.
Proof.
  intros Hc Hx. induction arr as [|a arr IH]; intros Hsub; [reflexivity|].
  cbn [JsSort.sort foldr]. fold (sort arr).
  rewrite insert_ties.
  - cbn [List.filter]. rewrite IH; [reflexivity|].
    intros y Hy. apply Hsub, list_elem_of_further, Hy.
  - apply (consistent_subset whole); [|exact Hc].
    intros y Hy. rewrite !elem_of_cons, sort_elem_of in Hy.
    destruct Hy as [->|[->|Hy]]; [exact Hx| |].
    + apply Hsub, list_elem_of_here.
    + apply Hsub, list_elem_of_further, Hy.
Qed.

Lemma sort_ties_kept arr :
  consistent arr -> JsSort.ties_kept compareFn arr (sort arr).
Proof. intros Hc x Hx. apply (sort_ties_within arr); auto. Qed.

End SortFacts.

(** ** The landing page: funding average and top movers *)

Section PageFacts.
Import Page Page.CombinedContractMetrics.

Lemma fold_left_map_add {A : Type} (f : A -> number) (arr : list A) : forall acc,
  fold_left (fun acc item => (acc + f item)%float) arr acc =
  fold_left PrimFloat.add (map f arr) acc.
Proof.
  induction arr as [|x arr IH]; intros acc; simpl; [reflexivity|apply IH].
Qed.

Lemma averageFundingRate_nonempty contracts markets :
  contracts <> [] ->
  averageFundingRate (summarise contracts markets) =
  (sumBps contracts / lengthNumber contracts)%float.
Proof.
  intros Hne. unfold summarise, sumBps. simpl.
  destruct contracts as [|c rest]; [contradiction|].
  replace (0 <? length (c :: rest))%nat with true
    by (symmetry; apply Nat.ltb_lt; simpl; lia).
  rewrite fold_left_map_add. reflexivity.
Qed.

Lemma fundingRate_present Number stats rate :
  Pi42MarketInfoEntry.upcomingFundingRate stats = Some rate ->
  fundingRate Number (Some stats) = Some (Number rate * 10000)%float.
Proof.
  intros H. unfold fundingRate, statsField. simpl. rewrite H. reflexivity.
Qed.

Lemma fundingRate_absent Number stats :
  stats ≫= Pi42MarketInfoEntry.upcomingFundingRate = None ->
  fundingRate Number stats = None.
Proof. intros H. unfold fundingRate, statsField. rewrite H. reflexivity. Qed.

(** The literals of the example read as the doubles nearest to them, and
    the second product is not 3. *)
Lemma funding_example_bps :
  map fundingRateBps
    (combinedContracts decimalLiteral fundingContracts fundingMarketInfo) =
  [Some 1%float; Some 0x1.7ffffffffffffp+1%float].
Proof. vm_compute. reflexivity. Qed.

Lemma funding_example_average :
  averageFundingRate
    (homeSummary decimalLiteral fundingContracts [] fundingMarketInfo) =
  0x1.fffffffffffffp+0%float.
Proof. vm_compute. reflexivity. Qed.

(** C4 as stated fails on its example: with funding rates 0.0001 and
    0.0003 the average the code computes is not 2. *)
Lemma funding_example_average_is_not_2 :
  averageFundingRate
    (homeSummary decimalLiteral fundingContracts [] fundingMarketInfo) <>
  2%float.
Proof.
  rewrite funding_example_average. intros H.
  assert (E : PrimFloat.eqb 0x1.fffffffffffffp+0 2 = true)
    by (rewrite H; reflexivity).
  vm_compute in E. discriminate E.
Qed.

(** C4, amended: the funding in basis points is the rate read as a number
    times 10000 when the stats entry carries a rate, and undefined
    otherwise; the average funding rate of a non-empty combined list is the
    left-to-right sum of the basis points (an absent one counting 0)
    divided by the number of contracts, and 0 for the empty list.  The
    arithmetic is double precision: the rates 0.0001 and 0.0003 give 1 and
    2.9999999999999996 basis points and the average 1.9999999999999998. *)
Theorem funding_average :
  (forall Number stats rate,
     Pi42MarketInfoEntry.upcomingFundingRate stats = Some rate ->
     fundingRate Number (Some stats) = Some (Number rate * 10000)%float) /\
  (forall Number stats,
     stats ≫= Pi42MarketInfoEntry.upcomingFundingRate = None ->
     fundingRate Number stats = None) /\
  (forall contracts markets,
     contracts <> [] ->
     averageFundingRate (summarise contracts markets) =
     (sumBps contracts / lengthNumber contracts)%float) /\
  (forall markets, averageFundingRate (summarise [] markets) = 0%float) /\
  map fundingRateBps
    (combinedContracts decimalLiteral fundingContracts fundingMarketInfo) =
  [Some 1%float; Some 0x1.7ffffffffffffp+1%float] /\
  averageFundingRate
    (homeSummary decimalLiteral fundingContracts [] fundingMarketInfo) =
  0x1.fffffffffffffp+0%float.
Proof.
  split; [exact fundingRate_present|].
  split; [exact fundingRate_absent|].
  split; [exact averageFundingRate_nonempty|].
  split; [reflexivity|].
  split; [exact funding_example_bps|exact funding_example_average].
Qed.

(** The general parts of [funding_average] at the contracts of the
    example. *)
Lemma funding_average_witness :
  (Pi42MarketInfoEntry.upcomingFundingRate (statsWithFunding (Some "0.0001")) =
     Some "0.0001" /\
   fundingRate decimalLiteral (Some (statsWithFunding (Some "0.0001"))) =
     Some (decimalLiteral "0.0001" * 10000)%float) /\
  (Some (statsWithFunding None) ≫= Pi42MarketInfoEntry.upcomingFundingRate = None /\
   fundingRate decimalLiteral (Some (statsWithFunding None)) = None) /\
  (combinedContracts decimalLiteral fundingContracts fundingMarketInfo <> [] /\
   averageFundingRate
     (summarise (combinedContracts decimalLiteral fundingContracts fundingMarketInfo) []) =
   (sumBps (combinedContracts decimalLiteral fundingContracts fundingMarketInfo) /
    lengthNumber (combinedContracts decimalLiteral fundingContracts fundingMarketInfo))%float).
Proof.
  destruct funding_average as (Hpresent & Habsent & Haverage & _).
  split; [split; [reflexivity|apply Hpresent; reflexivity]|].
  split; [split; [reflexivity|apply Habsent; reflexivity]|].
  assert (Hne : combinedContracts decimalLiteral fundingContracts fundingMarketInfo <> []).
  { vm_compute. discriminate. }
  split; [exact Hne|apply Haverage, Hne].
Defined.

Lemma topMovers_take contracts markets :
  topMovers (summarise contracts markets) =
  take 6 (JsSort.sort moversCompare (List.filter hasNumericChange contracts)).
Proof. unfold summarise. cbn [topMovers]. apply (slice_0_take 6). Qed.

Lemma orZero_finite item :
  finiteChange item = true ->
  PrimFloat.is_finite (orZero (priceChangePercent item)) = true.
Proof.
  unfold finiteChange, orZero.
  destruct (priceChangePercent item); [auto|reflexivity].
Qed.

(** On finite changes the comparator puts [x] after [y] exactly when the
    magnitude of [x] is below that of [y]. *)
Lemma movers_comes_after x y :
  finiteChange x = true -> finiteChange y = true ->
  JsSort.comes_after moversCompare x y = (magnitude x <? magnitude y)%float.
Proof.
  intros Hx Hy. unfold JsSort.comes_after, moversCompare, magnitude.
  apply abs_difference_above_zero; apply orZero_finite; assumption.
Qed.

Lemma movers_tied x y :
  finiteChange x = true -> finiteChange y = true ->
  JsSort.tied moversCompare x y = sameMagnitude x y.
Proof.
  intros Hx Hy. unfold JsSort.tied, sameMagnitude.
  rewrite (movers_comes_after x y Hx Hy), (movers_comes_after y x Hy Hx).
  rewrite !FloatAxioms.ltb_spec, FloatAxioms.eqb_spec.
  apply SFltb_tied; apply abs_is_magnitude, orZero_finite; assumption.
Qed.

Lemma movers_consistent arr :
  (forall x, x ∈ arr -> finiteChange x = true) ->
  JsSort.consistent moversCompare arr.
Proof.
  intros Hfin. split.
  - intros x y Hx Hy.
    rewrite (movers_comes_after x y), (movers_comes_after y x) by auto.
    rewrite !FloatAxioms.ltb_spec.
    apply SFltb_asym; apply abs_is_magnitude, orZero_finite; auto.
  - intros x y z Hx Hy Hz.
    rewrite (movers_comes_after x y), (movers_comes_after y z),
      (movers_comes_after x z) by auto.
    rewrite !FloatAxioms.ltb_spec.
    apply SFltb_negtrans; apply abs_is_magnitude, orZero_finite; auto.
Qed.

Lemma StronglySorted_impl_in {A : Type} (R R' : A -> A -> Prop) (arr : list A) :
  (forall x y, x ∈ arr -> y ∈ arr -> R x y -> R' x y) ->
  StronglySorted R arr -> StronglySorted R' arr.
Proof.
  induction arr as [|a arr IH]; intros Himpl Hsorted; [constructor|].
  apply StronglySorted_inv in Hsorted as [Hrest Ha]. constructor.
  - apply IH; [|exact Hrest].
    intros x y Hx Hy. apply Himpl; apply list_elem_of_further; assumption.
  - rewrite Forall_forall in Ha |- *. intros y Hy.
    apply Himpl; [apply list_elem_of_here|apply list_elem_of_further, Hy|].
    apply Ha, Hy.
Qed.

Lemma filter_ext_elem_of {A : Type} (f g : A -> bool) (arr : list A) :
  (forall x, x ∈ arr -> f x = g x) -> List.filter f arr = List.filter g arr.
Proof.
  intros H. apply List.filter_ext_in. intros x Hx.
  apply H, list_elem_of_In, Hx.
Qed.

Lemma filter_elem_of {A : Type} (f : A -> bool) (arr : list A) x :
  x ∈ List.filter f arr -> x ∈ arr.
Proof.
  rewrite !list_elem_of_In. intros H. apply List.filter_In in H. tauto.
Qed.

(** The ranking of contracts with finite changes. *)
Lemma topMovers_finite contracts markets :
  (forall c, c ∈ contracts -> finiteChange c = true) ->
  exists ranked,
    topMovers (summarise contracts markets) = take 6 ranked /\
    Permutation ranked (List.filter hasNumericChange contracts) /\
    descendingByMagnitude ranked /\
    tiesInOrder (List.filter hasNumericChange contracts) ranked.
Proof.
  intros Hfin.
  set (numeric := List.filter hasNumericChange contracts).
  assert (Hnum : forall c, c ∈ numeric -> finiteChange c = true).
  { intros c Hc. apply Hfin, (filter_elem_of hasNumericChange), Hc. }
  assert (Hsorted : forall c, c ∈ JsSort.sort moversCompare numeric ->
                              finiteChange c = true).
  { intros c Hc. apply Hnum. apply (sort_elem_of moversCompare). exact Hc. }
  pose proof (movers_consistent numeric Hnum) as Hc.
  exists (JsSort.sort moversCompare numeric).
  split; [apply topMovers_take|].
  split; [apply sort_perm|].
  split.
  - eapply StronglySorted_impl_in; [|apply sort_in_order, Hc].
    intros x y Hx Hy. cbv beta.
    rewrite movers_comes_after by auto. auto.
  - intros x Hx.
    rewrite <- (filter_ext_elem_of (JsSort.tied moversCompare x))
      by (intros y Hy; apply movers_tied; auto).
    rewrite <- (filter_ext_elem_of (JsSort.tied moversCompare x) _ numeric)
      by (intros y Hy; apply movers_tied; auto).
    apply sort_ties_kept; assumption.
Qed.

(** What [toNumber] returns for a string is finite. *)
Lemma toNumber_string_finite Number (v : option string) n :
  toNumber Number (inl <$> v) = Some n -> PrimFloat.is_finite n = true.
Proof.
  destruct v as [s|]; simpl; [|discriminate].
  destruct (PrimFloat.is_finite (Number s)) eqn:H; [|discriminate].
  intros [= <-]. exact H.
Qed.

Lemma combine_finiteChange Number marketInfo contract :
  finiteChange (combine Number marketInfo contract) = true.
Proof.
  unfold finiteChange, combine. cbn [priceChangePercent].
  destruct (toNumber Number _) as [n|] eqn:Hn; [|reflexivity].
  eapply toNumber_string_finite, Hn.
Qed.

Lemma combinedContracts_finiteChange Number contracts marketInfo c :
  c ∈ combinedContracts Number contracts marketInfo -> finiteChange c = true.
Proof.
  unfold combinedContracts, computeCombinedContracts. intros Hc.
  apply (proj1 (sort_elem_of _ _ _)), filter_elem_of in Hc.
  apply list_elem_of_fmap in Hc as (contract & -> & _).
  apply combine_finiteChange.
Qed.

(** C5 as stated fails: a contract without a numeric price change is in
    the combined list, and first in it sorted, but is no top mover. *)
Lemma top_movers_skip_missing_change :
  topMovers (summarise [metricsWithChange "A" None] []) <>
  topMoversAsStated [metricsWithChange "A" None].
Proof. vm_compute. discriminate. Qed.

(** C5, amended: the top movers are the first 6 of the contracts of the
    combined list that carry a numeric price change, sorted descending by
    the magnitude of the change, ties in the order of the list: a
    permutation of those contracts in which no contract stands before one
    of larger magnitude and contracts of equal magnitude keep their
    order.  This holds of every list whose changes are finite numbers,
    and so of the combined list the page builds, whose changes come from
    [toNumber].  The changes +1, -10, +3, -2, +0.5, +7, -0.1 give
    -10, +7, +3, -2, +1, +0.5. *)
Theorem top_movers_ranked :
  (forall contracts markets,
     (forall c, c ∈ contracts -> finiteChange c = true) ->
     exists ranked,
       topMovers (summarise contracts markets) = take 6 ranked /\
       Permutation ranked (List.filter hasNumericChange contracts) /\
       descendingByMagnitude ranked /\
       tiesInOrder (List.filter hasNumericChange contracts) ranked) /\
  (forall Number contracts markets marketInfo,
     exists ranked,
       topMovers (homeSummary Number contracts markets marketInfo) =
         take 6 ranked /\
       Permutation ranked
         (List.filter hasNumericChange
            (combinedContracts Number contracts marketInfo)) /\
       descendingByMagnitude ranked /\
       tiesInOrder
         (List.filter hasNumericChange
            (combinedContracts Number contracts marketInfo)) ranked) /\
  map priceChangePercent (topMovers (summarise moverContracts [])) =
  [Some (-10)%float; Some 7%float; Some 3%float;
   Some (-2)%float; Some 1%float; Some 0.5%float].
Proof.
  split; [exact topMovers_finite|]. split.
  - intros Number contracts markets marketInfo. unfold homeSummary.
    apply topMovers_finite. intros c.
    apply combinedContracts_finiteChange.
  - vm_compute. reflexivity.
Qed.

(** The ranking of the seven contracts of the example. *)
Lemma top_movers_ranked_witness :
  (forall c, c ∈ moverContracts -> finiteChange c = true) /\
  exists ranked,
    topMovers (summarise moverContracts []) = take 6 ranked /\
    Permutation ranked (List.filter hasNumericChange moverContracts) /\
    descendingByMagnitude ranked /\
    tiesInOrder (List.filter hasNumericChange moverContracts) ranked.
Proof.
  assert (Hfin : forall c, c ∈ moverContracts -> finiteChange c = true).
  { intros c Hc. unfold moverContracts in Hc. cbn [map] in Hc.
    repeat (apply elem_of_cons in Hc as [->|Hc]; [vm_compute; reflexivity|]).
    apply elem_of_nil in Hc. contradiction. }
  split; [exact Hfin|].
  exact (proj1 top_movers_ranked moverContracts [] Hfin).
Defined.

End PageFacts.

(** ** The request proxy *)

Section SchemaFacts.
Import Proxy.

Section RecordFacts.
Context {A : Type} (field : string) (check : Json.t -> option A)
  (kind : ZodIssue.Kind) (p : Json.t -> bool).
Hypothesis check_p : forall x, p x = true <-> is_Some (check x).

Lemma checkEntries_issues entries :
  (checkEntries field check kind entries).2 = [] <->
  forallb (fun entry => p entry.2) entries = true.
Proof.
  induction entries as [|[key v] rest IH]; simpl; [tauto|].
  destruct (checkEntries field check kind rest) as [values issues]. simpl in IH.
  pose proof (check_p v) as Hv.
  destruct (check v) as [a|]; simpl.
  - rewrite (proj2 Hv) by eauto. simpl. exact IH.
  - destruct (p v); [destruct (proj1 Hv eq_refl); discriminate|].
    simpl. split; discriminate.
Qed.

Lemma checkRecord_valid v :
  isValid (checkRecord field check kind v) <-> absentOr (allValues p) v = true.
Proof.
  unfold isValid, checkRecord, absentOr, allValues.
  destruct v as [[| | | | |entries]|]; simpl;
    try (split; [intros [? [=]]|discriminate]); [|split; eauto].
  pose proof (checkEntries_issues entries) as H.
  destruct (checkEntries field check kind entries) as [values issues]. simpl in H.
  rewrite <- H. destruct issues; split; eauto; try discriminate.
  intros [? [=]].
Qed.

End RecordFacts.

Lemma checkRecord_invalid {A : Type} field (check : Json.t -> option A) kind v issues :
  checkRecord field check kind v = Invalid issues -> issues <> [].
Proof.
  unfold checkRecord.
  destruct v as [[| | | | |entries]|]; try (intros [= <-]; discriminate).
  destruct (checkEntries field check kind entries) as [values [|i rest]];
    intros [= <-]. discriminate.
Qed.

Lemma checkMethod_invalid v issues : checkMethod v = Invalid issues -> issues <> [].
Proof.
  unfold checkMethod.
  destruct v as [[| | |s| |]|]; try (intros [= <-]; discriminate).
  destruct (HttpMethod.of_string s); intros [= <-]; discriminate.
Qed.

Lemma checkPath_invalid v issues : checkPath v = Invalid issues -> issues <> [].
Proof.
  unfold checkPath.
  destruct v as [[| | |s| |]|]; try (intros [= <-]; discriminate).
  destruct (String.prefix "/" s); intros [= <-]; discriminate.
Qed.

Lemma checkTarget_invalid v issues : checkTarget v = Invalid issues -> issues <> [].
Proof.
  unfold checkTarget.
  destruct v as [[| | |s| |]|]; try (intros [= <-]; discriminate).
  destruct (Target.of_string s); intros [= <-]; discriminate.
Qed.

Lemma checkBody_invalid v issues : checkBody v = Invalid issues -> issues <> [].
Proof.
  unfold checkBody. destruct v as [[| | | | |]|]; intros [= <-]; discriminate.
Qed.

Lemma app_not_nil_l {A : Type} (l k : list A) : l <> [] -> l ++ k <> [].
Proof. destruct l; [contradiction|discriminate]. Qed.

(** A failed parse always names an issue. *)
Lemma safeParse_invalid raw issues :
  safeParse raw = Invalid issues -> issues <> [].
Proof.
  unfold safeParse.
  destruct raw as [| | | | |fields]; try (intros [= <-]; discriminate).
  destruct (checkMethod _) as [m|im] eqn:Hm.
  2:{ intros [= <-]. apply app_not_nil_l. eapply checkMethod_invalid, Hm. }
  destruct (checkPath _) as [p|ip] eqn:Hp.
  2:{ intros [= <-]. apply app_not_nil_l. eapply checkPath_invalid, Hp. }
  destruct (checkTarget _) as [t|it] eqn:Ht.
  2:{ intros [= <-]. apply app_not_nil_l. eapply checkTarget_invalid, Ht. }
  destruct (checkQuery _) as [q|iq] eqn:Hq.
  2:{ intros [= <-]. apply app_not_nil_l. eapply checkRecord_invalid, Hq. }
  destruct (checkHeaders _) as [h|ih] eqn:Hh.
  2:{ intros [= <-]. apply app_not_nil_l. eapply checkRecord_invalid, Hh. }
  destruct (checkBody _) as [b|ib] eqn:Hb.
  2:{ intros [= <-]. eapply checkBody_invalid, Hb. }
  discriminate.
Qed.

Lemma asQueryValue_isScalar x : isScalar x = true <-> is_Some (asQueryValue x).
Proof. destruct x; simpl; split; eauto; try discriminate; intros [? [=]]. Qed.

Lemma asString_isString x : isString x = true <-> is_Some (asString x).
Proof. destruct x; simpl; split; eauto; try discriminate; intros [? [=]]. Qed.

Lemma checkMethod_valid v : isValid (checkMethod v) <-> methodOk v = true.
Proof.
  unfold isValid, checkMethod, methodOk.
  destruct v as [[| | |s| |]|]; try (split; [intros [? [=]]|discriminate]).
  rewrite bool_decide_eq_true.
  destruct (HttpMethod.of_string s); split; eauto; intros [? [=]].
Qed.

Lemma checkPath_valid v : isValid (checkPath v) <-> pathOk v = true.
Proof.
  unfold isValid, checkPath, pathOk.
  destruct v as [[| | |s| |]|]; try (split; [intros [? [=]]|discriminate]).
  destruct (String.prefix "/" s); split; eauto; try discriminate; intros [? [=]].
Qed.

Lemma checkTarget_valid v : isValid (checkTarget v) <-> targetOk v = true.
Proof.
  unfold isValid, checkTarget, targetOk, absentOr.
  destruct v as [[| | |s| |]|]; try (split; [intros [? [=]]|discriminate]);
    [|split; eauto].
  rewrite bool_decide_eq_true.
  destruct (Target.of_string s); split; eauto; intros [? [=]].
Qed.

Lemma checkQuery_valid v : isValid (checkQuery v) <-> queryOk v = true.
Proof. apply checkRecord_valid, asQueryValue_isScalar. Qed.

Lemma checkHeaders_valid v : isValid (checkHeaders v) <-> headersOk v = true.
Proof. apply checkRecord_valid, asString_isString. Qed.

Lemma checkBody_valid v : isValid (checkBody v) <-> bodyOk v = true.
Proof.
  unfold isValid, checkBody, bodyOk, absentOr.
  destruct v as [[| | | | |]|]; simpl; split; eauto; try discriminate;
    intros [? [=]].
Qed.

Lemma isValid_Valid {A : Type} (x : A) : isValid (Valid x).
Proof. exists x. reflexivity. Qed.

Lemma isValid_Invalid {A : Type} issues : ~ isValid (@Invalid A issues).
Proof. intros [? [=]]. Qed.

(** The parser accepts exactly the payloads the interface describes. *)
Lemma safeParse_conforms raw : isValid (safeParse raw) <-> conforms raw = true.
Proof.
  unfold safeParse, conforms.
  destruct raw as [| | | | |fields]; try (split; [intros [? [=]]|discriminate]).
  rewrite !andb_true_iff, <- checkMethod_valid, <- checkPath_valid,
    <- checkTarget_valid, <- checkQuery_valid, <- checkHeaders_valid,
    <- checkBody_valid.
  destruct (checkMethod _), (checkPath _), (checkTarget _), (checkQuery _),
    (checkHeaders _), (checkBody _);
    split;
    try (intros _; repeat split; apply isValid_Valid);
    try (intros H; exfalso; eapply isValid_Invalid, H);
    try (intros H; exfalso; repeat destruct H as [H ?];
         eapply isValid_Invalid; eassumption).
Qed.

Lemma conforms_needs_slash fields s :
  Json.field "path" fields = Some (Json.Str s) ->
  String.prefix "/" s = false ->
  conforms (Json.Obj fields) = false.
Proof.
  intros Hf Hp. unfold conforms, pathOk. rewrite Hf, Hp.
  rewrite andb_false_r. reflexivity.
Qed.

Lemma conforms_needs_method fields s :
  Json.field "method" fields = Some (Json.Str s) ->
  HttpMethod.of_string s = None ->
  conforms (Json.Obj fields) = false.
Proof.
  intros Hf Hm. unfold conforms, methodOk. rewrite Hf, Hm.
  rewrite bool_decide_eq_false_2 by (intros [? [=]]). reflexivity.
Qed.

End SchemaFacts.

Section HandlerFacts.
Import Proxy.
Context `{rt : Runtime}.
Variable fetch : ForwardRequest -> Result UpstreamResponse.t.

Lemma json_permitted body status :
  bodyPermitted status = true ->
  NextResponse.json body status = Ok (NextResponse.mk status body).
Proof.
  unfold bodyPermitted, NextResponse.json. rewrite !andb_true_iff, negb_true_iff.
  intros [[H1 H2] ->].
  replace (status <? 200) with false by (symmetry; apply Z.ltb_ge; lia).
  replace (599 <? status) with false by (symmetry; apply Z.ltb_ge; lia).
  reflexivity.
Qed.

Lemma json_refused body status :
  bodyPermitted status = false ->
  exists message, NextResponse.json body status = Throw message.
Proof.
  unfold bodyPermitted, NextResponse.json. intros H.
  destruct ((status <? 200) || (599 <? status)) eqn:Hrange; [eauto|].
  destruct (NextResponse.nullBodyStatus status); [eauto|].
  apply orb_false_iff in Hrange as [H1 H2].
  apply Z.ltb_ge in H1, H2.
  rewrite (proj2 (Z.leb_le _ _) H1), (proj2 (Z.leb_le _ _) H2) in H.
  discriminate.
Qed.

Lemma POST_invalid raw :
  conforms raw = false ->
  exists issues : list ZodIssue.t,
    issues <> [] /\
    POST fetch (Ok raw) =
    (Ok (NextResponse.mk 400
           (NextResponse.InvalidPayload "Invalid request payload" issues)), []).
Proof.
  intros Hbad. unfold POST, tryBlock.
  destruct (safeParse raw) as [data|issues] eqn:Hparse.
  - assert (conforms raw = true)
      by (apply safeParse_conforms; rewrite Hparse; apply isValid_Valid).
    congruence.
  - exists issues. split; [eapply safeParse_invalid, Hparse|reflexivity].
Qed.

Lemma POST_completed raw data init response text :
  safeParse raw = Valid data ->
  forwardRequest data = Ok init ->
  fetch init = Ok response ->
  UpstreamResponse.text response = Ok text ->
  POST fetch (Ok raw) =
  (match NextResponse.json
           (NextResponse.Mirrored (UpstreamResponse.status response)
              (UpstreamResponse.statusText response) (decodeBody text))
           (UpstreamResponse.status response) with
   | Ok r => Ok r
   | Throw message => NextResponse.json (NextResponse.Failure message) 500
   end, [init]).
Proof.
  intros Hparse Hfwd Hfetch Htext. unfold POST, tryBlock.
  rewrite Hparse, Hfwd, Hfetch. cbn. rewrite Htext. cbn. reflexivity.
Qed.

(** X1: for an upstream status that a response with a body may carry, the
    handler answers with that status and the object
    [{status, statusText, data}] that repeats it. *)
Lemma POST_mirrors raw data init response text :
  safeParse raw = Valid data ->
  forwardRequest data = Ok init ->
  fetch init = Ok response ->
  UpstreamResponse.text response = Ok text ->
  bodyPermitted (UpstreamResponse.status response) = true ->
  POST fetch (Ok raw) =
  (Ok (NextResponse.mk (UpstreamResponse.status response)
         (NextResponse.Mirrored (UpstreamResponse.status response)
            (UpstreamResponse.statusText response) (decodeBody text))),
   [init]).
Proof.
  intros Hparse Hfwd Hfetch Htext Hstatus.
  rewrite (POST_completed raw data init response text) by assumption.
  rewrite json_permitted by assumption. reflexivity.
Qed.

(** For any other upstream status, building the response throws, and the
    handler answers 500 with the message of that error. *)
Lemma POST_null_body_status raw data init response text :
  safeParse raw = Valid data ->
  forwardRequest data = Ok init ->
  fetch init = Ok response ->
  UpstreamResponse.text response = Ok text ->
  bodyPermitted (UpstreamResponse.status response) = false ->
  exists message,
    POST fetch (Ok raw) =
    (Ok (NextResponse.mk 500 (NextResponse.Failure message)), [init]).
Proof.
  intros Hparse Hfwd Hfetch Htext Hstatus.
  rewrite (POST_completed raw data init response text) by assumption.
  destruct (json_refused
              (NextResponse.Mirrored (UpstreamResponse.status response)
                 (UpstreamResponse.statusText response) (decodeBody text))
              _ Hstatus) as [message ->].
  exists message. reflexivity.
Qed.

End HandlerFacts.

Section ProxyClaims.
Import Proxy.

(** C3 as stated fails for a request body that is not JSON: reading it
    throws inside the [try] block, before the schema is consulted, and the
    [catch] answers 500 with the parser's message and without issues.  A
    request without a body is one. *)
Lemma proxy_answers_500_on_body_that_is_not_json :
  POST (constantUpstream okEmpty) emptyRequestBody =
  (Ok (NextResponse.mk 500
         (NextResponse.Failure "Unexpected end of JSON input")), []) /\
  ~ rejected (POST (constantUpstream okEmpty) emptyRequestBody).
Proof.
  split; [reflexivity|].
  intros (error & issues & _ & H). vm_compute in H. discriminate H.
Qed.

(** C3, amended: a request body that is JSON and whose value violates the
    schema is answered with status 400 and a body [{error, issues}] whose
    issue list is not empty, and no request goes upstream; a path that
    does not start with a slash and a method outside the five are such
    violations.  A request body that is not JSON is answered with status
    500 and a body [{error}] that carries the message of the parse error,
    and no request goes upstream either. *)
Theorem proxy_rejects_schema_violations :
  (forall (rt : Runtime) (fetch : ForwardRequest -> Result UpstreamResponse.t)
          (raw : Json.t),
     conforms raw = false ->
     exists issues : list ZodIssue.t,
       issues <> [] /\
       POST fetch (Ok raw) =
       (Ok (NextResponse.mk 400
              (NextResponse.InvalidPayload "Invalid request payload" issues)),
        [])) /\
  (forall (rt : Runtime) (fetch : ForwardRequest -> Result UpstreamResponse.t)
          (message : string),
     POST fetch (Throw message) =
     (Ok (NextResponse.mk 500 (NextResponse.Failure message)), [])) /\
  (forall fields s,
     Json.field "path" fields = Some (Json.Str s) ->
     String.prefix "/" s = false ->
     conforms (Json.Obj fields) = false) /\
  (forall fields s,
     Json.field "method" fields = Some (Json.Str s) ->
     HttpMethod.of_string s = None ->
     conforms (Json.Obj fields) = false).
Proof.
  split; [intros rt fetch raw; apply POST_invalid|].
  split; [reflexivity|].
  split; [exact conforms_needs_slash|exact conforms_needs_method].
Qed.

(** A [GET] for the path [v1/exchange], which lacks the slash. *)
Lemma proxy_rejects_schema_violations_witness :
  conforms relativePath = false /\
  exists issues : list ZodIssue.t,
    issues <> [] /\
    POST (constantUpstream okEmpty) (Ok relativePath) =
    (Ok (NextResponse.mk 400
           (NextResponse.InvalidPayload "Invalid request payload" issues)),
     []).
Proof.
  assert (H : conforms relativePath = false).
  { apply (proj1 (proj2 (proj2 proxy_rejects_schema_violations))
             _ "v1/exchange"); reflexivity. }
  split; [exact H|].
  exact (proj1 proxy_rejects_schema_violations sampleRuntime
           (constantUpstream okEmpty) relativePath H).
Defined.

(** C1, on the code: a valid [DELETE] whose upstream fetch completes with
    [204 No Content] is answered with status 500 and an error body, not
    with status 204: the JSON response cannot be built for a null body
    status, and the [catch] block takes over. *)
Theorem proxy_answers_500_on_upstream_204 :
  isValid (safeParse deleteOrder) /\
  exists init,
    POST (constantUpstream noContent) (Ok deleteOrder) =
    (Ok (NextResponse.mk 500
           (NextResponse.Failure
              "Response constructor: Invalid response status code 204")),
     [init]).
Proof.
  split.
  - eexists. vm_compute. reflexivity.
  - eexists. vm_compute. reflexivity.
Qed.

(** C10, on the code: with an empty upstream body the decoded data is
    [null], and with status 200 the handler returns it; with status 204,
    the usual status of an empty body, the body the handler returns has no
    [data] at all. *)
Theorem proxy_empty_body_data :
  @decodeBody sampleRuntime "" = Json.Null /\
  NextResponse.body <$>
    (POST (constantUpstream okEmpty) (Ok deleteOrder)).1 =
  Ok (NextResponse.Mirrored 200 "OK" Json.Null) /\
  NextResponse.body <$>
    (POST (constantUpstream noContent) (Ok deleteOrder)).1 =
  Ok (NextResponse.Failure
        "Response constructor: Invalid response status code 204").
Proof. repeat split; vm_compute; reflexivity. Qed.

End ProxyClaims.

Section ProxyExtras.
Import Proxy.

(** The request the handler forwards for the sample [DELETE]. *)
Lemma POST_mirrors_witness :
  isValid (safeParse deleteOrder) /\
  bodyPermitted (UpstreamResponse.status okEmpty) = true /\
  (POST (constantUpstream okEmpty) (Ok deleteOrder)).1 =
  Ok (NextResponse.mk 200 (NextResponse.Mirrored 200 "OK" Json.Null)).
Proof.
  split; [eexists; reflexivity|]. split; [reflexivity|].
  erewrite (POST_mirrors (constantUpstream okEmpty) deleteOrder _ _ okEmpty "");
    reflexivity.
Defined.

(** X4: the parser accepts exactly the payloads that conform to the schema of
    the interface description. *)
Lemma schema_accepts_conforming_payloads raw :
  isValid (safeParse raw) <-> conforms raw = true.
Proof. exact (safeParse_conforms raw). Qed.

End ProxyExtras.

(** ** The dashboard: bundle fetch *)

Section BundleFacts.
Import Dashboard.
Variable callApi : ProxyPayload -> Result ApiReply.
Variable String_of_json : Json.t -> string.
Variable asTicker : Json.t -> Envelope Pi42Ticker.t.
Variable asDepth : Json.t -> Envelope Pi42DepthResponse.t.
Variable asTrades : Json.t -> Envelope (list Pi42AggTrade.t).
Variable asKlines : Json.t -> list Pi42Kline.t.

#[local] Abbreviation request := (proxyRequest callApi String_of_json).
#[local] Abbreviation fetchBundle :=
  (fetchMarketBundle callApi String_of_json asTicker asDepth asTrades asKlines).
#[local] Abbreviation refresh :=
  (refreshBundle callApi String_of_json asTicker asDepth asTrades asKlines).
#[local] Abbreviation rejects :=
  (someRejects callApi String_of_json asTicker asDepth asTrades asKlines).

Lemma fetchMarketBundle_requests symbol interval :
  (fetchBundle symbol interval).2 =
  [tickerRequest symbol; depthRequest symbol; tradesRequest symbol;
   klinesRequest symbol interval].
Proof. reflexivity. Qed.

Lemma fetchMarketBundle_rejects symbol interval :
  rejects symbol interval ->
  exists m, (fetchBundle symbol interval).1 = Throw m.
Proof.
  unfold someRejects, fetchMarketBundle, Promise_all4. cbn [fst snd].
  destruct (request asTicker _).1 as [t|mt]; [|eauto].
  destruct (request asDepth _).1 as [d|md]; [|eauto].
  destruct (request asTrades _).1 as [tr|mtr]; [|eauto].
  destruct (request asKlines _).1 as [kl|mk]; [|eauto].
  intros [[m H]|[[m H]|[[m H]|[m H]]]]; discriminate H.
Qed.

Lemma fetchMarketBundle_resolves symbol interval t d tr kl :
  (request asTicker (tickerRequest symbol)).1 = Ok t ->
  (request asDepth (depthRequest symbol)).1 = Ok d ->
  (request asTrades (tradesRequest symbol)).1 = Ok tr ->
  (request asKlines (klinesRequest symbol interval)).1 = Ok kl ->
  (fetchBundle symbol interval).1 =
  Ok {| ticker := t ≫= data; depth := d ≫= data;
        trades := match tr ≫= data with
                  | Some list => Realtime.last_entries 120 list
                  | None => []
                  end;
        klines := default [] kl |}.
Proof.
  intros Ht Hd Htr Hk. unfold fetchMarketBundle, Promise_all4. cbn [fst snd].
  rewrite Ht, Hd, Htr, Hk. cbn.
  destruct (tr ≫= data) as [list|]; [|reflexivity].
  rewrite (slice_from_last_entries 120) by lia. reflexivity.
Qed.

Lemma refreshBundle_failure symbol interval cancelled st m :
  (fetchBundle symbol interval).1 = Throw m ->
  st_ticker (refresh symbol interval cancelled st).1 = st_ticker st /\
  st_depth (refresh symbol interval cancelled st).1 = st_depth st /\
  st_trades (refresh symbol interval cancelled st).1 = st_trades st /\
  st_klines (refresh symbol interval cancelled st).1 = st_klines st.
Proof.
  intros H. unfold refreshBundle.
  destruct (String.eqb symbol ""); [repeat split|].
  destruct (fetchBundle symbol interval) as [outcome issued].
  cbn [fst] in H. subst outcome.
  destruct cancelled; repeat split.
Qed.

Lemma refreshBundle_success symbol interval st bundle :
  symbol <> "" ->
  (fetchBundle symbol interval).1 = Ok bundle ->
  st_ticker (refresh symbol interval false st).1 = ticker bundle /\
  st_depth (refresh symbol interval false st).1 = depth bundle /\
  st_trades (refresh symbol interval false st).1 = trades bundle /\
  st_klines (refresh symbol interval false st).1 = klines bundle.
Proof.
  intros Hne H. unfold refreshBundle.
  destruct (String.eqb_spec symbol ""); [contradiction|].
  destruct (fetchBundle symbol interval) as [outcome issued].
  cbn [fst] in H. subst outcome.
  repeat split.
Qed.

End BundleFacts.

Section BundleClaim.
Import Dashboard.

(** C7: the bundle fetch makes the four requests (ticker, depth, trades,
    klines); when one of them rejects, the fetch rejects and the refresh
    leaves ticker, depth, trades and klines as they were; when all four
    resolve, the fetch resolves, the refresh applies the four results, and
    the trades of the bundle are the last 120 of those returned (none,
    when the answer carries no list). *)
Theorem market_bundle_all_or_nothing
    (callApi : ProxyPayload -> Result ApiReply)
    (String_of_json : Json.t -> string)
    (asTicker : Json.t -> Envelope Pi42Ticker.t)
    (asDepth : Json.t -> Envelope Pi42DepthResponse.t)
    (asTrades : Json.t -> Envelope (list Pi42AggTrade.t))
    (asKlines : Json.t -> list Pi42Kline.t)
    (symbol interval : string) :
  let request {T : Type} := @proxyRequest callApi String_of_json T in
  let fetched :=
    fetchMarketBundle callApi String_of_json asTicker asDepth asTrades asKlines
      symbol interval in
  let refreshed cancelled st :=
    (refreshBundle callApi String_of_json asTicker asDepth asTrades asKlines
       symbol interval cancelled st).1 in
  fetched.2 =
    [tickerRequest symbol; depthRequest symbol; tradesRequest symbol;
     klinesRequest symbol interval] /\
  (someRejects callApi String_of_json asTicker asDepth asTrades asKlines
     symbol interval ->
   exists m,
     fetched.1 = Throw m /\
     forall cancelled st,
       st_ticker (refreshed cancelled st) = st_ticker st /\
       st_depth (refreshed cancelled st) = st_depth st /\
       st_trades (refreshed cancelled st) = st_trades st /\
       st_klines (refreshed cancelled st) = st_klines st) /\
  (forall t d tr kl,
     (request asTicker (tickerRequest symbol)).1 = Ok t ->
     (request asDepth (depthRequest symbol)).1 = Ok d ->
     (request asTrades (tradesRequest symbol)).1 = Ok tr ->
     (request asKlines (klinesRequest symbol interval)).1 = Ok kl ->
     exists bundle,
       fetched.1 = Ok bundle /\
       trades bundle =
         match tr ≫= data with
         | Some list => Realtime.last_entries 120 list
         | None => []
         end /\
       (length (trades bundle) <= 120)%nat /\
       (symbol <> "" ->
        forall st,
          st_ticker (refreshed false st) = ticker bundle /\
          st_depth (refreshed false st) = depth bundle /\
          st_trades (refreshed false st) = trades bundle /\
          st_klines (refreshed false st) = klines bundle)).
Proof.
  cbv zeta. split; [reflexivity|]. split.
  - intros Hrej.
    destruct (fetchMarketBundle_rejects _ _ _ _ _ _ _ _ Hrej) as [m Hm].
    exists m. split; [exact Hm|].
    intros cancelled st. apply (refreshBundle_failure _ _ _ _ _ _ _ _ _ _ m Hm).
  - intros t d tr kl Ht Hd Htr Hk.
    pose proof (fetchMarketBundle_resolves callApi String_of_json asTicker
                  asDepth asTrades asKlines symbol interval t d tr kl
                  Ht Hd Htr Hk) as Hres.
    eexists. split; [exact Hres|]. split; [reflexivity|]. split.
    + cbn [trades]. destruct (tr ≫= data) as [list|]; [|simpl; lia].
      rewrite last_entries_length. lia.
    + intros Hne st. apply refreshBundle_success; assumption.
Qed.

(** A fetch for BTCINR in which the trades request is lost leaves the
    market state alone; one in which all four answers arrive, the trades
    answer with 150 trades, keeps the 120 most recent of them. *)
Lemma market_bundle_all_or_nothing_witness :
  (someRejects (sampleApi "/v1/market/aggTrade/BTCINR") sampleToString
     emptyEnvelope emptyEnvelope (tradesEnvelope 150) (fun _ => [])
     "BTCINR" "1h" /\
   st_trades
     (refreshBundle (sampleApi "/v1/market/aggTrade/BTCINR") sampleToString
        emptyEnvelope emptyEnvelope (tradesEnvelope 150) (fun _ => [])
        "BTCINR" "1h" false sampleMarket).1 =
   st_trades sampleMarket) /\
  exists bundle,
    (fetchMarketBundle (sampleApi "") sampleToString
       emptyEnvelope emptyEnvelope (tradesEnvelope 150) (fun _ => [])
       "BTCINR" "1h").1 = Ok bundle /\
    trades bundle = Realtime.last_entries 120 (Realtime.sampleTrades 150) /\
    length (trades bundle) = 120%nat.
Proof.
  split.
  - assert (Hrej : someRejects (sampleApi "/v1/market/aggTrade/BTCINR")
                     sampleToString emptyEnvelope emptyEnvelope
                     (tradesEnvelope 150) (fun _ => []) "BTCINR" "1h").
    { right. right. left. exists "Failed to fetch". reflexivity. }
    split; [exact Hrej|].
    destruct (proj1 (proj2 (market_bundle_all_or_nothing
                (sampleApi "/v1/market/aggTrade/BTCINR") sampleToString
                emptyEnvelope emptyEnvelope (tradesEnvelope 150) (fun _ => [])
                "BTCINR" "1h")) Hrej) as (m & _ & Hkept).
    exact (proj1 (proj2 (proj2 (Hkept false sampleMarket)))).
  - destruct (proj2 (proj2 (market_bundle_all_or_nothing
                (sampleApi "") sampleToString
                emptyEnvelope emptyEnvelope (tradesEnvelope 150) (fun _ => [])
                "BTCINR" "1h"))
                (Some {| data := None |}) (Some {| data := None |})
                (Some (tradesEnvelope 150 (Json.Obj [("data", Json.Null)])))
                (Some [])
                eq_refl eq_refl eq_refl eq_refl)
      as (bundle & Hb & Htr & _).
    exists bundle. split; [exact Hb|]. split; [exact Htr|].
    rewrite Htr. vm_compute. reflexivity.
Defined.

End BundleClaim.

(** ** The dashboard: API explorer *)

Section ExplorerFacts.
Import Dashboard.
Variable callApi : ProxyPayload -> Result ApiReply.
Variable String_of_json : Json.t -> string.
Variable JSON_parse : Text -> Result Json.t.
Variable JSON_stringify_pretty : Json.t -> string.

Lemma trimStart_nil text :
  trimStart text = [] <-> forallb isStrWhiteSpaceChar text = true.
Proof.
  induction text as [|c rest IH]; cbn [trimStart forallb]; [tauto|].
  destruct (isStrWhiteSpaceChar c); [exact IH|].
  split; discriminate.
Qed.

Lemma trimStart_all text :
  forallb isStrWhiteSpaceChar (trimStart text) =
  forallb isStrWhiteSpaceChar text.
Proof.
  induction text as [|c rest IH]; [reflexivity|]. cbn [trimStart].
  destruct (isStrWhiteSpaceChar c) eqn:Hc; [|reflexivity].
  cbn [forallb]. rewrite Hc. exact IH.
Qed.

Lemma forallb_rev {A : Type} (p : A -> bool) (arr : list A) :
  forallb p (List.rev arr) = forallb p arr.
Proof.
  induction arr as [|x arr IH]; [reflexivity|].
  cbn [List.rev forallb]. rewrite forallb_app, IH. cbn [forallb].
  rewrite andb_true_r. apply andb_comm.
Qed.

Lemma rev_nil {A : Type} (arr : list A) : List.rev arr = [] <-> arr = [].
Proof.
  split; [|intros ->; reflexivity].
  intros H. apply (f_equal (@List.rev A)) in H.
  rewrite List.rev_involutive in H. exact H.
Qed.

(** A text is blank exactly when it holds white space only. *)
Lemma blank_white_space text :
  blank text <-> forallb isStrWhiteSpaceChar text = true.
Proof.
  unfold blank, trim.
  etransitivity; [apply rev_nil|].
  etransitivity; [apply trimStart_nil|].
  rewrite forallb_rev, trimStart_all. reflexivity.
Qed.

Lemma isEmpty_nil text : isEmpty text = true <-> text = [].
Proof. destruct text; cbn; split; congruence. Qed.

Lemma isEmpty_not_blank text : ~ blank text -> isEmpty (trim text) = false.
Proof.
  unfold blank. intros H.
  destruct (isEmpty (trim text)) eqn:E; [|reflexivity].
  apply isEmpty_nil in E. contradiction.
Qed.

Lemma queryPayload_blank st :
  blank (ex_query st) -> queryPayload JSON_parse st = Ok (Json.Obj []).
Proof. unfold blank, queryPayload. intros ->. reflexivity. Qed.

Lemma queryPayload_parsed st :
  ~ blank (ex_query st) -> queryPayload JSON_parse st = JSON_parse (ex_query st).
Proof.
  unfold blank, queryPayload. intros H.
  rewrite (isEmpty_not_blank _ H). reflexivity.
Qed.

Lemma headersPayload_blank st :
  blank (ex_headers st) -> headersPayload JSON_parse st = Ok (Json.Obj []).
Proof. unfold blank, headersPayload. intros ->. reflexivity. Qed.

Lemma headersPayload_parsed st :
  ~ blank (ex_headers st) ->
  headersPayload JSON_parse st = JSON_parse (ex_headers st).
Proof.
  unfold blank, headersPayload. intros H.
  rewrite (isEmpty_not_blank _ H). reflexivity.
Qed.

Lemma bodyPayload_omitted st :
  blank (ex_body st) \/ ex_method st = HttpMethod.GET ->
  bodyPayload JSON_parse st = Ok None.
Proof.
  unfold blank, bodyPayload. intros [->| ->]; [reflexivity|].
  rewrite orb_true_r. reflexivity.
Qed.

Lemma bodyPayload_parsed st :
  ~ blank (ex_body st) -> ex_method st <> HttpMethod.GET ->
  bodyPayload JSON_parse st = Some <$> JSON_parse (ex_body st).
Proof.
  unfold blank, bodyPayload. intros Hb Hm.
  rewrite (isEmpty_not_blank _ Hb).
  destruct (ex_method st); try contradiction;
    simpl; destruct (JSON_parse (ex_body st)); reflexivity.
Qed.

Lemma explorerPayload_throws st message :
  parseFails JSON_parse st message ->
  explorerPayload JSON_parse st = Throw message.
Proof.
  unfold explorerPayload.
  intros [->|[(q & -> & ->)|(q & b & -> & -> & ->)]]; reflexivity.
Qed.

Lemma explorerPayload_returns st q b h :
  queryPayload JSON_parse st = Ok q ->
  bodyPayload JSON_parse st = Ok b ->
  headersPayload JSON_parse st = Ok h ->
  explorerPayload JSON_parse st =
  Ok {| method := ex_method st; path := ex_path st;
        target := Some (ex_target st);
        query := Some q; body := b; headers := Some h |}.
Proof. unfold explorerPayload. intros -> -> ->. reflexivity. Qed.

Lemma execute_local_error st message :
  explorerPayload JSON_parse st = Throw message ->
  execute callApi String_of_json JSON_parse JSON_stringify_pretty st =
  (failedWith st message, []).
Proof. unfold execute. intros ->. reflexivity. Qed.

Lemma execute_requests st payload :
  explorerPayload JSON_parse st = Ok payload ->
  (execute callApi String_of_json JSON_parse JSON_stringify_pretty st).2 =
  [payload].
Proof. unfold execute, proxyRequest. intros ->. reflexivity. Qed.

(** C8, amended: on submission the query and headers texts are parsed,
    a blank one (the empty string, or white space only, in the sense of
    [trim]: the white space and line terminator characters of the
    language, the no-break space and the other Unicode spaces among them)
    standing for [{}]; the body text is parsed only when it is not blank
    and the method is not GET, and is left out of the request otherwise;
    when a text that is parsed fails to parse, the handler ends with that
    error as the local error string and makes no proxy request; when all
    parse, it makes one request, with these payloads. *)
Theorem explorer_submission (st : Explorer) :
  (forall text, blank text <-> forallb isStrWhiteSpaceChar text = true) /\
  (blank (ex_query st) -> queryPayload JSON_parse st = Ok (Json.Obj [])) /\
  (~ blank (ex_query st) ->
   queryPayload JSON_parse st = JSON_parse (ex_query st)) /\
  (blank (ex_headers st) -> headersPayload JSON_parse st = Ok (Json.Obj [])) /\
  (~ blank (ex_headers st) ->
   headersPayload JSON_parse st = JSON_parse (ex_headers st)) /\
  (blank (ex_body st) \/ ex_method st = HttpMethod.GET ->
   bodyPayload JSON_parse st = Ok None) /\
  (~ blank (ex_body st) -> ex_method st <> HttpMethod.GET ->
   bodyPayload JSON_parse st = Some <$> JSON_parse (ex_body st)) /\
  (forall message,
     parseFails JSON_parse st message ->
     execute callApi String_of_json JSON_parse JSON_stringify_pretty st =
     (failedWith st message, [])) /\
  (forall q b h,
     queryPayload JSON_parse st = Ok q ->
     bodyPayload JSON_parse st = Ok b ->
     headersPayload JSON_parse st = Ok h ->
     (execute callApi String_of_json JSON_parse JSON_stringify_pretty st).2 =
     [{| method := ex_method st; path := ex_path st;
         target := Some (ex_target st);
         query := Some q; body := b; headers := Some h |}]).
Proof.
  split; [apply blank_white_space|].
  split; [apply queryPayload_blank|].
  split; [apply queryPayload_parsed|].
  split; [apply headersPayload_blank|].
  split; [apply headersPayload_parsed|].
  split; [apply bodyPayload_omitted|].
  split; [apply bodyPayload_parsed|].
  split.
  - intros message H. apply execute_local_error, explorerPayload_throws, H.
  - intros q b h Hq Hb Hh.
    apply execute_requests, explorerPayload_returns; assumption.
Qed.

End ExplorerFacts.

Section ExplorerClaim.
Import Dashboard.

(** C8 as stated fails for the body: an empty body text on a POST is left
    out of the request; it does not go out as [{}]. *)
Lemma explorer_empty_body_is_omitted :
  explorerPayload sampleParseText (sampleExplorer HttpMethod.POST "") <>
  payloadAsStated sampleParseText (sampleExplorer HttpMethod.POST "").
Proof. vm_compute. discriminate. Qed.

(** A POST whose body text does not parse ends with the parser's message
    and no request; a POST with an empty body text goes out without a
    body; a query text of a no-break space and a line separator is
    blank, and stands for [{}]. *)
Lemma explorer_submission_witness :
  (parseFails sampleParseText (sampleExplorer HttpMethod.POST "{oops")
     "Unexpected token" /\
   execute (sampleApi "") sampleToString sampleParseText sampleToString
     (sampleExplorer HttpMethod.POST "{oops") =
   (failedWith (sampleExplorer HttpMethod.POST "{oops") "Unexpected token",
    [])) /\
  ((blank [] \/ HttpMethod.POST = HttpMethod.GET) /\
   bodyPayload sampleParseText (sampleExplorer HttpMethod.POST "") = Ok None) /\
  (blank [0xA0; 0x2028] /\
   queryPayload sampleParseText (spacedExplorer HttpMethod.POST "") =
   Ok (Json.Obj [])).
Proof.
  split; [|split].
  - assert (H : parseFails sampleParseText
                  (sampleExplorer HttpMethod.POST "{oops") "Unexpected token").
    { right. left. exists (Json.Obj []). split; reflexivity. }
    split; [exact H|].
    exact (proj1 (proj2 (proj2 (proj2 (proj2 (proj2 (proj2 (proj2
             (explorer_submission (sampleApi "") sampleToString sampleParseText
                sampleToString (sampleExplorer HttpMethod.POST "{oops")))))))))
             "Unexpected token" H).
  - assert (H : blank [] \/ HttpMethod.POST = HttpMethod.GET)
      by (left; reflexivity).
    split; [exact H|].
    exact (proj1 (proj2 (proj2 (proj2 (proj2 (proj2
             (explorer_submission (sampleApi "") sampleToString sampleParseText
                sampleToString (sampleExplorer HttpMethod.POST "")))))))
             H).
  - assert (H : blank [0xA0; 0x2028]) by reflexivity.
    split; [exact H|].
    exact (proj1 (proj2
             (explorer_submission (sampleApi "") sampleToString sampleParseText
                sampleToString (spacedExplorer HttpMethod.POST "")))
             H).
Defined.

End ExplorerClaim.

(** ** The dashboard: topic subscriptions *)

Section SubscriptionFacts.
Import Dashboard.

Lemma activeSets_app history more :
  activeSets (history ++ more) = fold_left deliver more (activeSets history).
Proof. unfold activeSets. apply fold_left_app. Qed.

Lemma deliver_listening history : forall active,
  Forall listening history -> fold_left deliver history active = active.
Proof.
  induction history as [|call history IH]; intros active H; [reflexivity|].
  inversion H as [|? ? Hcall Hrest]; subst.
  destruct call as [message|event owner|event owner]; [destruct Hcall| |];
    apply IH, Hrest.
Qed.

Lemma listening_on owner evs :
  Forall listening (map (fun event => On event owner) evs).
Proof. apply Forall_map, Forall_forall. intros; exact I. Qed.

Lemma listening_off owner evs :
  Forall listening (map (fun event => Off event owner) evs).
Proof. apply Forall_map, Forall_forall. intros; exact I. Qed.

Lemma sameTopics_refl params : sameTopics params params = true.
Proof. unfold sameTopics. apply bool_decide_eq_true_2. reflexivity. Qed.

Lemma closed_snoc past deps run :
  closed (past ++ [(deps, run)]) =
  closed past ++ subscribing deps run ++ unsubscribing deps run.
Proof.
  unfold closed. rewrite flat_map_app. simpl. rewrite ?app_nil_r. reflexivity.
Qed.

Lemma sameDeps_true x y : sameDeps x y = true -> x = y.
Proof.
  destruct x, y. unfold sameDeps. simpl.
  rewrite !andb_true_iff, !String.eqb_eq. intros [[-> ->] ->]. reflexivity.
Qed.

Lemma sameListener_refl x : sameListener x x = true.
Proof.
  unfold sameListener. rewrite String.eqb_refl.
  destruct x.2; simpl; [reflexivity|apply Nat.eqb_refl].
Qed.

Lemma on_events owner evs : forall log lis,
  fold_left (fun s event => on event owner s) evs
    {| calls := log; listeners := lis |} =
  {| calls := log ++ map (fun event => On event owner) evs;
     listeners := lis ++ map (fun event => (event, owner)) evs |}.
Proof.
  induction evs as [|ev evs IH]; intros log lis; simpl.
  - rewrite !app_nil_r. reflexivity.
  - unfold on at 2. simpl. rewrite IH, <- !app_assoc. reflexivity.
Qed.

(** The listeners of the socket effect are not those of a run. *)
Lemma removeFirst_connection event run rest :
  removeFirst sameListener (event, Run run) (connectionListeners ++ rest) =
  connectionListeners ++ removeFirst sameListener (event, Run run) rest.
Proof.
  unfold connectionListeners, connectionEvents, sameListener. simpl.
  rewrite !andb_false_r. reflexivity.
Qed.

Lemma off_events run evs : forall log rest,
  fold_left (fun s event => off event (Run run) s) evs
    {| calls := log;
       listeners :=
         connectionListeners ++ map (fun event => (event, Run run)) evs ++ rest |} =
  {| calls := log ++ map (fun event => Off event (Run run)) evs;
     listeners := connectionListeners ++ rest |}.
Proof.
  induction evs as [|ev evs IH]; intros log rest; cbn [fold_left map app].
  - rewrite app_nil_r. reflexivity.
  - unfold off at 2. cbn [calls listeners].
    rewrite removeFirst_connection. cbn [removeFirst].
    rewrite sameListener_refl, IH, <- app_assoc. reflexivity.
Qed.

Lemma socketEffect_calls :
  socketEffect = {| calls := connecting; listeners := connectionListeners |}.
Proof. reflexivity. Qed.

Lemma effect_with_symbol run deps log :
  hasSymbol deps = true ->
  subscriptionEffect run deps
    (Some {| calls := log; listeners := connectionListeners |}) =
  (Some {| calls := log ++ subscribing deps run;
           listeners := connectionListeners ++ handlers deps run |},
   Some {| cl_topics := topics deps; cl_run := run |}).
Proof.
  intros H. unfold subscriptionEffect, handlers, subscribing. rewrite H.
  unfold hasSymbol in H. apply negb_true_iff in H. rewrite H.
  unfold emit. cbn [calls listeners]. rewrite on_events, <- app_assoc.
  reflexivity.
Qed.

Lemma effect_without_symbol run deps socket :
  hasSymbol deps = false ->
  subscriptionEffect run deps (Some socket) = (Some socket, None).
Proof.
  intros H. unfold subscriptionEffect.
  unfold hasSymbol in H. apply negb_false_iff in H. rewrite H. reflexivity.
Qed.

Lemma cleanup_handlers run deps log :
  hasSymbol deps = true ->
  runCleanup {| cl_topics := topics deps; cl_run := run |}
    {| calls := log; listeners := connectionListeners ++ handlers deps run |} =
  {| calls := log ++ unsubscribing deps run;
     listeners := connectionListeners |}.
Proof.
  intros H. unfold runCleanup, handlers, emit, unsubscribing. rewrite H.
  cbn [calls listeners cl_topics cl_run].
  rewrite <- (app_nil_r (map (fun event => (event, Run run)) events)).
  rewrite off_events, app_nil_r, <- app_assoc. reflexivity.
Qed.

Lemma settled_intro deps st log past run :
  socketRef st =
    Some {| calls := log;
            listeners := connectionListeners ++ handlers deps run |} ->
  lastDeps st = Some deps ->
  log = connecting ++ closed past ++ opened deps run ->
  cleanup st =
    (if hasSymbol deps
     then Some {| cl_topics := topics deps; cl_run := run |}
     else None) ->
  settled deps st.
Proof. intros Hs Hd Hl Hc. eexists _, past, run. rewrite Hs. auto. Qed.

(** Closes the side conditions of [settled_intro] once the cases on
    [hasSymbol] are in the context. *)
Ltac standing :=
  unfold opened, handlers;
  repeat match goal with H : hasSymbol _ = _ |- _ => rewrite H end;
  rewrite ?closed_snoc; cbn [closed flat_map];
  rewrite ?app_nil_r, <- ?app_assoc; reflexivity.

(** A commit moves the subscriber from one selection to the next: the
    cleanup of the old run comes first, the new run second. *)
Lemma commit_settled deps' deps st :
  settled deps st -> settled deps' (commit deps' st).
Proof.
  intros (socket & past & run & Hsock & Hdeps & Hlog & Hlis & Hclean).
  unfold commit. rewrite Hdeps.
  destruct (sameDeps deps deps') eqn:Hsame; cbn [negb].
  - apply sameDeps_true in Hsame. subst deps'.
    exists socket, past, run. auto.
  - rewrite Hsock, Hclean. destruct socket as [log lis].
    cbn [calls listeners] in Hlog, Hlis. subst log lis.
    destruct (hasSymbol deps) eqn:Hd.
    + rewrite (cleanup_handlers run deps _ Hd).
      destruct (hasSymbol deps') eqn:Hd'.
      * rewrite (effect_with_symbol _ _ _ Hd').
        eapply (settled_intro _ _ _ (past ++ [(deps, run)]) (runs st));
          cbn [socketRef lastDeps cleanup]; standing.
      * rewrite (effect_without_symbol _ _ _ Hd').
        eapply (settled_intro _ _ _ (past ++ [(deps, run)]) 0%nat);
          cbn [socketRef lastDeps cleanup]; standing.
    + replace (handlers deps run) with (@nil (string * Owner))
        by (unfold handlers; rewrite Hd; reflexivity).
      rewrite app_nil_r.
      destruct (hasSymbol deps') eqn:Hd'.
      * rewrite (effect_with_symbol _ _ _ Hd').
        eapply (settled_intro _ _ _ past (runs st));
          cbn [socketRef lastDeps cleanup]; standing.
      * rewrite (effect_without_symbol _ _ _ Hd').
        eapply (settled_intro _ _ _ past 0%nat);
          cbn [socketRef lastDeps cleanup]; standing.
Qed.

Lemma mount_settled deps : settled deps (mount deps).
Proof.
  unfold mount, commit. rewrite socketEffect_calls.
  cbn [lastDeps cleanup socketRef runs].
  destruct (hasSymbol deps) eqn:Hd.
  - rewrite (effect_with_symbol _ _ _ Hd).
    eapply (settled_intro _ _ _ [] 0%nat);
      cbn [socketRef lastDeps cleanup]; standing.
  - rewrite (effect_without_symbol _ _ _ Hd).
    eapply (settled_intro _ _ _ [] 0%nat);
      cbn [socketRef lastDeps cleanup]; standing.
Qed.

Lemma last_cons_default (changes : list Deps) : forall next deps,
  List.last (next :: changes) deps = List.last changes next.
Proof.
  induction changes as [|c changes IH]; intros next deps; [reflexivity|].
  change (List.last (next :: c :: changes) deps)
    with (List.last (c :: changes) deps).
  rewrite (IH c deps), (IH c next). reflexivity.
Qed.

Lemma select_settled changes : forall deps st,
  settled deps st -> settled (List.last changes deps) (select changes st).
Proof.
  induction changes as [|next changes IH]; intros deps st Hst; [exact Hst|].
  unfold select. cbn [fold_left]. fold (select changes (commit next st)).
  rewrite last_cons_default.
  apply IH, (commit_settled next deps), Hst.
Qed.

(** On the feed, a run of the effect leaves its topic set, and its cleanup
    takes that set away again. *)
Lemma activeSets_subscribing deps run :
  activeSets (subscribing deps run) = [topics deps].
Proof.
  unfold subscribing, activeSets. cbn [fold_left deliver app].
  apply deliver_listening, listening_on.
Qed.

Lemma deliver_unsubscribing deps run :
  fold_left deliver (unsubscribing deps run) [topics deps] = [].
Proof.
  unfold unsubscribing. cbn [fold_left deliver removeFirst].
  rewrite sameTopics_refl. apply deliver_listening, listening_off.
Qed.

Lemma activeSets_session selection : activeSets (session selection) = [].
Proof.
  unfold session. rewrite activeSets_app, activeSets_subscribing.
  apply deliver_unsubscribing.
Qed.

Lemma activeSets_connecting : activeSets connecting = [].
Proof. reflexivity. Qed.

Lemma activeSets_closed past : forall tail,
  activeSets (closed past ++ tail) = activeSets tail.
Proof.
  induction past as [|selection past IH]; intros tail; [reflexivity|].
  unfold closed. cbn [flat_map]. fold (closed past).
  rewrite <- app_assoc, activeSets_app, activeSets_session.
  apply IH.
Qed.

Lemma activeSets_opened past deps run :
  activeSets (connecting ++ closed past ++ opened deps run) =
  if hasSymbol deps then [topics deps] else [].
Proof.
  rewrite activeSets_app, activeSets_connecting.
  change (fold_left deliver ?l []) with (activeSets l).
  rewrite activeSets_closed. unfold opened.
  destruct (hasSymbol deps); [apply activeSets_subscribing|reflexivity].
Qed.

(** At every point of a run, and of a run followed by its cleanup, at most
    one set is active. *)
Lemma subscribing_prefix deps run n :
  (length (activeSets (take n (subscribing deps run))) <= 1)%nat.
Proof.
  unfold subscribing. destruct n as [|n]; [simpl; lia|].
  cbn [take]. unfold activeSets. cbn [fold_left deliver app].
  rewrite deliver_listening; [simpl; lia|].
  apply Forall_take, listening_on.
Qed.

Lemma unsubscribing_prefix deps run n :
  (length (fold_left deliver (take n (unsubscribing deps run)) [topics deps])
   <= 1)%nat.
Proof.
  unfold unsubscribing. destruct n as [|n]; [simpl; lia|].
  cbn [take fold_left deliver removeFirst]. rewrite sameTopics_refl.
  rewrite deliver_listening; [simpl; lia|].
  apply Forall_take, listening_off.
Qed.

Lemma session_prefix selection n :
  (length (activeSets (take n (session selection))) <= 1)%nat.
Proof.
  unfold session. rewrite take_app, activeSets_app.
  destruct (decide (n < length (subscribing selection.1 selection.2))%nat)
    as [Hlt|Hge].
  - replace (n - length (subscribing selection.1 selection.2))%nat
      with 0%nat by lia.
    rewrite take_0. apply subscribing_prefix.
  - rewrite (take_ge (subscribing _ _)) by lia.
    rewrite activeSets_subscribing.
    apply unsubscribing_prefix.
Qed.

Lemma closed_prefix past deps run : forall n,
  (length (activeSets (take n (closed past ++ opened deps run))) <= 1)%nat.
Proof.
  induction past as [|selection past IH]; intros n.
  - simpl. unfold opened. destruct (hasSymbol deps).
    + apply subscribing_prefix.
    + rewrite take_nil. simpl. lia.
  - unfold closed. cbn [flat_map]. fold (closed past).
    rewrite <- app_assoc, take_app, activeSets_app.
    destruct (decide (n < length (session selection))%nat) as [Hlt|Hge].
    + replace (n - length (session selection))%nat with 0%nat by lia.
      rewrite take_0. apply session_prefix.
    + rewrite (take_ge (session _)) by lia.
      rewrite activeSets_session. apply IH.
Qed.

Lemma history_prefix past deps run n :
  (length (activeSets (take n (connecting ++ closed past ++ opened deps run)))
   <= 1)%nat.
Proof.
  rewrite take_app, activeSets_app.
  replace (activeSets (take n connecting)) with (@nil (list string)).
  - apply closed_prefix.
  - symmetry. apply deliver_listening, Forall_take, listening_on.
Qed.

Lemma string_app_inv_head (s a b : string) : s +:+ a = s +:+ b -> a = b.
Proof.
  induction s as [|c s IH]; simpl; [auto|].
  intros [= H]. apply IH, H.
Qed.

(** The four topics of a selection are distinct. *)
Lemma topics_NoDup deps : NoDup (topics deps).
Proof.
  unfold topics. repeat constructor;
    rewrite ?elem_of_cons, ?elem_of_nil;
    intros H; repeat destruct H as [H|H]; try contradiction;
    apply string_app_inv_head in H; discriminate H.
Qed.

(** C9: after the first commit and any sequence of selection changes, the
    calls made on the socket are, after those of the socket effect and in
    this order: for each selection that came and went, its subscribe and
    the attaching of its four handlers, then its unsubscribe and the
    detaching of those handlers; and last the subscribe and the handlers
    of the current selection.  So at every point of that sequence at most
    one topic set is active, in the end exactly the set of the current
    selection (none when it has no symbol), and beside the connection
    listeners the socket holds only the four handlers of the current run.
    After A, B, A the one active set is that of A, its four topics
    distinct. *)
Theorem one_subscription_set_per_selection :
  (forall first changes,
     exists socket past run,
       socketRef (select changes (mount first)) = Some socket /\
       calls socket =
         connecting ++ closed past ++ opened (List.last changes first) run /\
       (forall n, (length (activeSets (take n (calls socket))) <= 1)%nat) /\
       activeSets (calls socket) =
         (if hasSymbol (List.last changes first)
          then [topics (List.last changes first)] else []) /\
       listeners socket =
         connectionListeners ++ handlers (List.last changes first) run) /\
  (forall a b,
     exists socket,
       socketRef (select [b; a] (mount a)) = Some socket /\
       activeSets (calls socket) = (if hasSymbol a then [topics a] else []) /\
       NoDup (topics a)).
Proof.
  assert (Hgen : forall first changes,
     exists socket past run,
       socketRef (select changes (mount first)) = Some socket /\
       calls socket =
         connecting ++ closed past ++ opened (List.last changes first) run /\
       (forall n, (length (activeSets (take n (calls socket))) <= 1)%nat) /\
       activeSets (calls socket) =
         (if hasSymbol (List.last changes first)
          then [topics (List.last changes first)] else []) /\
       listeners socket =
         connectionListeners ++ handlers (List.last changes first) run).
  { intros first changes.
    destruct (select_settled changes first (mount first) (mount_settled first))
      as (socket & past & run & Hsock & _ & Hlog & Hlis & _).
    exists socket, past, run. split; [exact Hsock|]. split; [exact Hlog|].
    rewrite Hlog. split; [intros n; apply history_prefix|].
    split; [apply activeSets_opened|exact Hlis]. }
  split; [exact Hgen|].
  intros a b.
  destruct (Hgen a [b; a]) as (socket & past & run & Hsock & _ & _ & Hact & _).
  exists socket. split; [exact Hsock|]. split; [exact Hact|apply topics_NoDup].
Qed.

End SubscriptionFacts.

(** ** The realtime buffers over any sequence of events *)

Section BufferFacts.
Import Realtime.

Lemma first_match_or_none {A : Type} (p : A -> bool) (arr : list A) :
  (exists i, first_match p arr i) \/ (forall x, x ∈ arr -> p x = false).
Proof.
  induction arr as [|a arr IH].
  - right. intros x Hx. apply elem_of_nil in Hx. contradiction.
  - destruct (p a) eqn:Ha.
    + left. exists 0%nat. split; [exists a; split; [reflexivity|exact Ha]|].
      intros j y Hj. lia.
    + destruct IH as [[i [[x [Hx Hp]] Hbefore]]|Hnone].
      * left. exists (S i). split; [exists x; split; assumption|].
        intros [|j] y Hj Hy; [injection Hy as <-; exact Ha|].
        apply (Hbefore j y); [lia|exact Hy].
      * right. intros x Hx. apply elem_of_cons in Hx as [->|Hx]; auto.
Qed.

Lemma last_entries_drop {A : Type} n (arr : list A) :
  exists skipped, last_entries n arr = drop skipped arr.
Proof. eexists. reflexivity. Qed.

Lemma NoDup_drop {A : Type} n (arr : list A) : NoDup arr -> NoDup (drop n arr).
Proof.
  intros H. rewrite <- (take_drop n arr) in H.
  apply NoDup_app in H as (_ & _ & H). exact H.
Qed.

(** Replacing a candle by one with the same start time leaves the start
    times of the list as they were. *)
Lemma startTimes_replace prev pk i :
  first_match (sameStart pk) prev i ->
  map Pi42Kline.startTime (<[i := pk]> prev) = map Pi42Kline.startTime prev.
Proof.
  intros [[x [Hx Hp]] _]. unfold sameStart in Hp. apply String.eqb_eq in Hp.
  change (map Pi42Kline.startTime (<[i := pk]> prev))
    with (Pi42Kline.startTime <$> <[i := pk]> prev).
  rewrite list_fmap_insert. rewrite <- Hp.
  apply list_insert_id. rewrite list_lookup_fmap, Hx. reflexivity.
Qed.

Lemma handleKline_startTimes payload prev :
  NoDup (map Pi42Kline.startTime prev) ->
  NoDup (map Pi42Kline.startTime (handleKline payload prev)).
Proof.
  intros Hprev. destruct payload as [[pk|]]; [|exact Hprev].
  destruct (first_match_or_none (sameStart pk) prev) as [[i Hi]|Hnone].
  - rewrite (handleKline_replace prev pk i Hi). unfold last_entries.
    change (map Pi42Kline.startTime (drop ?n ?l))
      with (Pi42Kline.startTime <$> drop n l).
    rewrite fmap_drop. apply NoDup_drop.
    change (NoDup (map Pi42Kline.startTime (<[i := pk]> prev))).
    rewrite (startTimes_replace prev pk i Hi). exact Hprev.
  - rewrite (handleKline_append prev pk Hnone). unfold last_entries.
    change (map Pi42Kline.startTime (drop ?n ?l))
      with (Pi42Kline.startTime <$> drop n l).
    rewrite fmap_drop. apply NoDup_drop.
    rewrite fmap_app. apply NoDup_app. split; [exact Hprev|].
    split; [|apply NoDup_singleton].
    intros t Ht Hpk. apply list_elem_of_singleton in Hpk. subst t.
    apply list_elem_of_fmap in Ht as (item & Heq & Hitem).
    specialize (Hnone item Hitem). unfold sameStart in Hnone.
    apply String.eqb_neq in Hnone. congruence.
Qed.

Lemma handleKline_length payload prev :
  (length prev <= 400)%nat -> (length (handleKline payload prev) <= 400)%nat.
Proof.
  intros Hprev. destruct payload as [[pk|]]; [|exact Hprev].
  apply handleKline_bounded.
Qed.

(** X5: whatever kline events arrive, in whatever order, and with or without
    a candle in them: a list of candles with pairwise distinct start times
    keeps that property, and a list of at most 400 candles stays within
    400. *)
Theorem klines_keep_one_candle_per_start_time
    (events : list KlinePayload) (prev : list Pi42Kline.t) :
  NoDup (map Pi42Kline.startTime prev) ->
  (length prev <= 400)%nat ->
  NoDup (map Pi42Kline.startTime (feedKlines events prev)) /\
  (length (feedKlines events prev) <= 400)%nat.
Proof.
  revert prev. induction events as [|ev events IH]; intros prev Hd Hl.
  - split; assumption.
  - unfold feedKlines. cbn [fold_left]. fold (feedKlines events (handleKline ev prev)).
    apply IH; [apply handleKline_startTimes, Hd|apply handleKline_length, Hl].
Qed.

(** Three events on two candles: an update of the candle for 100, a new
    candle for 150, and a payload without a candle. *)
Lemma klines_keep_one_candle_per_start_time_witness :
  NoDup (map Pi42Kline.startTime (feedKlines
           [{| k := Some (sampleKline "100" "9") |};
            {| k := Some (sampleKline "150" "3") |};
            {| k := None |}]
           [sampleKline "50" "7"; sampleKline "100" "8"])) /\
  (length (feedKlines
           [{| k := Some (sampleKline "100" "9") |};
            {| k := Some (sampleKline "150" "3") |};
            {| k := None |}]
           [sampleKline "50" "7"; sampleKline "100" "8"]) <= 400)%nat.
Proof.
  apply klines_keep_one_candle_per_start_time.
  - simpl. repeat constructor; rewrite ?elem_of_cons, ?elem_of_nil;
      intros H; repeat destruct H as [H|H]; try discriminate H; contradiction.
  - simpl. lia.
Defined.

Lemma last_last_entries {A : Type} n (arr : list A) :
  (0 < n)%nat -> last (last_entries n arr) = last arr.
Proof.
  intros Hn. unfold last_entries.
  destruct (decide (length arr = 0)%nat) as [Hz|Hz].
  - apply length_zero_iff_nil in Hz. subst arr. reflexivity.
  - rewrite !last_lookup, lookup_drop, length_drop. f_equal. lia.
Qed.

(** X6: after at least one trade event, whatever the list held before (the
    120 trades of a bundle, the snapshot of the page), it holds the last
    181 entries of the old list followed by the events: never more than
    181 trades, in arrival order, the newest one last. *)
Theorem trades_buffer_after_events
    (events : list Pi42AggTrade.t) (prev : list Pi42AggTrade.t) :
  events <> [] ->
  feedTrades events prev = last_entries 181 (prev ++ events) /\
  (length (feedTrades events prev) <= 181)%nat /\
  last (feedTrades events prev) = last events.
Proof.
  intros Hne.
  assert (Heq : feedTrades events prev = last_entries 181 (prev ++ events)).
  { destruct events as [|ev events]; [contradiction|].
    unfold feedTrades. cbn [fold_left].
    rewrite handleTrade_last_entries.
    fold (feedTrades events (last_entries 181 (prev ++ [ev]))).
    rewrite feedTrades_last_entries, <- app_assoc. reflexivity. }
  split; [exact Heq|]. rewrite Heq. split.
  - rewrite last_entries_length. lia.
  - rewrite last_last_entries by lia.
    destruct events as [|ev events] using rev_ind; [contradiction|].
    rewrite app_assoc, !last_snoc. reflexivity.
Qed.

(** Five trades arriving on a list of 180. *)
Lemma trades_buffer_after_events_witness :
  length (feedTrades (map sampleTrade (seq 181 5)) (sampleTrades 180)) = 181%nat /\
  last (feedTrades (map sampleTrade (seq 181 5)) (sampleTrades 180)) =
  Some (sampleTrade 185).
Proof.
  destruct (trades_buffer_after_events
              (map sampleTrade (seq 181 5)) (sampleTrades 180))
    as (Heq & _ & Hlast); [discriminate|].
  split; [rewrite Heq; vm_compute; reflexivity|].
  rewrite Hlast. reflexivity.
Defined.

End BufferFacts.

(** ** The order of finite doubles of either sign

    The comparators of [computeCombinedContracts] and of the depth series
    subtract two numbers of either sign.  The facts of [FloatOrder] extend
    to them: the comparison of two finite doubles is the comparison of
    their integer multiples of [2 ^ emin], and the rounded difference has
    the sign of the exact one. *)

Section SignedOrder.

#[local] Abbreviation prec := FloatOps.prec.
#[local] Abbreviation emax := FloatOps.emax.
#[local] Abbreviation emin := (SpecFloat.emin prec emax).

Lemma finite_is_canonical (a : float) :
  PrimFloat.is_finite a = true -> Binary64.finite (Prim2SF a) = true.
Proof.
  intros Hfin. pose proof (Prim2SF_valid a) as Hvalid.
  unfold PrimFloat.is_finite in Hfin.
  apply negb_true_iff, orb_false_iff in Hfin as [Hnan Hinf].
  unfold Prim2SF in *. rewrite Hnan in *.
  destruct (PrimFloat.is_zero a); [reflexivity|].
  rewrite Hinf in *.
  destruct (FloatOps.Z.frexp a) as [r exp].
  destruct (shr_fexp prec emax _ _ loc_Exact) as [shr e'].
  destruct (shr_m shr) as [|p|p]; try reflexivity.
  cbn [Binary64.finite valid_binary] in *.
  unfold bounded in Hvalid. apply andb_true_iff in Hvalid as [Hc _]. exact Hc.
Qed.

Lemma pow2_split e ez : emin <= ez -> ez <= e ->
  2 ^ (e - emin) = 2 ^ (e - ez) * 2 ^ (ez - emin).
Proof.
  intros H1 H2. rewrite <- Z.pow_add_r by lia. f_equal. lia.
Qed.

Lemma compare_scale a b c : 0 < c -> (a * c ?= b * c) = (a ?= b).
Proof.
  intros Hc. destruct (Z.compare_spec a b) as [->|Hlt|Hgt].
  - apply Z.compare_refl.
  - apply Z.compare_lt_iff. nia.
  - apply Z.compare_gt_iff. nia.
Qed.

(** Comparing aligned mantissas is comparing the multiples. *)
Lemma compare_aligned mx ex my ey :
  emin <= ex -> emin <= ey ->
  Z.compare (Zpos (fst (shl_align my ey (Z.min ex ey))))
            (Zpos (fst (shl_align mx ex (Z.min ex ey)))) =
  Z.compare (Zpos my * 2 ^ (ey - emin)) (Zpos mx * 2 ^ (ex - emin)).
Proof.
  intros Hx Hy. rewrite !shl_align_value by lia.
  rewrite (pow2_split ex (Z.min ex ey)), (pow2_split ey (Z.min ex ey)) by lia.
  rewrite !Z.mul_assoc. symmetry. apply compare_scale.
  apply Z.pow_pos_nonneg; lia.
Qed.

Lemma scaled_positive m e : emin <= e -> 0 < Zpos m * 2 ^ (e - emin).
Proof.
  intros He. apply Z.mul_pos_pos; [lia|]. apply Z.pow_pos_nonneg; lia.
Qed.

(** The comparison of two finite doubles is that of their multiples. *)
Lemma SFcompare_scaled x y :
  Binary64.finite x = true -> Binary64.finite y = true ->
  SFcompare y x = Some (Z.compare (Binary64.scaled y) (Binary64.scaled x)).
Proof.
  destruct x as [sx|sx| |sx mx ex]; try discriminate;
    destruct y as [sy|sy| |sy my ey]; try discriminate;
    cbn [Binary64.finite Binary64.scaled]; intros Hx Hy.
  - reflexivity.
  - pose proof (scaled_positive my ey (proj1 (canonical_facts _ _ Hy))).
    destruct sy; cbn [SFcompare cond_Zopp]; f_equal; symmetry;
      [apply Z.compare_lt_iff|apply Z.compare_gt_iff]; lia.
  - pose proof (scaled_positive mx ex (proj1 (canonical_facts _ _ Hx))).
    destruct sx; cbn [SFcompare cond_Zopp]; f_equal; symmetry;
      [apply Z.compare_gt_iff|apply Z.compare_lt_iff]; lia.
  - pose proof (scaled_positive mx ex (proj1 (canonical_facts _ _ Hx))) as Px.
    pose proof (scaled_positive my ey (proj1 (canonical_facts _ _ Hy))) as Py.
    pose proof (SFcompare_canonical mx ex my ey Hx Hy) as Hc.
    rewrite compare_aligned in Hc
      by (eapply proj1, canonical_facts; eassumption).
    destruct sy, sx; cbn [cond_Zopp].
    + cbn [SFcompare] in Hc |- *. injection Hc as Hc. f_equal.
      rewrite Z.compare_opp, (Z.compare_antisym (Zpos my * _)), <- Hc.
      destruct (ey ?= ex); reflexivity.
    + cbn [SFcompare]. f_equal. symmetry. apply Z.compare_lt_iff. lia.
    + cbn [SFcompare]. f_equal. symmetry. apply Z.compare_gt_iff. lia.
    + exact Hc.
Qed.

Lemma SFltb_scaled x y :
  Binary64.finite x = true -> Binary64.finite y = true ->
  SFltb x y = (Binary64.scaled x <? Binary64.scaled y).
Proof.
  intros Hx Hy. unfold SFltb, Z.ltb. rewrite (SFcompare_scaled y x Hy Hx).
  reflexivity.
Qed.

Lemma SFeqb_scaled x y :
  Binary64.finite x = true -> Binary64.finite y = true ->
  SFeqb x y = (Binary64.scaled x =? Binary64.scaled y).
Proof.
  intros Hx Hy. unfold SFeqb. rewrite (SFcompare_scaled y x Hy Hx).
  destruct (Z.compare_spec (Binary64.scaled x) (Binary64.scaled y)),
    (Z.eqb_spec (Binary64.scaled x) (Binary64.scaled y));
    try reflexivity; lia.
Qed.

(** The sign of a rounded difference is that of the exact one. *)
Lemma SFsub_sign x y :
  Binary64.finite x = true -> Binary64.finite y = true ->
  SFltb (S754_zero false) (SFsub prec emax x y) =
  (Binary64.scaled y <? Binary64.scaled x).
Proof.
  destruct x as [sx|sx| |sx mx ex]; try discriminate;
    destruct y as [sy|sy| |sy my ey]; try discriminate;
    cbn [Binary64.finite Binary64.scaled]; intros Hx Hy.
  - destruct sx, sy; reflexivity.
  - pose proof (scaled_positive my ey (proj1 (canonical_facts _ _ Hy))).
    destruct sx, sy; cbn [SFsub negb SFltb SFcompare cond_Zopp]; symmetry;
      try (apply Z.ltb_lt; lia); apply Z.ltb_ge; lia.
  - pose proof (scaled_positive mx ex (proj1 (canonical_facts _ _ Hx))).
    destruct sx, sy; cbn [SFsub negb SFltb SFcompare cond_Zopp]; symmetry;
      try (apply Z.ltb_lt; lia); apply Z.ltb_ge; lia.
  - apply canonical_facts in Hx as (Hxe & _).
    apply canonical_facts in Hy as (Hye & _).
    cbn [SFsub].
    set (ez := Z.min ex ey).
    assert (Hax : Zpos mx * 2 ^ (ex - emin) =
                  Zpos (fst (shl_align mx ex ez)) * 2 ^ (ez - emin)).
    { rewrite shl_align_value by lia. rewrite (pow2_split ex ez) by lia. lia. }
    assert (Hay : Zpos my * 2 ^ (ey - emin) =
                  Zpos (fst (shl_align my ey ez)) * 2 ^ (ez - emin)).
    { rewrite shl_align_value by lia. rewrite (pow2_split ey ez) by lia. lia. }
    rewrite Hax, Hay.
    assert (Hpow : 0 < 2 ^ (ez - emin)) by (apply Z.pow_pos_nonneg; lia).
    set (ax := Zpos (fst (shl_align mx ex ez))) in *.
    set (ay := Zpos (fst (shl_align my ey ez))) in *.
    assert (Hd : cond_Zopp sy (ay * 2 ^ (ez - emin)) <
                 cond_Zopp sx (ax * 2 ^ (ez - emin)) <->
                 0 < cond_Zopp sx ax - cond_Zopp sy ay).
    { destruct sx, sy; cbn [cond_Zopp]; nia. }
    destruct (cond_Zopp sx ax - cond_Zopp sy ay) as [|d|d] eqn:Hdiff;
      cbn [binary_normalize].
    + symmetry. apply Z.ltb_ge. lia.
    + rewrite (positive_above_zero _ (binary_round_positive d ez ltac:(lia))).
      symmetry. apply Z.ltb_lt. apply Hd. lia.
    + rewrite binary_round_negative.
      symmetry. apply Z.ltb_ge. lia.
Qed.

(** On finite numbers, comparisons and the sign of a difference are those
    of the ranks. *)
Lemma ltb_rank (a b : float) :
  PrimFloat.is_finite a = true -> PrimFloat.is_finite b = true ->
  (a <? b)%float = (Binary64.rank a <? Binary64.rank b).
Proof.
  intros Ha Hb. rewrite FloatAxioms.ltb_spec.
  apply SFltb_scaled; apply finite_is_canonical; assumption.
Qed.

Lemma eqb_rank (a b : float) :
  PrimFloat.is_finite a = true -> PrimFloat.is_finite b = true ->
  (a =? b)%float = (Binary64.rank a =? Binary64.rank b).
Proof.
  intros Ha Hb. rewrite FloatAxioms.eqb_spec.
  apply SFeqb_scaled; apply finite_is_canonical; assumption.
Qed.

Lemma difference_rank (a b : float) :
  PrimFloat.is_finite a = true -> PrimFloat.is_finite b = true ->
  (0 <? b - a)%float = (Binary64.rank a <? Binary64.rank b).
Proof.
  intros Ha Hb. rewrite FloatAxioms.ltb_spec, FloatAxioms.sub_spec.
  change (Prim2SF 0%float) with (S754_zero false).
  apply SFsub_sign; apply finite_is_canonical; assumption.
Qed.

End SignedOrder.

(** ** Sorting by a rank *)

Section RankedSort.
Context {A : Type} (compareFn : A -> A -> number) (rank : A -> Z).

(** When the comparator asks for [x] after [y] exactly if the rank of [x]
    is below that of [y], the sort is a stable sort by descending rank. *)
Lemma ranked_sort (arr : list A) :
  (forall x y, x ∈ arr -> y ∈ arr ->
     JsSort.comes_after compareFn x y = (rank x <? rank y)) ->
  Permutation (JsSort.sort compareFn arr) arr /\
  StronglySorted (fun x y => rank y <= rank x) (JsSort.sort compareFn arr) /\
  (forall x, x ∈ arr ->
     List.filter (fun y => rank x =? rank y) (JsSort.sort compareFn arr) =
     List.filter (fun y => rank x =? rank y) arr).
Proof.
  intros Hrank.
  assert (Hc : JsSort.consistent compareFn arr).
  { split.
    - intros x y Hx Hy. rewrite (Hrank x y), (Hrank y x) by assumption.
      rewrite Z.ltb_lt, Z.ltb_ge. lia.
    - intros x y z Hx Hy Hz.
      rewrite (Hrank x y), (Hrank y z), (Hrank x z) by assumption.
      rewrite !Z.ltb_ge. lia. }
  split; [apply sort_perm|]. split.
  - eapply StronglySorted_impl_in; [|apply sort_in_order, Hc].
    intros x y Hx Hy. cbv beta.
    apply sort_elem_of in Hx, Hy.
    rewrite (Hrank x y) by assumption. apply Z.ltb_ge.
  - intros x Hx.
    assert (Htied : forall y, y ∈ arr ->
              JsSort.tied compareFn x y = (rank x =? rank y)).
    { intros y Hy. unfold JsSort.tied.
      rewrite (Hrank x y), (Hrank y x) by assumption.
      destruct (Z.ltb_spec (rank x) (rank y)), (Z.ltb_spec (rank y) (rank x)),
        (Z.eqb_spec (rank x) (rank y)); try reflexivity; lia. }
    rewrite <- (filter_ext_elem_of (JsSort.tied compareFn x))
      by (intros y Hy; apply Htied, (proj1 (sort_elem_of compareFn arr y)), Hy).
    rewrite <- (filter_ext_elem_of (JsSort.tied compareFn x) _ arr)
      by (intros y Hy; apply Htied, Hy).
    apply sort_ties_kept; assumption.
Qed.

End RankedSort.

(** ** The landing page: the combined list *)

Section CombinedFacts.
Import Page Page.CombinedContractMetrics Landing.

Lemma volume_comes_after x y :
  finiteVolume x = true -> finiteVolume y = true ->
  JsSort.comes_after
    (fun a b => (orZero (quoteVolume b) - orZero (quoteVolume a))%float) x y =
  (Binary64.rank (volume x) <? Binary64.rank (volume y)).
Proof.
  intros Hx Hy. unfold JsSort.comes_after. apply difference_rank; assumption.
Qed.

Lemma computeCombinedContracts_ranked contracts :
  (forall c, c ∈ contracts -> finiteVolume c = true) ->
  Permutation (computeCombinedContracts contracts)
    (List.filter hasStats contracts) /\
  descendingByVolume (computeCombinedContracts contracts) /\
  volumeTiesInOrder (List.filter hasStats contracts)
    (computeCombinedContracts contracts).
Proof.
  intros Hfin. unfold computeCombinedContracts. fold hasStats.
  set (kept := List.filter hasStats contracts).
  assert (Hkept : forall c, c ∈ kept -> finiteVolume c = true).
  { intros c Hc. apply Hfin, (filter_elem_of hasStats), Hc. }
  destruct (ranked_sort
              (fun a b => (orZero (quoteVolume b) - orZero (quoteVolume a))%float)
              (fun item => Binary64.rank (volume item)) kept)
    as (Hperm & Hsorted & Hties).
  { intros x y Hx Hy. apply volume_comes_after; auto. }
  split; [exact Hperm|]. split.
  - eapply StronglySorted_impl_in; [|exact Hsorted].
    intros x y Hx Hy Hle. cbv beta in Hle |- *.
    rewrite Hperm in Hx, Hy.
    rewrite ltb_rank by (apply Hkept; assumption). apply Z.ltb_ge, Hle.
  - intros x Hx. unfold sameVolume.
    rewrite (filter_ext_elem_of _ (fun y =>
               Binary64.rank (volume x) =? Binary64.rank (volume y))).
    2:{ intros y Hy. rewrite Hperm in Hy. apply eqb_rank; apply Hkept; assumption. }
    rewrite (filter_ext_elem_of _ (fun y =>
               Binary64.rank (volume x) =? Binary64.rank (volume y)) kept).
    2:{ intros y Hy. apply eqb_rank; apply Hkept; assumption. }
    apply Hties, Hx.
Qed.

(** X7: [computeCombinedContracts] keeps the contracts that carry market
    stats, each as often as it occurs, and sorts them by quote volume
    (an absent one counting 0), largest first, contracts of equal volume
    in the order they had; this for every list whose quote volumes are
    finite numbers. *)
Theorem combined_contracts_by_quote_volume
    (contracts : list CombinedContractMetrics.t) :
  (forall c, c ∈ contracts -> finiteVolume c = true) ->
  Permutation (computeCombinedContracts contracts)
    (List.filter hasStats contracts) /\
  descendingByVolume (computeCombinedContracts contracts) /\
  volumeTiesInOrder (List.filter hasStats contracts)
    (computeCombinedContracts contracts).
Proof. apply computeCombinedContracts_ranked. Qed.

(** Four contracts with the volumes 5, none, 70 and 5. *)
Lemma combined_contracts_by_quote_volume_witness :
  map (fun item => Pi42Contract.name (contract item))
    (computeCombinedContracts
       [metricsWithVolume "A" (Some 5%float); metricsWithVolume "B" None;
        metricsWithVolume "C" (Some 70%float);
        metricsWithVolume "D" (Some 5%float)]) = ["C"; "A"; "D"; "B"] /\
  descendingByVolume
    (computeCombinedContracts
       [metricsWithVolume "A" (Some 5%float); metricsWithVolume "B" None;
        metricsWithVolume "C" (Some 70%float);
        metricsWithVolume "D" (Some 5%float)]).
Proof.
  split; [vm_compute; reflexivity|].
  apply combined_contracts_by_quote_volume.
  intros c Hc.
  repeat (apply elem_of_cons in Hc as [->|Hc]; [vm_compute; reflexivity|]).
  apply elem_of_nil in Hc. contradiction.
Defined.

Lemma combine_finiteVolume Number marketInfo item :
  finiteVolume (combine Number marketInfo item) = true.
Proof.
  unfold finiteVolume, volume, combine. cbn [quoteVolume].
  destruct (toNumber Number _) as [n|] eqn:Hn; [|reflexivity].
  eapply toNumber_string_finite, Hn.
Qed.

Lemma readProperty_is_Some marketInfo name :
  is_Some (readProperty marketInfo name) <->
  is_Some (marketInfo !! name) \/ name ∈ objectPrototypeKeys.
Proof.
  unfold readProperty.
  destruct (marketInfo !! name) as [stats|] eqn:Hown.
  - split; [intros _; left|intros _]; eexists; reflexivity.
  - destruct (bool_decide_reflect (name ∈ objectPrototypeKeys)) as [Hin|Hout].
    + split; [intros _; right; exact Hin|intros _; eexists; reflexivity].
    + split; [intros [? [=]]|intros [[? [=]]|Hin]; contradiction].
Qed.

Lemma readProperty_own marketInfo name stats :
  marketInfo !! name = Some stats -> readProperty marketInfo name = Some stats.
Proof. unfold readProperty. intros ->. reflexivity. Qed.

Lemma readProperty_inherited marketInfo name :
  marketInfo !! name = None -> name ∈ objectPrototypeKeys ->
  readProperty marketInfo name = Some inheritedValue.
Proof.
  unfold readProperty. intros -> Hin.
  rewrite (bool_decide_eq_true_2 _ Hin). reflexivity.
Qed.

Lemma hasStats_combine Number marketInfo item :
  hasStats (combine Number marketInfo item) = true <->
  is_Some (readProperty marketInfo (Pi42Contract.name item)).
Proof. unfold hasStats, combine. cbn [marketStats]. apply bool_decide_eq_true. Qed.

Lemma elem_of_filter_iff {B : Type} (f : B -> bool) (arr : list B) x :
  x ∈ List.filter f arr <-> x ∈ arr /\ f x = true.
Proof. rewrite !list_elem_of_In. apply List.filter_In. Qed.

(** X8: the combined list that [Home] builds holds exactly the contracts of
    the exchange under whose name [marketInfo[name]] finds a value: an own
    entry of the market info, or else a property that the object inherits
    ([constructor], [toString] and the like).  Each comes with the numbers
    read from that value, which for an inherited one are all undefined.
    The list is sorted by quote volume, largest first: the quote volumes
    come from [toNumber], which lets no [NaN] and no infinity through. *)
Theorem home_lists_contracts_with_market_stats
    (Number : string -> number) (contracts : list Pi42Contract.t)
    (marketInfo : gmap string Pi42MarketInfoEntry.t) :
  (forall name,
     is_Some (readProperty marketInfo name) <->
     is_Some (marketInfo !! name) \/ name ∈ objectPrototypeKeys) /\
  (forall c, c ∈ combinedContracts Number contracts marketInfo <->
     exists item, item ∈ contracts /\
       is_Some (readProperty marketInfo (Pi42Contract.name item)) /\
       c = combine Number marketInfo item) /\
  length (combinedContracts Number contracts marketInfo) =
    length (List.filter
              (fun item => bool_decide
                 (is_Some (readProperty marketInfo (Pi42Contract.name item))))
              contracts) /\
  (forall item stats,
     marketInfo !! Pi42Contract.name item = Some stats ->
     marketStats (combine Number marketInfo item) = Some stats) /\
  (forall item,
     marketInfo !! Pi42Contract.name item = None ->
     Pi42Contract.name item ∈ objectPrototypeKeys ->
     combine Number marketInfo item =
     CombinedContractMetrics.mk item (Some inheritedValue)
       (default "Unknown" (Pi42Contract.market item))
       None None None None None None) /\
  descendingByVolume (combinedContracts Number contracts marketInfo) /\
  volumeTiesInOrder
    (List.filter hasStats (map (combine Number marketInfo) contracts))
    (combinedContracts Number contracts marketInfo).
Proof.
  unfold combinedContracts.
  destruct (computeCombinedContracts_ranked
              (map (combine Number marketInfo) contracts))
    as (Hperm & Hsorted & Hties).
  { intros c Hc. apply list_elem_of_fmap in Hc as (item & -> & _).
    apply combine_finiteVolume. }
  split; [intros name; apply readProperty_is_Some|].
  split; [|split; [|split; [|split; [|split; assumption]]]].
  - intros c. rewrite Hperm, elem_of_filter_iff. split.
    + intros [Hc Hstats]. apply list_elem_of_fmap in Hc as (item & -> & Hitem).
      exists item. split; [exact Hitem|]. split; [|reflexivity].
      apply hasStats_combine in Hstats. exact Hstats.
    + intros (item & Hitem & Hsome & ->). split.
      * apply list_elem_of_fmap. exists item. split; [reflexivity|exact Hitem].
      * apply hasStats_combine, Hsome.
  - rewrite Hperm. clear. induction contracts as [|item rest IH]; [reflexivity|].
    cbn [map List.filter].
    unfold hasStats at 1. unfold combine at 1. cbn [marketStats].
    destruct (bool_decide
                (is_Some (readProperty marketInfo (Pi42Contract.name item))));
      cbn [length]; rewrite IH; reflexivity.
  - intros item stats Hown. unfold combine. cbn [marketStats].
    apply readProperty_own, Hown.
  - intros item Hown Hin. unfold combine.
    rewrite (readProperty_inherited _ _ Hown Hin). reflexivity.
Qed.

(** A contract named [constructor] is listed although the market info has
    no entry for it; one named [BTCINR] is listed with its entry, and one
    named [XYZINR], without an entry, is not. *)
Lemma home_lists_contracts_with_market_stats_witness :
  fundingMarketInfo !! "constructor" = None /\
  "constructor" ∈ objectPrototypeKeys /\
  map (fun c => Pi42Contract.name (contract c))
    (combinedContracts decimalLiteral
       [sampleContract "constructor"; sampleContract "XYZINR";
        sampleContract "BTCINR"] fundingMarketInfo) =
  ["constructor"; "BTCINR"] /\
  combine decimalLiteral fundingMarketInfo (sampleContract "constructor") =
  CombinedContractMetrics.mk (sampleContract "constructor")
    (Some inheritedValue) "INR" None None None None None None.
Proof.
  assert (Hown : fundingMarketInfo !! "constructor" = None)
    by (vm_compute; reflexivity).
  assert (Hin : "constructor" ∈ objectPrototypeKeys)
    by apply list_elem_of_here.
  split; [exact Hown|]. split; [exact Hin|].
  split; [vm_compute; reflexivity|].
  exact (proj1 (proj2 (proj2 (proj2 (proj2
           (home_lists_contracts_with_market_stats decimalLiteral
              [sampleContract "constructor"] fundingMarketInfo)))))
           (sampleContract "constructor") Hown Hin).
Defined.

End CombinedFacts.

(** ** The landing page: the primary contract and the initial snapshot *)

Section SnapshotFacts.
Import Page Page.CombinedContractMetrics Landing.
Variable getTicker : string -> Result (option Pi42Ticker.t).
Variable getDepth : string -> Result (option Pi42DepthResponse.t).
Variable getAggTrades : string -> Result (list Pi42AggTrade.t).
Variable getKlines : KlinesParams.t -> Result (list Pi42Kline.t).

#[local] Abbreviation snapshotOf :=
  (initialSnapshot getTicker getDepth getAggTrades getKlines).
#[local] Abbreviation isDefault :=
  (fun item : CombinedContractMetrics.t =>
     Pi42Contract.isDefaultContract (contract item)).

Lemma find_elem_of {A : Type} (p : A -> bool) (arr : list A) x :
  List.find p arr = Some x -> x ∈ arr /\ p x = true.
Proof.
  intros H. apply List.find_some in H as [Hin Hp].
  split; [apply list_elem_of_In, Hin|exact Hp].
Qed.

Lemma find_none_elem_of {A : Type} (p : A -> bool) (arr : list A) :
  List.find p arr = None -> forall x, x ∈ arr -> p x = false.
Proof.
  intros H x Hx. apply (List.find_none p arr H), list_elem_of_In, Hx.
Qed.

(** [find] returns the first element that passes the test. *)
Lemma find_first {A : Type} (p : A -> bool) (arr : list A) x :
  List.find p arr = Some x ->
  exists before after,
    arr = before ++ x :: after /\
    (forall y, y ∈ before -> p y = false) /\
    p x = true.
Proof.
  induction arr as [|a arr IH]; cbn [List.find]; [discriminate|].
  destruct (p a) eqn:Ha.
  - intros [= <-]. exists [], arr. split; [reflexivity|].
    split; [|exact Ha]. intros y Hy. apply elem_of_nil in Hy. contradiction.
  - intros Hfind. destruct (IH Hfind) as (before & after & -> & Hnone & Hx).
    exists (a :: before), after. split; [reflexivity|]. split; [|exact Hx].
    intros y Hy. apply elem_of_cons in Hy as [->|Hy]; [exact Ha|].
    apply Hnone, Hy.
Qed.

Lemma primaryContract_cases combined primary :
  primaryContract combined = Some primary ->
  primary ∈ combined /\
  ((exists before after,
      combined = before ++ primary :: after /\
      (forall item, item ∈ before -> isDefault item = false) /\
      isDefault primary = true) \/
   ((forall item, item ∈ combined -> isDefault item = false) /\
    head combined = Some primary)).
Proof.
  unfold primaryContract.
  destruct (List.find isDefault combined) as [item|] eqn:Hfind.
  - intros [= <-]. split; [apply find_elem_of in Hfind as [Hin _]; exact Hin|].
    left. apply (find_first isDefault), Hfind.
  - intros Hhead. split.
    + destruct combined as [|c rest]; [discriminate|].
      injection Hhead as <-. apply list_elem_of_here.
    + right. split; [apply find_none_elem_of, Hfind|exact Hhead].
Qed.

Lemma primaryContract_none combined :
  primaryContract combined = None <-> combined = [].
Proof.
  unfold primaryContract. split.
  - destruct (List.find isDefault combined); [discriminate|].
    destruct combined; [reflexivity|discriminate].
  - intros ->. reflexivity.
Qed.

(** X9: the snapshot that [Home] hands to the dashboard.  Without a combined
    contract there is no primary contract, no request is made and the
    snapshot is empty.  Otherwise the primary contract is a contract of
    the combined list, the first one flagged as default (no contract
    before it in the list is flagged) or, when none is flagged, the first
    of the list; the four requests are made for its
    name (the klines at interval 1h, limit 180), the snapshot names it,
    and its data are all four results when all four requests resolve and
    none of them when one rejects: then ticker and depth are null, trades
    and klines empty, and one error is logged. *)
Theorem initial_snapshot_all_or_nothing
    (combined : list CombinedContractMetrics.t) :
  (primaryContract combined = None <-> combined = []) /\
  (combined = [] ->
   snapshotOf combined = (InitialSnapshot.mk None None None [] [], [], [])) /\
  (forall primary,
     primaryContract combined = Some primary ->
     let symbol := Pi42Contract.name (contract primary) in
     let '(snapshot, calls, console) := snapshotOf combined in
     primary ∈ combined /\
     ((exists before after,
         combined = before ++ primary :: after /\
         (forall item, item ∈ before -> isDefault item = false) /\
         isDefault primary = true) \/
      ((forall item, item ∈ combined -> isDefault item = false) /\
       head combined = Some primary)) /\
     calls = [GetTicker symbol; GetDepth symbol; GetAggTrades symbol;
              GetKlines (KlinesParams.mk symbol "1h" 180%float)] /\
     InitialSnapshot.contract snapshot = Some symbol /\
     (forall t d tr kl,
        getTicker symbol = Ok t -> getDepth symbol = Ok d ->
        getAggTrades symbol = Ok tr ->
        getKlines (KlinesParams.mk symbol "1h" 180%float) = Ok kl ->
        snapshot = InitialSnapshot.mk (Some symbol) t d tr kl /\
        console = []) /\
     ((exists m, getTicker symbol = Throw m) \/
      (exists m, getDepth symbol = Throw m) \/
      (exists m, getAggTrades symbol = Throw m) \/
      (exists m, getKlines (KlinesParams.mk symbol "1h" 180%float) = Throw m) ->
      snapshot = InitialSnapshot.mk (Some symbol) None None [] [] /\
      length console = 1%nat)).
Proof.
  split; [apply primaryContract_none|]. split.
  - intros ->. reflexivity.
  - intros primary Hprimary. cbv zeta.
    destruct (primaryContract_cases combined primary Hprimary) as [Hin Hwhich].
    unfold initialSnapshot, klinesParams. rewrite Hprimary.
    set (symbol := Pi42Contract.name (contract primary)).
    destruct (getTicker symbol) as [t|mt] eqn:Ht; cbn;
      [destruct (getDepth symbol) as [d|md] eqn:Hd; cbn;
       [destruct (getAggTrades symbol) as [tr|mtr] eqn:Htr; cbn;
        [destruct (getKlines _) as [kl|mk] eqn:Hkl; cbn|]|]|];
      (split; [exact Hin|]); (split; [exact Hwhich|]);
      (split; [reflexivity|]); (split; [reflexivity|]); split.
    all: try (intros ? ? ? ? H1 H2 H3 H4; discriminate).
    all: try (intros _; split; reflexivity).
    + intros ? ? ? ? [= <-] [= <-] [= <-] [= <-]. split; reflexivity.
    + intros [[m H]|[[m H]|[[m H]|[m H]]]]; discriminate H.
Qed.

End SnapshotFacts.

Section SnapshotExamples.
Import Page Page.CombinedContractMetrics Landing.

(** Of the two flagged contracts of the sample list the first is the
    primary one, and with fetchers that resolve the snapshot carries its
    name and their results. *)
Lemma initial_snapshot_all_or_nothing_witness :
  primaryContract flaggedContracts = Some (metricsFlagged "ETHINR" true) /\
  (exists before after,
     flaggedContracts = before ++ metricsFlagged "ETHINR" true :: after /\
     (forall item, item ∈ before ->
        Pi42Contract.isDefaultContract (contract item) = false)) /\
  (initialSnapshot (fun _ => Ok None) (fun _ => Ok None) (fun _ => Ok [])
     (fun _ => Ok []) flaggedContracts).1.1 =
  InitialSnapshot.mk (Some "ETHINR") None None [] [].
Proof.
  assert (H : primaryContract flaggedContracts =
              Some (metricsFlagged "ETHINR" true)) by reflexivity.
  split; [exact H|].
  pose proof (proj2 (proj2 (initial_snapshot_all_or_nothing
                              (fun _ => Ok None) (fun _ => Ok None)
                              (fun _ => Ok []) (fun _ => Ok [])
                              flaggedContracts)) _ H) as Hprimary.
  cbn in Hprimary.
  destruct Hprimary as (_ & Hwhich & _ & _ & Hall & _). split.
  - destruct Hwhich as [(before & after & Hsplit & Hnone & _)|[Hnone _]].
    + exists before, after. split; assumption.
    + specialize (Hnone (metricsFlagged "ETHINR" true)).
      assert (Hin : metricsFlagged "ETHINR" true ∈ flaggedContracts)
        by (apply list_elem_of_further, list_elem_of_here).
      specialize (Hnone Hin). discriminate Hnone.
  - exact (proj1 (Hall None None [] [] eq_refl eq_refl eq_refl eq_refl)).
Defined.

End SnapshotExamples.

(** ** The request proxy: answers, failures, forwarding *)

Section AnswerFacts.
Import Proxy.
Context `{rt : Runtime}.
Variable fetch : ForwardRequest -> Result UpstreamResponse.t.

(** X10: whatever the request and whatever the upstream does, the handler
    returns a response (it never rejects) after at most one upstream
    request, and the response is one of three: status 400 with the schema
    issues and no upstream request; status 500 with an error message; or
    the upstream's own status with the body [{status, statusText, data}],
    after exactly one upstream request that completed. *)
Theorem proxy_always_answers (req_json : Result Json.t) :
  exists response,
    (POST fetch req_json).1 = Ok response /\
    (length (POST fetch req_json).2 <= 1)%nat /\
    ((exists issues,
        response = NextResponse.mk 400
          (NextResponse.InvalidPayload "Invalid request payload" issues) /\
        (POST fetch req_json).2 = []) \/
     (exists message,
        response = NextResponse.mk 500 (NextResponse.Failure message)) \/
     (exists init upstream text,
        (POST fetch req_json).2 = [init] /\
        fetch init = Ok upstream /\
        UpstreamResponse.text upstream = Ok text /\
        response = NextResponse.mk (UpstreamResponse.status upstream)
          (NextResponse.Mirrored (UpstreamResponse.status upstream)
             (UpstreamResponse.statusText upstream) (decodeBody text)))).
Proof.
  unfold POST, tryBlock.
  destruct req_json as [raw|m]; cbn [fst snd].
  2:{ eexists. split; [reflexivity|]. split; [simpl; lia|]. right. left. eauto. }
  destruct (safeParse raw) as [data|issues]; cbn [fst snd].
  2:{ eexists. split; [reflexivity|]. split; [simpl; lia|]. left. eauto. }
  destruct (forwardRequest data) as [init|m]; cbn [fst snd].
  2:{ eexists. split; [reflexivity|]. split; [simpl; lia|]. right. left. eauto. }
  destruct (fetch init) as [upstream|m] eqn:Hfetch; cbn.
  2:{ eexists. split; [reflexivity|]. split; [lia|]. right. left. eauto. }
  destruct (UpstreamResponse.text upstream) as [text|m] eqn:Htext; cbn.
  2:{ eexists. split; [reflexivity|]. split; [lia|]. right. left. eauto. }
  destruct (NextResponse.json _ (UpstreamResponse.status upstream))
    as [response|m] eqn:Hjson.
  - exists response. split; [reflexivity|]. split; [lia|]. right. right.
    exists init, upstream, text. repeat split; try assumption.
    unfold NextResponse.json in Hjson.
    destruct (_ || _); [discriminate|].
    destruct (NextResponse.nullBodyStatus _); [discriminate|].
    injection Hjson as <-. reflexivity.
  - eexists. split; [reflexivity|]. split; [lia|]. right. left. eauto.
Qed.

(** X11: the failures the [catch] block answers: a request body that is not
    JSON, a URL that cannot be built, a header that cannot be set, an
    upstream request that fails, an upstream body that cannot be read.
    Each is answered with status 500 and the message of the error; a
    request body that is not JSON is not answered with 400, and a failure
    before [fetch] sends nothing upstream. *)
Theorem proxy_failures_answer_500 :
  (forall message,
     POST fetch (Throw message) =
     (Ok (NextResponse.mk 500 (NextResponse.Failure message)), [])) /\
  (forall raw data message,
     safeParse raw = Valid data ->
     forwardRequest data = Throw message ->
     POST fetch (Ok raw) =
     (Ok (NextResponse.mk 500 (NextResponse.Failure message)), [])) /\
  (forall raw data init message,
     safeParse raw = Valid data ->
     forwardRequest data = Ok init ->
     fetch init = Throw message ->
     POST fetch (Ok raw) =
     (Ok (NextResponse.mk 500 (NextResponse.Failure message)), [init])) /\
  (forall raw data init upstream message,
     safeParse raw = Valid data ->
     forwardRequest data = Ok init ->
     fetch init = Ok upstream ->
     UpstreamResponse.text upstream = Throw message ->
     POST fetch (Ok raw) =
     (Ok (NextResponse.mk 500 (NextResponse.Failure message)), [init])).
Proof.
  unfold POST, tryBlock. repeat split.
  - intros raw data message -> ->. reflexivity.
  - intros raw data init message -> -> ->. reflexivity.
  - intros raw data init upstream message -> -> -> . cbn. intros ->. reflexivity.
Qed.

End AnswerFacts.

Section ForwardingFacts.
Import Proxy Forwarding.
Context `{rt : Runtime}.

Lemma setQuery_filter entries : forall url,
  fold_left setQuery (List.filter nonEmptyQuery entries) url =
  fold_left setQuery entries url.
Proof.
  induction entries as [|[key value] rest IH]; intros url; [reflexivity|].
  cbn [List.filter fold_left].
  destruct value as [[|c s]|n|b]; cbn [nonEmptyQuery snd fold_left setQuery];
    apply IH.
Qed.

Lemma setHeader_filter entries : forall acc,
  fold_left setHeader (List.filter nonEmptyHeader entries) acc =
  fold_left setHeader entries acc.
Proof.
  induction entries as [|[key value] rest IH]; intros acc; [reflexivity|].
  cbn [List.filter fold_left]. unfold nonEmptyHeader at 1. cbn [snd].
  destruct (String.eqb value "") eqn:Hv; cbn [negb fold_left].
  - rewrite IH. f_equal. unfold setHeader. rewrite Hv.
    destruct acc; reflexivity.
  - apply IH.
Qed.

(** The kept query entries are each set once, in order, with
    [String(value)]. *)
Lemma setQuery_kept entries : forall url,
  fold_left setQuery entries url =
  fold_left (fun url entry => searchParams_set url entry.1 (String_of entry.2))
    (List.filter nonEmptyQuery entries) url.
Proof.
  induction entries as [|[key value] rest IH]; intros url; [reflexivity|].
  cbn [List.filter fold_left].
  destruct value as [[|c s]|n|b]; cbn [nonEmptyQuery snd fold_left setQuery fst];
    apply IH.
Qed.

(** X12: query entries whose value is the empty string and headers whose value
    is the empty string are not forwarded: the request that goes upstream
    is the one the payload without them gives.  Every other query entry is
    set once on the URL, in order, with [String(value)]; [false] and
    numbers are among them. *)
Theorem proxy_drops_empty_values (data : Parsed) :
  forwardRequest (withoutEmptyValues data) = forwardRequest data /\
  (forall url,
     fold_left setQuery (query data) url =
     fold_left (fun url entry => searchParams_set url entry.1 (String_of entry.2))
       (List.filter nonEmptyQuery (query data)) url) /\
  (forall key b, nonEmptyQuery (key, QBool b) = true) /\
  (forall key n, nonEmptyQuery (key, QNum n) = true).
Proof.
  split; [|split; [intros url; apply setQuery_kept|split; reflexivity]].
  unfold forwardRequest, withoutEmptyValues.
  cbn [target path query headers body method].
  destruct (new_URL (path data) (resolveBaseUrl (target data))) as [url|m];
    [|reflexivity].
  cbn. rewrite setQuery_filter, setHeader_filter. reflexivity.
Qed.

End ForwardingFacts.

Section ForwardingExamples.
Import Proxy Forwarding.

(** A payload with an empty query value and an empty header: neither is
    forwarded, [false] is. *)
Lemma proxy_drops_empty_values_witness :
  @forwardRequest sampleRuntime (withoutEmptyValues sampleParsed) =
  @forwardRequest sampleRuntime sampleParsed /\
  fwd_url <$> @forwardRequest sampleRuntime sampleParsed =
  Ok ("https://api.pi42.com/v1/exchange", [("b", "false"); ("c", "x")]) /\
  fwd_headers <$> @forwardRequest sampleRuntime sampleParsed =
  Ok [("Accept", "application/json"); ("Content-Type", "application/json");
      ("X-Trace", "1")].
Proof.
  split; [apply (proj1 (@proxy_drops_empty_values sampleRuntime sampleParsed))|].
  split; reflexivity.
Defined.

End ForwardingExamples.


Section UnknownKeys.
Import Proxy Forwarding.

Lemma field_app_other key other v fields :
  other <> key ->
  Json.field key (fields ++ [(other, v)]) = Json.field key fields.
Proof.
  intros Hne. induction fields as [|[name x] rest IH]; simpl.
  - destruct (String.eqb_spec other key); [contradiction|reflexivity].
  - destruct (String.eqb name key); [reflexivity|exact IH].
Qed.

Lemma field_app_fresh key v fields :
  Json.field key fields = None ->
  Json.field key (fields ++ [(key, v)]) = Some v.
Proof.
  induction fields as [|[name x] rest IH]; simpl.
  - rewrite String.eqb_refl. reflexivity.
  - destruct (String.eqb name key); [discriminate|exact IH].
Qed.

Lemma knownKey_false key :
  knownKey key = false ->
  key <> "method" /\ key <> "path" /\ key <> "target" /\
  key <> "query" /\ key <> "headers" /\ key <> "body".
Proof.
  unfold knownKey, schemaKeys. cbn [existsb fst].
  rewrite !orb_false_iff, !String.eqb_neq.
  intros (H1 & H2 & H3 & H4 & H5 & H6 & _). repeat split; congruence.
Qed.

(** X13: a key the schema does not know changes nothing: the payload with the
    key added is answered as the payload without it, and the same request
    goes upstream.  Leaving out [target] is the same as sending
    ["public"]. *)
Theorem proxy_ignores_unknown_keys
    (rt : Runtime) (fetch : ForwardRequest -> Result UpstreamResponse.t)
    (fields : list (string * Json.t)) :
  (forall key v,
     knownKey key = false ->
     Json.field key fields = None ->
     POST fetch (Ok (Json.Obj (fields ++ [(key, v)]))) =
     POST fetch (Ok (Json.Obj fields))) /\
  (Json.field "target" fields = None ->
   POST fetch (Ok (Json.Obj (fields ++ [("target", Json.Str "public")]))) =
   POST fetch (Ok (Json.Obj fields))).
Proof.
  split.
  - intros key v Hkey _.
    apply knownKey_false in Hkey as (H1 & H2 & H3 & H4 & H5 & H6).
    unfold POST, tryBlock, safeParse.
    rewrite !field_app_other by assumption. reflexivity.
  - intros Hnone. unfold POST, tryBlock, safeParse.
    rewrite (field_app_other "method" "target"), (field_app_other "path" "target"),
      (field_app_other "query" "target"), (field_app_other "headers" "target"),
      (field_app_other "body" "target") by discriminate.
    rewrite (field_app_fresh "target") by exact Hnone.
    rewrite Hnone. reflexivity.
Qed.

(** The sample [DELETE] with a key [note] added, and with the target
    spelled out. *)
Lemma proxy_ignores_unknown_keys_witness :
  POST (constantUpstream okEmpty)
    (Ok (Json.Obj [("method", Json.Str "DELETE"); ("path", Json.Str "/v1/order");
                   ("note", Json.Null)])) =
  POST (constantUpstream okEmpty) (Ok deleteOrder) /\
  POST (constantUpstream okEmpty)
    (Ok (Json.Obj [("method", Json.Str "DELETE"); ("path", Json.Str "/v1/order");
                   ("target", Json.Str "public")])) =
  POST (constantUpstream okEmpty) (Ok deleteOrder).
Proof.
  split.
  - apply (proj1 (proxy_ignores_unknown_keys sampleRuntime
                    (constantUpstream okEmpty)
                    [("method", Json.Str "DELETE"); ("path", Json.Str "/v1/order")])
             "note" Json.Null); reflexivity.
  - apply (proj2 (proxy_ignores_unknown_keys sampleRuntime
                    (constantUpstream okEmpty)
                    [("method", Json.Str "DELETE"); ("path", Json.Str "/v1/order")]));
      reflexivity.
Defined.

End UnknownKeys.

(** ** The request proxy: the issues of a rejected payload *)

Section IssueFacts.
Import Proxy Forwarding.

(** Every issue of [issues] has a path that starts with [key]. *)
#[local] Abbreviation headed key issues :=
  (Forall (fun issue : ZodIssue.t => head (ZodIssue.path issue) = Some key) issues).

Lemma checkEntries_headed {A : Type} field (check : Json.t -> option A) kind entries :
  headed field (checkEntries field check kind entries).2.
Proof.
  induction entries as [|[key v] rest IH]; simpl; [constructor|].
  destruct (checkEntries field check kind rest) as [values issues].
  destruct (check v); simpl; [exact IH|].
  constructor; [reflexivity|exact IH].
Qed.

Lemma checkRecord_headed {A : Type} field (check : Json.t -> option A) kind v :
  headed field (issuesOf (checkRecord field check kind v)).
Proof.
  unfold checkRecord.
  destruct v as [[| | | | |entries]|]; simpl;
    try (repeat constructor).
  pose proof (checkEntries_headed field check kind entries) as H.
  destruct (checkEntries field check kind entries) as [values [|i rest]];
    simpl in *; [constructor|exact H].
Qed.

Lemma checkMethod_headed v : headed "method" (issuesOf (checkMethod v)).
Proof.
  unfold checkMethod. destruct v as [[| | |s| |]|]; simpl; try (repeat constructor).
  destruct (HttpMethod.of_string s); simpl; repeat constructor.
Qed.

Lemma checkPath_headed v : headed "path" (issuesOf (checkPath v)).
Proof.
  unfold checkPath. destruct v as [[| | |s| |]|]; simpl; try (repeat constructor).
  destruct (String.prefix "/" s); simpl; repeat constructor.
Qed.

Lemma checkTarget_headed v : headed "target" (issuesOf (checkTarget v)).
Proof.
  unfold checkTarget. destruct v as [[| | |s| |]|]; simpl; try (repeat constructor).
  destruct (Target.of_string s); simpl; repeat constructor.
Qed.

Lemma checkBody_headed v : headed "body" (issuesOf (checkBody v)).
Proof.
  unfold checkBody. destruct v as [[| | | | |]|]; simpl; repeat constructor.
Qed.

(** A check names an issue exactly when the value is not as the schema
    asks. *)
Lemma issuesOf_nil {A : Type} (c : Checked A) :
  (forall issues, c = Invalid issues -> issues <> []) ->
  issuesOf c = [] <-> isValid c.
Proof.
  intros Hinv. destruct c as [value|issues]; simpl.
  - split; [intros _; apply isValid_Valid|reflexivity].
  - split; [intros ->; destruct (Hinv [] eq_refl eq_refl)|].
    intros H. destruct (isValid_Invalid _ H).
Qed.

Lemma reported_app key issues more :
  reported key (issues ++ more) <-> reported key issues \/ reported key more.
Proof.
  unfold reported. split.
  - intros (issue & Hin & Hhead). apply elem_of_app in Hin as [Hin|Hin]; eauto.
  - intros [(issue & Hin & Hhead)|(issue & Hin & Hhead)];
      exists issue; (split; [apply elem_of_app; auto|exact Hhead]).
Qed.

Lemma reported_headed key issues : headed key issues ->
  (reported key issues <-> issues <> []) /\
  (forall other, other <> key -> ~ reported other issues).
Proof.
  intros H. split; [split|].
  - intros (issue & Hin & _) ->. apply elem_of_nil in Hin. exact Hin.
  - destruct issues as [|issue rest]; [contradiction|]. intros _.
    exists issue. split; [apply list_elem_of_here|].
    apply Forall_inv in H. exact H.
  - intros other Hne (issue & Hin & Hhead).
    rewrite Forall_forall in H. specialize (H issue Hin). congruence.
Qed.

Lemma reported_skip key issues more :
  ~ reported key issues ->
  (reported key (issues ++ more) <-> reported key more).
Proof. rewrite reported_app. tauto. Qed.

Lemma reported_stop key issues more :
  ~ reported key more ->
  (reported key (issues ++ more) <-> reported key issues).
Proof. rewrite reported_app. tauto. Qed.

Lemma not_reported_app key issues more :
  ~ reported key issues -> ~ reported key more ->
  ~ reported key (issues ++ more).
Proof. rewrite reported_app. tauto. Qed.

(** The issue list of a rejected payload, key by key. *)
Lemma safeParse_issues fields issues :
  safeParse (Json.Obj fields) = Invalid issues ->
  issues =
    issuesOf (checkMethod (Json.field "method" fields)) ++
    issuesOf (checkPath (Json.field "path" fields)) ++
    issuesOf (checkTarget (Json.field "target" fields)) ++
    issuesOf (checkQuery (Json.field "query" fields)) ++
    issuesOf (checkHeaders (Json.field "headers" fields)) ++
    issuesOf (checkBody (Json.field "body" fields)).
Proof.
  unfold safeParse.
  destruct (checkMethod _), (checkPath _), (checkTarget _), (checkQuery _),
    (checkHeaders _), (checkBody _); intros [= <-]; reflexivity.
Qed.

(** X14: a response 400 reports every key of the payload that is not as the
    schema asks, and no other: for each of the six keys, the issue list
    holds an issue whose path starts with that key exactly when the value
    under the key (or its absence) violates the schema. *)
Theorem proxy_reports_every_invalid_key
    (rt : Runtime) (fetch : ForwardRequest -> Result UpstreamResponse.t)
    (fields : list (string * Json.t)) (error : string)
    (issues : list ZodIssue.t) :
  (POST fetch (Ok (Json.Obj fields))).1 =
    Ok (NextResponse.mk 400 (NextResponse.InvalidPayload error issues)) ->
  forall key ok, (key, ok) ∈ schemaKeys ->
    (reported key issues <-> ok (Json.field key fields) = false).
Proof.
  intros Hpost.
  assert (Hparse : safeParse (Json.Obj fields) = Invalid issues).
  { unfold POST, tryBlock in Hpost.
    destruct (safeParse (Json.Obj fields)) as [data|found]; cbn in Hpost.
    - exfalso. destruct (forwardRequest data) as [init|m]; cbn in Hpost;
        [|discriminate].
      destruct (fetch init) as [up|m]; cbn in Hpost; [|discriminate].
      destruct (UpstreamResponse.text up) as [text|m]; cbn in Hpost;
        [|discriminate].
      unfold NextResponse.json in Hpost.
      destruct (_ || _); cbn in Hpost; [discriminate|].
      destruct (NextResponse.nullBodyStatus _); cbn in Hpost; discriminate.
    - injection Hpost as _ <-. reflexivity. }
  apply safeParse_issues in Hparse. subst issues.
  pose proof (reported_headed _ _ (checkMethod_headed (Json.field "method" fields)))
    as [Hm Hm'].
  pose proof (reported_headed _ _ (checkPath_headed (Json.field "path" fields)))
    as [Hp Hp'].
  pose proof (reported_headed _ _ (checkTarget_headed (Json.field "target" fields)))
    as [Ht Ht'].
  pose proof (reported_headed _ _
                (checkRecord_headed "query" asQueryValue ZodIssue.NoUnionMember
                   (Json.field "query" fields))) as [Hq Hq'].
  pose proof (reported_headed _ _
                (checkRecord_headed "headers" asString ZodIssue.WrongType
                   (Json.field "headers" fields))) as [Hh Hh'].
  pose proof (reported_headed _ _ (checkBody_headed (Json.field "body" fields)))
    as [Hb Hb'].
  fold checkQuery in Hq, Hq'. fold checkHeaders in Hh, Hh'.
  pose proof (issuesOf_nil _ (checkMethod_invalid (Json.field "method" fields))) as Nm.
  pose proof (issuesOf_nil _ (checkPath_invalid (Json.field "path" fields))) as Np.
  pose proof (issuesOf_nil _ (checkTarget_invalid (Json.field "target" fields))) as Nt.
  pose proof (issuesOf_nil _ (checkRecord_invalid "query" asQueryValue
                ZodIssue.NoUnionMember (Json.field "query" fields))) as Nq.
  pose proof (issuesOf_nil _ (checkRecord_invalid "headers" asString
                ZodIssue.WrongType (Json.field "headers" fields))) as Nh.
  pose proof (issuesOf_nil _ (checkBody_invalid (Json.field "body" fields))) as Nb.
  fold checkQuery in Nq. fold checkHeaders in Nh.
  rewrite checkMethod_valid in Nm. rewrite checkPath_valid in Np.
  rewrite checkTarget_valid in Nt. rewrite checkQuery_valid in Nq.
  rewrite checkHeaders_valid in Nh. rewrite checkBody_valid in Nb.
  intros key ok Hkey. unfold schemaKeys in Hkey.
  repeat (apply elem_of_cons in Hkey as [[= -> ->]|Hkey]);
    [| | | | | |apply elem_of_nil in Hkey; contradiction];
    rewrite <- not_true_iff_false.
  - rewrite <- Nm, <- Hm. apply reported_stop.
    repeat apply not_reported_app;
      [apply Hp'|apply Ht'|apply Hq'|apply Hh'|apply Hb']; discriminate.
  - rewrite <- Np, <- Hp.
    etransitivity; [apply reported_skip, Hm'; discriminate|].
    apply reported_stop.
    repeat apply not_reported_app;
      [apply Ht'|apply Hq'|apply Hh'|apply Hb']; discriminate.
  - rewrite <- Nt, <- Ht.
    etransitivity; [apply reported_skip, Hm'; discriminate|].
    etransitivity; [apply reported_skip, Hp'; discriminate|].
    apply reported_stop.
    repeat apply not_reported_app; [apply Hq'|apply Hh'|apply Hb']; discriminate.
  - rewrite <- Nq, <- Hq.
    etransitivity; [apply reported_skip, Hm'; discriminate|].
    etransitivity; [apply reported_skip, Hp'; discriminate|].
    etransitivity; [apply reported_skip, Ht'; discriminate|].
    apply reported_stop.
    repeat apply not_reported_app; [apply Hh'|apply Hb']; discriminate.
  - rewrite <- Nh, <- Hh.
    etransitivity; [apply reported_skip, Hm'; discriminate|].
    etransitivity; [apply reported_skip, Hp'; discriminate|].
    etransitivity; [apply reported_skip, Ht'; discriminate|].
    etransitivity; [apply reported_skip, Hq'; discriminate|].
    apply reported_stop, Hb'. discriminate.
  - rewrite <- Nb, <- Hb.
    etransitivity; [apply reported_skip, Hm'; discriminate|].
    etransitivity; [apply reported_skip, Hp'; discriminate|].
    etransitivity; [apply reported_skip, Ht'; discriminate|].
    etransitivity; [apply reported_skip, Hq'; discriminate|].
    apply reported_skip, Hh'. discriminate.
Qed.

(** A [GET] without the slash in its path and with a number for headers:
    both keys are reported, the method is not. *)
Lemma proxy_reports_every_invalid_key_witness :
  exists issues,
    (POST (constantUpstream okEmpty) (Ok (Json.Obj twoViolations))).1 =
      Ok (NextResponse.mk 400
            (NextResponse.InvalidPayload "Invalid request payload" issues)) /\
    reported "path" issues /\ reported "headers" issues /\
    ~ reported "method" issues.
Proof.
  eexists. split; [vm_compute; reflexivity|].
  pose proof (proxy_reports_every_invalid_key sampleRuntime
                (constantUpstream okEmpty) twoViolations _ _ eq_refl) as H.
  split; [apply (H "path" pathOk); [|reflexivity]|split].
  - unfold schemaKeys. rewrite !elem_of_cons. auto.
  - apply (H "headers" headersOk); [|reflexivity].
    unfold schemaKeys. rewrite !elem_of_cons. auto 10.
  - intros Hr. apply (H "method" methodOk) in Hr; [discriminate Hr|].
    unfold schemaKeys. rewrite !elem_of_cons. auto.
Defined.

End IssueFacts.

(** ** The dashboard's requests through the proxy route *)

Section EndToEndFacts.
Import Proxy EndToEnd.
Variable wire : Json.t -> Json.t.
Variable issuesJson : list ZodIssue.t -> Json.t.
Context `{rt : Runtime}.
Variable fetch : ForwardRequest -> Result UpstreamResponse.t.
Variable String_of_json : Json.t -> string.

#[local] Abbreviation request :=
  (Dashboard.proxyRequest (callRoute wire issuesJson fetch) String_of_json).

Lemma request_of_response {T : Type} (asT : Json.t -> T) payload response :
  (POST fetch (Ok (requestJson wire payload))).1 = Ok response ->
  (request asT payload).1 =
  if negb (Dashboard.ok (replyOf wire issuesJson response))
  then Throw (Dashboard.failureMessage String_of_json
                (replyOf wire issuesJson response))
  else Ok (asT <$> Dashboard.nullish
             (Dashboard.optionalField "data"
                (bodyJson wire issuesJson (NextResponse.body response)))).
Proof.
  intros H. unfold Dashboard.proxyRequest, callRoute. cbn [fst].
  rewrite H. cbn. destruct (negb _); reflexivity.
Qed.

Lemma ok_status response :
  Dashboard.ok (replyOf wire issuesJson response) =
  (200 <=? NextResponse.status response) && (NextResponse.status response <=? 299).
Proof. reflexivity. Qed.

(** X15: what a caller of [proxyRequest] gets when the request goes through
    the route.  A payload the schema rejects: the error "Invalid request
    payload".  An upstream answer with a status from 200 to 299 (204 and
    205 apart): the decoded upstream body as it reads after the trip, or
    [null].  An upstream answer with any other status that admits a body:
    the error "Request failed with" and the status, whatever the upstream
    body says.  An upstream status without body: the error raised when
    the response was built.  An upstream request that fails: its error. *)
Theorem client_outcome_through_proxy {T : Type} (asT : Json.t -> T)
    (payload : Dashboard.ProxyPayload) :
  (forall issues,
     safeParse (requestJson wire payload) = Invalid issues ->
     (request asT payload).1 = Throw "Invalid request payload") /\
  (forall data init,
     safeParse (requestJson wire payload) = Valid data ->
     forwardRequest data = Ok init ->
     (forall message,
        fetch init = Throw message ->
        (request asT payload).1 = Throw message) /\
     (forall upstream text,
        fetch init = Ok upstream ->
        UpstreamResponse.text upstream = Ok text ->
        let status := UpstreamResponse.status upstream in
        (bodyPermitted status = true -> 200 <= status <= 299 ->
         (request asT payload).1 =
         Ok (asT <$> Dashboard.nullish (Some (wire (decodeBody text))))) /\
        (bodyPermitted status = true -> 300 <= status ->
         (request asT payload).1 =
         Throw ("Request failed with " +:+ pretty status)) /\
        (bodyPermitted status = false ->
         exists message,
           NextResponse.json
             (NextResponse.Mirrored status
                (UpstreamResponse.statusText upstream) (decodeBody text))
             status = Throw message /\
           (request asT payload).1 = Throw message))).
Proof.
  split.
  - intros issues Hparse.
    rewrite (request_of_response asT payload
               (NextResponse.mk 400
                  (NextResponse.InvalidPayload "Invalid request payload" issues))).
    + reflexivity.
    + unfold POST, tryBlock. rewrite Hparse. reflexivity.
  - intros data init Hparse Hfwd. split.
    + intros message Hfetch.
      rewrite (request_of_response asT payload
                 (NextResponse.mk 500 (NextResponse.Failure message))).
      * reflexivity.
      * unfold POST, tryBlock. rewrite Hparse, Hfwd, Hfetch. reflexivity.
    + intros upstream text Hfetch Htext. cbv zeta.
      split; [|split].
      * intros Hstatus Hrange.
        erewrite request_of_response.
        2:{ rewrite (POST_completed fetch _ data init upstream text) by assumption.
            rewrite json_permitted by assumption. reflexivity. }
        rewrite ok_status. cbn [NextResponse.status NextResponse.body].
        rewrite (proj2 (Z.leb_le _ _) (proj1 Hrange)),
          (proj2 (Z.leb_le _ _) (proj2 Hrange)).
        reflexivity.
      * intros Hstatus Hrange.
        erewrite request_of_response.
        2:{ rewrite (POST_completed fetch _ data init upstream text) by assumption.
            rewrite json_permitted by assumption. reflexivity. }
        rewrite ok_status. cbn [NextResponse.status NextResponse.body].
        replace (UpstreamResponse.status upstream <=? 299) with false
          by (symmetry; apply Z.leb_gt; lia).
        rewrite andb_false_r. reflexivity.
      * intros Hstatus.
        destruct (json_refused
                    (NextResponse.Mirrored (UpstreamResponse.status upstream)
                       (UpstreamResponse.statusText upstream) (decodeBody text))
                    _ Hstatus) as [message Hm].
        exists message. split; [exact Hm|].
        rewrite (request_of_response asT payload
                   (NextResponse.mk 500 (NextResponse.Failure message))).
        -- reflexivity.
        -- rewrite (POST_completed fetch _ data init upstream text) by assumption.
           rewrite Hm. reflexivity.
Qed.

End EndToEndFacts.

Section EndToEndExamples.
Import Proxy EndToEnd.

(** A ticker request for BTCINR, read as raw JSON: answered 404 upstream,
    answered 204 upstream, and answered 200 with an empty body. *)
Lemma client_outcome_through_proxy_witness :
  (Dashboard.proxyRequest
     (callRoute (fun v => v) (fun _ => Json.Arr []) (constantUpstream notFound))
     Dashboard.sampleToString (fun v => v)
     (Dashboard.tickerRequest "BTCINR")).1 = Throw "Request failed with 404" /\
  (Dashboard.proxyRequest
     (callRoute (fun v => v) (fun _ => Json.Arr []) (constantUpstream noContent))
     Dashboard.sampleToString (fun v => v)
     (Dashboard.tickerRequest "BTCINR")).1 =
    Throw "Response constructor: Invalid response status code 204" /\
  (Dashboard.proxyRequest
     (callRoute (fun v => v) (fun _ => Json.Arr []) (constantUpstream okEmpty))
     Dashboard.sampleToString (fun v => v)
     (Dashboard.tickerRequest "BTCINR")).1 = Ok None.
Proof.
  set (payload := Dashboard.tickerRequest "BTCINR").
  destruct (safeParse (requestJson (fun v => v) payload)) as [data|] eqn:Hparse;
    [|discriminate Hparse].
  destruct (@forwardRequest sampleRuntime data) as [init|] eqn:Hfwd;
    [|vm_compute in Hparse; injection Hparse as <-; discriminate Hfwd].
  split; [|split].
  - destruct (client_outcome_through_proxy (fun v => v) (fun _ => Json.Arr [])
                (constantUpstream notFound) Dashboard.sampleToString
                (fun v => v) payload) as [_ H].
    destruct (H data init Hparse Hfwd) as [_ H'].
    destruct (H' notFound "null" eq_refl eq_refl) as (_ & H404 & _).
    exact (H404 eq_refl ltac:(simpl; lia)).
  - destruct (client_outcome_through_proxy (fun v => v) (fun _ => Json.Arr [])
                (constantUpstream noContent) Dashboard.sampleToString
                (fun v => v) payload) as [_ H].
    destruct (H data init Hparse Hfwd) as [_ H'].
    destruct (H' noContent "" eq_refl eq_refl) as (_ & _ & H204).
    destruct (H204 eq_refl) as (message & Hm & Hout).
    rewrite Hout. vm_compute in Hm. injection Hm as <-. reflexivity.
  - destruct (client_outcome_through_proxy (fun v => v) (fun _ => Json.Arr [])
                (constantUpstream okEmpty) Dashboard.sampleToString
                (fun v => v) payload) as [_ H].
    destruct (H data init Hparse Hfwd) as [_ H'].
    destruct (H' okEmpty "" eq_refl eq_refl) as (H200 & _ & _).
    exact (H200 eq_refl ltac:(simpl; lia)).
Defined.

End EndToEndExamples.

(** ** The dashboard component: selection and the bundle effect *)

Section ComponentFacts.
Import Page.CombinedContractMetrics Dashboard Component.
Variable contracts : list Page.CombinedContractMetrics.t.

#[local] Abbreviation named symbol :=
  (fun item : Page.CombinedContractMetrics.t =>
     String.eqb (Page.Pi42Contract.name (contract item)) symbol).

Lemma selectedContract_cases symbol item :
  selectedContract contracts symbol = Some item ->
  item ∈ contracts /\
  (Page.Pi42Contract.name (contract item) = symbol \/
   (~ listed contracts symbol /\ head contracts = Some item)).
Proof.
  unfold selectedContract.
  destruct (List.find (named symbol) contracts) as [found|] eqn:Hfind.
  - intros [= <-]. apply find_elem_of in Hfind as [Hin Hp].
    apply String.eqb_eq in Hp. auto.
  - intros Hhead. split.
    + destruct contracts as [|c rest]; [discriminate|].
      injection Hhead as <-. apply list_elem_of_here.
    + right. split; [|exact Hhead].
      intros (other & Hin & Hname).
      pose proof (find_none_elem_of _ _ Hfind other Hin) as Hno.
      cbv beta in Hno. rewrite Hname, String.eqb_refl in Hno. discriminate.
Qed.

Lemma selectedContract_none symbol :
  selectedContract contracts symbol = None <-> contracts = [].
Proof.
  unfold selectedContract. split.
  - destruct (List.find (named symbol) contracts); [discriminate|].
    destruct contracts; [reflexivity|discriminate].
  - intros ->. reflexivity.
Qed.

Lemma selectedContract_listed symbol :
  listed contracts symbol ->
  exists item, selectedContract contracts symbol = Some item /\
    item ∈ contracts /\ Page.Pi42Contract.name (contract item) = symbol.
Proof.
  intros (other & Hin & Hname). unfold selectedContract.
  destruct (List.find (named symbol) contracts) as [found|] eqn:Hfind.
  - apply find_elem_of in Hfind as [Hf Hp]. apply String.eqb_eq in Hp. eauto.
  - pose proof (find_none_elem_of _ _ Hfind other Hin) as Hno.
    cbv beta in Hno. rewrite Hname, String.eqb_refl in Hno. discriminate.
Qed.

(** X17: the contract the dashboard shows.  There is none exactly when the
    contract list is empty (the case in which the component renders its
    fallback panel).  Otherwise it is a contract of the list: one that
    bears the selected symbol when the list has such a contract, and the
    first contract of the list when it has none. *)
Theorem selected_contract_is_listed (symbol : string) :
  (selectedContract contracts symbol = None <-> contracts = []) /\
  (forall item,
     selectedContract contracts symbol = Some item ->
     item ∈ contracts /\
     (Page.Pi42Contract.name (contract item) = symbol \/
      (~ listed contracts symbol /\ head contracts = Some item))) /\
  (listed contracts symbol -> contractName contracts symbol = symbol).
Proof.
  split; [apply selectedContract_none|].
  split; [apply selectedContract_cases|].
  intros Hl. destruct (selectedContract_listed symbol Hl) as (item & Hs & _ & Hn).
  unfold contractName. rewrite Hs. exact Hn.
Qed.

Lemma contractName_listed symbol :
  listed contracts symbol -> contractName contracts symbol = symbol.
Proof.
  intros Hl. destruct (selectedContract_listed symbol Hl) as (item & Hs & _ & Hn).
  unfold contractName. rewrite Hs. exact Hn.
Qed.

(** *** The commit *)

Lemma sameDeps_some last next :
  sameDeps last next = true <-> last = Some next.
Proof.
  unfold sameDeps. destruct last as [[a b]|]; [|split; discriminate].
  destruct next as [c d]. cbn [fst snd].
  rewrite andb_true_iff, !String.eqb_eq. split.
  - intros [-> ->]. reflexivity.
  - intros [= -> ->]. auto.
Qed.

Lemma commit_idle st :
  deps st = Some (contractName contracts (selectedSymbol st), interval st) ->
  commit contracts st = st.
Proof.
  intros H. unfold commit.
  rewrite (proj2 (sameDeps_some _ _) H). reflexivity.
Qed.

Lemma commit_fields st :
  selectedSymbol (commit contracts st) = selectedSymbol st /\
  interval (commit contracts st) = interval st /\
  market (commit contracts st) = market st /\
  deps (commit contracts st) =
    Some (contractName contracts (selectedSymbol st), interval st).
Proof.
  unfold commit.
  destruct (sameDeps (deps st) _) eqn:Hsame.
  - apply sameDeps_some in Hsame. auto.
  - destruct (String.eqb _ ""); cbn; auto.
Qed.

Lemma cancel_runs run pending :
  map fetch_run (cancel run pending) = map fetch_run pending.
Proof.
  unfold cancel. rewrite List.map_map. apply List.map_ext.
  intros f. destruct (Nat.eqb (fetch_run f) run); reflexivity.
Qed.

Lemma elem_of_cancel run pending g :
  g ∈ cancel run pending ->
  exists f, f ∈ pending /\ fetch_run g = fetch_run f /\
    (fetch_cancelled g = false -> g = f /\ fetch_run f <> run).
Proof.
  unfold cancel. intros H. apply list_elem_of_fmap in H as (f & -> & Hf).
  exists f. split; [exact Hf|].
  destruct (Nat.eqb_spec (fetch_run f) run); cbn.
  - split; [reflexivity|discriminate].
  - auto.
Qed.

(** After the cleanup of the last run no promise is left uncancelled. *)
Lemma cleanup_cancels st g :
  Invariant st ->
  g ∈ match cleanup st with
      | Some run => cancel run (pending st)
      | None => pending st
      end ->
  fetch_cancelled g = true /\ (fetch_run g < runs st)%nat.
Proof.
  intros [Hruns _ Hcur] Hg.
  rewrite Forall_forall in Hruns, Hcur.
  destruct (cleanup st) as [run|] eqn:Hclean.
  - apply elem_of_cancel in Hg as (f & Hf & Hrun & Hkeep).
    split; [|rewrite Hrun; apply Hruns, Hf].
    destruct (fetch_cancelled g) eqn:Hc; [reflexivity|].
    destruct (Hkeep eq_refl) as [-> Hne].
    destruct (Hcur f Hf Hc) as [Hcl _]. rewrite Hclean in Hcl.
    injection Hcl as Heq. congruence.
  - split; [|apply Hruns, Hg].
    destruct (fetch_cancelled g) eqn:Hc; [reflexivity|].
    destruct (Hcur g Hg Hc) as [Hcl _]. rewrite Hclean in Hcl. discriminate.
Qed.

Lemma cleanup_runs st :
  map fetch_run (match cleanup st with
                 | Some run => cancel run (pending st)
                 | None => pending st
                 end) = map fetch_run (pending st).
Proof. destruct (cleanup st); [apply cancel_runs|reflexivity]. Qed.

Lemma commit_invariant st : Invariant st -> Invariant (commit contracts st).
Proof.
  intros Hinv. unfold commit.
  destruct (sameDeps (deps st) _); [exact Hinv|].
  set (rest := match cleanup st with
               | Some run => cancel run (pending st)
               | None => pending st
               end).
  assert (Hrest : forall g, g ∈ rest ->
            fetch_cancelled g = true /\ (fetch_run g < runs st)%nat)
    by (intros g; apply cleanup_cancels, Hinv).
  assert (Hnodup : NoDup (map fetch_run rest))
    by (unfold rest; rewrite cleanup_runs; apply Hinv).
  destruct (String.eqb _ ""); constructor; cbn [pending runs cleanup deps].
  - apply Forall_forall. intros g Hg. destruct (Hrest g Hg). lia.
  - exact Hnodup.
  - apply Forall_forall. intros g Hg Hc. destruct (Hrest g Hg). congruence.
  - apply Forall_app. split.
    + apply Forall_forall. intros g Hg. destruct (Hrest g Hg). lia.
    + constructor; [cbn; lia|constructor].
  - rewrite map_app. apply NoDup_app. split; [exact Hnodup|]. split.
    + intros r Hr Hnew. cbn in Hnew. apply list_elem_of_singleton in Hnew.
      apply list_elem_of_fmap in Hr as (g & -> & Hg).
      destruct (Hrest g Hg). lia.
    + apply NoDup_singleton.
  - apply Forall_app. split.
    + apply Forall_forall. intros g Hg Hc. destruct (Hrest g Hg). congruence.
    + constructor; [|constructor]. intros _. split; reflexivity.
Qed.

Lemma handleSymbolSelect_invariant symbol st :
  Invariant st -> Invariant (handleSymbolSelect symbol st).
Proof.
  intros [H1 H2 H3]. unfold handleSymbolSelect.
  destruct (String.eqb symbol _); constructor; assumption.
Qed.

Lemma handleIntervalChange_invariant value st :
  Invariant st -> Invariant (handleIntervalChange value st).
Proof.
  intros [H1 H2 H3]. unfold handleIntervalChange.
  destruct (String.eqb value _); constructor; assumption.
Qed.

Lemma NoDup_map_filter {A B : Type} (f : A -> B) (p : A -> bool) (arr : list A) :
  NoDup (map f arr) -> NoDup (map f (List.filter p arr)).
Proof.
  induction arr as [|a arr IH]; intros H; [constructor|].
  cbn in H. apply NoDup_cons in H as [Hnotin Hrest].
  cbn [List.filter]. destruct (p a); [|apply IH, Hrest].
  cbn. apply NoDup_cons. split; [|apply IH, Hrest].
  intros Hin. apply Hnotin.
  apply list_elem_of_fmap in Hin as (x & -> & Hx).
  apply list_elem_of_fmap. exists x. split; [reflexivity|].
  apply elem_of_filter_iff in Hx. tauto.
Qed.

Lemma settle_invariant run outcome st :
  Invariant st -> Invariant (settle run outcome st).
Proof.
  intros [H1 H2 H3]. unfold settle.
  destruct (List.find _ (pending st)); [|constructor; assumption].
  rewrite Forall_forall in H1, H3.
  constructor; cbn [pending runs cleanup deps].
  - apply Forall_forall. intros g Hg. apply H1.
    apply elem_of_filter_iff in Hg. tauto.
  - apply NoDup_map_filter, H2.
  - apply Forall_forall. intros g Hg. apply elem_of_filter_iff in Hg as [Hg _].
    exact (H3 g Hg).
Qed.

Lemma step_invariant st event :
  Invariant st -> Invariant (step contracts st event).
Proof.
  intros H. destruct event; cbn [step]; apply commit_invariant.
  - apply handleSymbolSelect_invariant, H.
  - apply handleIntervalChange_invariant, H.
  - apply settle_invariant, H.
Qed.

Lemma mount_invariant snapshot : Invariant (mount contracts snapshot).
Proof.
  apply commit_invariant. constructor; cbn; constructor.
Qed.

Lemma run_invariant events : forall st,
  Invariant st -> Invariant (run contracts events st).
Proof.
  induction events as [|event events IH]; intros st H; [exact H|].
  apply IH, step_invariant, H.
Qed.

Lemma commit_rendered st : rendered contracts (commit contracts st).
Proof.
  unfold rendered. destruct (commit_fields st) as (-> & -> & _ & ->). reflexivity.
Qed.

Lemma run_rendered events : forall st,
  rendered contracts st -> rendered contracts (run contracts events st).
Proof.
  induction events as [|event events IH]; intros st H; [exact H|].
  apply IH. destruct event; apply commit_rendered.
Qed.

(** A promise is found by its run. *)
Lemma find_by_run st f :
  Invariant st -> f ∈ pending st ->
  List.find (fun g => Nat.eqb (fetch_run g) (fetch_run f)) (pending st) = Some f.
Proof.
  intros [_ Hnodup _]. revert Hnodup.
  induction (pending st) as [|g rest IH]; intros Hnodup Hf.
  - apply elem_of_nil in Hf. contradiction.
  - cbn in Hnodup. apply NoDup_cons in Hnodup as [Hnotin Hrest].
    cbn [List.find].
    apply elem_of_cons in Hf as [->|Hf].
    + rewrite Nat.eqb_refl. reflexivity.
    + destruct (Nat.eqb_spec (fetch_run g) (fetch_run f)) as [Heq|Hne].
      * exfalso. apply Hnotin. rewrite Heq.
        apply list_elem_of_fmap. exists f. auto.
      * apply IH; assumption.
Qed.

Lemma settle_market st f outcome :
  Invariant st -> f ∈ pending st ->
  market (step contracts st (Settle (fetch_run f) outcome)) =
  applyOutcome (fetch_cancelled f) outcome (market st).
Proof.
  intros Hinv Hf. cbn [step].
  destruct (commit_fields (settle (fetch_run f) outcome st)) as (_ & _ & -> & _).
  unfold settle. rewrite (find_by_run st f Hinv Hf). reflexivity.
Qed.

Lemma uncancelled_is_current st f :
  Invariant st -> rendered contracts st ->
  f ∈ pending st -> fetch_cancelled f = false ->
  fetch_symbol f = contractName contracts (selectedSymbol st) /\
  fetch_interval f = interval st.
Proof.
  intros [_ _ Hcur] Hr Hf Hc. rewrite Forall_forall in Hcur.
  destruct (Hcur f Hf Hc) as [_ Hdeps].
  unfold rendered in Hr. rewrite Hr in Hdeps.
  injection Hdeps as -> ->. auto.
Qed.

(** X18: a bundle that arrives for an earlier selection is discarded.  In every
    state the component reaches from its first render, a bundle promise
    that is not cancelled is the one fetched for the contract name and the
    interval now shown; when a promise fetched for another contract or
    another interval settles, with a bundle or with an error, the ticker,
    the depth, the trades, the klines and the loading flag stay as they
    are; when the promise of the current selection resolves, its bundle
    is shown and the loading flag is cleared, and when it rejects the
    data stay and the flag is cleared. *)
Theorem stale_bundles_are_discarded
    (snapshot : Landing.InitialSnapshot.t) (events : list Event) (f : Fetch) :
  let st := run contracts events (mount contracts snapshot) in
  f ∈ pending st ->
  (fetch_cancelled f = false ->
   fetch_symbol f = contractName contracts (selectedSymbol st) /\
   fetch_interval f = interval st) /\
  (forall outcome,
     fetch_symbol f <> contractName contracts (selectedSymbol st) \/
     fetch_interval f <> interval st ->
     let st' := step contracts st (Settle (fetch_run f) outcome) in
     marketData (market st') = marketData (market st) /\
     st_loading (market st') = st_loading (market st)) /\
  (forall bundle,
     fetch_cancelled f = false ->
     let st' := step contracts st (Settle (fetch_run f) (Ok bundle)) in
     marketData (market st') =
       (ticker bundle, depth bundle, trades bundle, klines bundle) /\
     st_loading (market st') = false) /\
  (forall message,
     fetch_cancelled f = false ->
     let st' := step contracts st (Settle (fetch_run f) (Throw message)) in
     marketData (market st') = marketData (market st) /\
     st_loading (market st') = false).
Proof.
  intros st Hf.
  assert (Hinv : Invariant st) by apply run_invariant, mount_invariant.
  assert (Hr : rendered contracts st) by apply run_rendered, commit_rendered.
  split; [apply uncancelled_is_current; assumption|].
  split; [|split].
  - intros outcome Hstale. cbv zeta.
    rewrite (settle_market st f outcome Hinv Hf).
    destruct (fetch_cancelled f) eqn:Hc.
    + destruct outcome; split; reflexivity.
    + destruct (uncancelled_is_current st f Hinv Hr Hf Hc). tauto.
  - intros bundle Hc. cbv zeta.
    rewrite (settle_market st f _ Hinv Hf), Hc. split; reflexivity.
  - intros message Hc. cbv zeta.
    rewrite (settle_market st f _ Hinv Hf), Hc. split; reflexivity.
Qed.

End ComponentFacts.

Section EffectFacts.
Import Dashboard Component.
Variable callApi : ProxyPayload -> Result ApiReply.
Variable String_of_json : Json.t -> string.
Variable asTicker : Json.t -> Envelope Pi42Ticker.t.
Variable asDepth : Json.t -> Envelope Pi42DepthResponse.t.
Variable asTrades : Json.t -> Envelope (list Pi42AggTrade.t).
Variable asKlines : Json.t -> list Pi42Kline.t.

(** The callbacks of the component are those of [refreshBundle], applied
    to the outcome of the fetch. *)
Lemma refreshBundle_applyOutcome contractName interval cancelled st :
  contractName <> "" ->
  (refreshBundle callApi String_of_json asTicker asDepth asTrades asKlines
     contractName interval cancelled st).1 =
  applyOutcome cancelled
    (fetchMarketBundle callApi String_of_json asTicker asDepth asTrades asKlines
       contractName interval).1 st.
Proof.
  intros Hne. unfold refreshBundle, applyOutcome, setLoading.
  destruct (String.eqb_spec contractName ""); [contradiction|].
  destruct (fetchMarketBundle _ _ _ _ _ _ _ _) as [[bundle|message] issued];
    destruct cancelled; reflexivity.
Qed.

End EffectFacts.

Section LoadingFacts.
Import Page.CombinedContractMetrics Dashboard Component.
Variable contracts : list Page.CombinedContractMetrics.t.
Hypothesis names_not_empty :
  forall item, item ∈ contracts -> Page.Pi42Contract.name (contract item) <> "".

Lemma listed_not_empty symbol : listed contracts symbol -> symbol <> "".
Proof. intros (item & Hin & <-). apply names_not_empty, Hin. Qed.

(** A commit whose dependencies have changed, for a contract with a name,
    starts a fetch. *)
Lemma commit_starts st :
  deps st <> Some (contractName contracts (selectedSymbol st), interval st) ->
  contractName contracts (selectedSymbol st) <> "" ->
  waiting (commit contracts st).
Proof.
  intros Hchanged Hname. unfold commit.
  destruct (sameDeps (deps st) _) eqn:Hsame.
  - apply sameDeps_some in Hsame. contradiction.
  - destruct (String.eqb_spec (contractName contracts (selectedSymbol st)) "");
      [contradiction|].
    eexists. cbn [pending]. split; [apply elem_of_app; right; apply list_elem_of_here|].
    reflexivity.
Qed.

Lemma step_loading st event :
  Invariant st -> rendered contracts st ->
  listed contracts (selectedSymbol st) ->
  (st_loading (market st) = true -> waiting st) ->
  offered contracts event ->
  listed contracts (selectedSymbol (step contracts st event)) /\
  (st_loading (market (step contracts st event)) = true ->
   waiting (step contracts st event)).
Proof.
  intros Hinv Hr Hsel Hload Hoffer.
  pose proof (contractName_listed contracts _ Hsel) as Hname.
  unfold rendered in Hr. rewrite Hname in Hr.
  destruct event as [symbol|value|run outcome]; cbn [step offered] in *.
  - unfold handleSymbolSelect.
    destruct (String.eqb_spec symbol (selectedSymbol st)) as [->|Hne].
    + rewrite commit_idle by (rewrite Hname; exact Hr). auto.
    + destruct (commit_fields contracts
                  {| selectedSymbol := symbol; interval := interval st;
                     market := setLoading true (market st); deps := deps st;
                     cleanup := cleanup st; pending := pending st;
                     runs := runs st |}) as (-> & _ & _ & _).
      cbn [selectedSymbol]. split; [exact Hoffer|]. intros _.
      apply commit_starts; cbn [deps selectedSymbol interval];
        rewrite (contractName_listed contracts _ Hoffer).
      * rewrite Hr. congruence.
      * apply listed_not_empty, Hoffer.
  - unfold handleIntervalChange.
    destruct (String.eqb_spec value (interval st)) as [->|Hne].
    + rewrite commit_idle by (rewrite Hname; exact Hr). auto.
    + destruct (commit_fields contracts
                  {| selectedSymbol := selectedSymbol st; interval := value;
                     market := setLoading true (market st); deps := deps st;
                     cleanup := cleanup st; pending := pending st;
                     runs := runs st |}) as (-> & _ & _ & _).
      cbn [selectedSymbol]. split; [exact Hsel|]. intros _.
      apply commit_starts; cbn [deps selectedSymbol interval]; rewrite Hname.
      * rewrite Hr. congruence.
      * apply listed_not_empty, Hsel.
  - assert (Hidle : commit contracts (settle run outcome st) = settle run outcome st).
    { apply commit_idle. unfold settle.
      destruct (List.find _ (pending st)); cbn [deps selectedSymbol interval];
        rewrite Hname; exact Hr. }
    rewrite Hidle. unfold settle.
    destruct (List.find _ (pending st)) as [f|] eqn:Hfind; [|auto].
    cbn [selectedSymbol market pending]. split; [exact Hsel|].
    apply find_elem_of in Hfind as [Hf Hrun]. apply Nat.eqb_eq in Hrun.
    destruct (fetch_cancelled f) eqn:Hc.
    + intros Hl.
      assert (Hbefore : st_loading (market st) = true).
      { destruct outcome; exact Hl. }
      destruct (Hload Hbefore) as (g & Hg & Hgc).
      exists g. split; [|exact Hgc].
      apply elem_of_filter_iff. split; [exact Hg|].
      apply negb_true_iff, Nat.eqb_neq. intros Heq.
      pose proof (find_by_run st g Hinv Hg) as Hfg.
      pose proof (find_by_run st f Hinv Hf) as Hff.
      rewrite Heq, <- Hrun, Hff in Hfg. injection Hfg as <-. congruence.
    + destruct outcome; discriminate.
Qed.

Lemma run_loading events : forall st,
  Invariant st -> rendered contracts st ->
  listed contracts (selectedSymbol st) ->
  (st_loading (market st) = true -> waiting st) ->
  Forall (offered contracts) events ->
  st_loading (market (run contracts events st)) = true ->
  waiting (run contracts events st).
Proof.
  induction events as [|event events IH]; intros st Hinv Hr Hsel Hload Hoffer;
    [exact Hload|].
  apply Forall_cons in Hoffer as [Hevent Hrest].
  destruct (step_loading st event Hinv Hr Hsel Hload Hevent) as [Hsel' Hload'].
  apply IH; try assumption.
  - apply step_invariant, Hinv.
  - destruct event; apply commit_rendered.
Qed.

End LoadingFacts.

Section LoadingClaim.
Import Page.CombinedContractMetrics Dashboard Component.

(** X19: the loading flag is on only while the bundle of the current selection
    is being fetched.  For a non-empty contract list whose contracts have
    names, a snapshot that names one of them (or none), and selections
    among the symbols the table offers: in every state the component
    reaches, if the flag is on, a promise that is not cancelled has yet
    to settle, and it is the one fetched for the selected symbol and the
    interval shown. *)
Theorem loading_means_fetch_in_flight
    (contracts : list Page.CombinedContractMetrics.t)
    (snapshot : Landing.InitialSnapshot.t) (events : list Event) :
  contracts <> [] ->
  (forall item, item ∈ contracts ->
     Page.Pi42Contract.name (contract item) <> "") ->
  (forall symbol, Landing.InitialSnapshot.contract snapshot = Some symbol ->
     listed contracts symbol) ->
  Forall (offered contracts) events ->
  let st := run contracts events (mount contracts snapshot) in
  st_loading (market st) = true ->
  exists f, f ∈ pending st /\ fetch_cancelled f = false /\
    fetch_symbol f = selectedSymbol st /\ fetch_interval f = interval st.
Proof.
  intros Hne Hnames Hsnap Hoffer st Hl.
  assert (Hinv : Invariant st) by apply run_invariant, mount_invariant.
  assert (Hr : rendered contracts st) by apply run_rendered, commit_rendered.
  assert (Hinit : listed contracts (initialSymbol snapshot contracts)).
  { unfold initialSymbol.
    destruct (Landing.InitialSnapshot.contract snapshot) as [symbol|];
      [apply Hsnap; reflexivity|].
    destruct contracts as [|item rest]; [contradiction|].
    exists item. split; [apply list_elem_of_here|reflexivity]. }
  assert (Hmount : selectedSymbol (mount contracts snapshot) =
                   initialSymbol snapshot contracts /\
                   st_loading (market (mount contracts snapshot)) = false).
  { unfold mount.
    destruct (commit_fields contracts
                {| selectedSymbol := initialSymbol snapshot contracts;
                   interval := "1h";
                   market :=
                     {| st_ticker := Landing.InitialSnapshot.ticker snapshot;
                        st_depth := Landing.InitialSnapshot.depth snapshot;
                        st_trades := Landing.InitialSnapshot.trades snapshot;
                        st_klines := Landing.InitialSnapshot.klines snapshot;
                        st_loading := false; st_console := [] |};
                   deps := None; cleanup := None; pending := []; runs := 0 |})
      as (-> & _ & -> & _). split; reflexivity. }
  destruct Hmount as [Hsym Hfalse].
  assert (Hsel : forall evs st0,
            Invariant st0 -> rendered contracts st0 ->
            listed contracts (selectedSymbol st0) ->
            (st_loading (market st0) = true -> waiting st0) ->
            Forall (offered contracts) evs ->
            listed contracts (selectedSymbol (run contracts evs st0))).
  { induction evs as [|event evs IH]; intros st0 H1 H2 H3 H4 H5; [exact H3|].
    apply Forall_cons in H5 as [Hevent Hrest].
    destruct (step_loading contracts Hnames st0 event H1 H2 H3 H4 Hevent)
      as [H3' H4'].
    apply IH; try assumption.
    - apply step_invariant, H1.
    - destruct event; apply commit_rendered. }
  assert (Hw : waiting st).
  { apply (run_loading contracts Hnames); try assumption.
    - apply mount_invariant.
    - apply commit_rendered.
    - rewrite Hsym. exact Hinit.
    - rewrite Hfalse. discriminate. }
  destruct Hw as (f & Hf & Hc). exists f. split; [exact Hf|]. split; [exact Hc|].
  destruct (uncancelled_is_current contracts st f Hinv Hr Hf Hc) as [-> ->].
  split; [|reflexivity].
  apply contractName_listed, Hsel; try assumption.
  - apply mount_invariant.
  - apply commit_rendered.
  - rewrite Hsym. exact Hinit.
  - rewrite Hfalse. discriminate.
Qed.

(** The dashboard of three contracts after the user picks ETHINR: the
    promise for BTCINR is stale, and its bundle is discarded; the flag is
    on, and the promise for ETHINR is the one to wait for. *)
Lemma stale_bundles_are_discarded_witness :
  marketData
    (market (run sampleContracts
               [SelectSymbol "ETHINR"; Settle 0 (Ok sampleBundle)]
               (mount sampleContracts sampleSnapshot))) =
  (None, None, [], []) /\
  marketData
    (market (run sampleContracts
               [SelectSymbol "ETHINR"; Settle 1 (Ok sampleBundle)]
               (mount sampleContracts sampleSnapshot))) =
  (None, None, Realtime.sampleTrades 1, []).
Proof.
  pose proof (stale_bundles_are_discarded sampleContracts sampleSnapshot
                [SelectSymbol "ETHINR"]
                {| fetch_run := 0; fetch_symbol := "BTCINR";
                   fetch_interval := "1h"; fetch_cancelled := true |}) as Hold.
  pose proof (stale_bundles_are_discarded sampleContracts sampleSnapshot
                [SelectSymbol "ETHINR"]
                {| fetch_run := 1; fetch_symbol := "ETHINR";
                   fetch_interval := "1h"; fetch_cancelled := false |}) as Hnew.
  cbv zeta in Hold, Hnew. split.
  - destruct Hold as (_ & Hstale & _).
    { vm_compute. apply list_elem_of_here. }
    destruct (Hstale (Ok sampleBundle)) as [Hdata _];
      [left; vm_compute; discriminate|].
    exact Hdata.
  - destruct Hnew as (_ & _ & Hfresh & _).
    { vm_compute. apply list_elem_of_further, list_elem_of_here. }
    exact (proj1 (Hfresh sampleBundle eq_refl)).
Defined.

Lemma loading_means_fetch_in_flight_witness :
  exists f,
    f ∈ pending (run sampleContracts [SelectSymbol "ETHINR"]
                   (mount sampleContracts sampleSnapshot)) /\
    fetch_cancelled f = false /\
    fetch_symbol f = "ETHINR" /\ fetch_interval f = "1h".
Proof.
  apply (loading_means_fetch_in_flight sampleContracts sampleSnapshot
           [SelectSymbol "ETHINR"]).
  - discriminate.
  - intros item Hin. unfold sampleContracts in Hin.
    repeat (apply elem_of_cons in Hin as [->|Hin]; [discriminate|]).
    apply elem_of_nil in Hin. contradiction.
  - intros symbol [= <-]. eexists. split; [apply list_elem_of_here|reflexivity].
  - constructor; [|constructor].
    eexists. split; [apply list_elem_of_further, list_elem_of_here|reflexivity].
  - reflexivity.
Defined.

End LoadingClaim.

(** ** The depth chart: the keys of the map *)

Section KeyFacts.
Import DepthSeries.

Lemma SFeqb_finite s m e s' m' e' :
  SFeqb (S754_finite s m e) (S754_finite s' m' e') = true <->
  s = s' /\ m = m' /\ e = e'.
Proof.
  unfold SFeqb. cbn [SFcompare].
  change (Pos.compare_cont Eq m m') with (Pos.compare m m').
  destruct s, s'; cbn;
    destruct (Z.compare_spec e e') as [->|H|H];
    try destruct (Pos.compare_spec m m') as [->|H'|H'];
    cbn; split; try discriminate; try tauto;
    intros (? & ? & ?); try discriminate; subst; lia.
Qed.

(** Two numbers are the same key exactly when their classes are equal. *)
Lemma SFeqb_finite_refl s m e :
  SFeqb (S754_finite s m e) (S754_finite s m e) = true.
Proof. apply SFeqb_finite. auto. Qed.

Lemma sameValueZero_keyClass x y :
  sameValueZero x y = true <-> keyClass x = keyClass y.
Proof.
  unfold sameValueZero, PrimFloat.is_nan, keyClass.
  rewrite !FloatAxioms.eqb_spec.
  destruct (Prim2SF x) as [sx|sx| |sx mx ex] eqn:Hx;
    destruct (Prim2SF y) as [sy|sy| |sy my ey] eqn:Hy;
    rewrite ?SFeqb_finite_refl;
    try (destruct sx); try (destruct sy);
    try (cbn; split; intros H; (discriminate H || reflexivity)).
  all: cbn [negb andb]; rewrite ?andb_false_r, orb_false_r, SFeqb_finite.
  all: split; [intros (H1 & -> & ->); try discriminate H1; reflexivity|].
  all: intros [= -> ->]; auto.
Qed.

Lemma sameValueZero_refl x : sameValueZero x x = true.
Proof. apply sameValueZero_keyClass. reflexivity. Qed.

Lemma sameValueZero_sym x y : sameValueZero x y = sameValueZero y x.
Proof.
  apply eq_true_iff_eq. rewrite !sameValueZero_keyClass. split; congruence.
Qed.

Lemma sameValueZero_trans x y z :
  sameValueZero x y = true -> sameValueZero x z = sameValueZero y z.
Proof.
  intros H. apply sameValueZero_keyClass in H.
  apply eq_true_iff_eq. rewrite !sameValueZero_keyClass, H. reflexivity.
Qed.

Lemma sameValueZero_false x y :
  sameValueZero x y = false <-> keyClass x <> keyClass y.
Proof.
  rewrite <- sameValueZero_keyClass. symmetry. apply not_true_iff_false.
Qed.

(** No key of [keys] is the same key as [key]. *)
Lemma existsb_false_class keys key :
  existsb (fun k => sameValueZero k key) keys = false <->
  keyClass key ∉ map keyClass keys.
Proof.
  induction keys as [|k rest IH]; cbn.
  - split; [intros _ H; apply elem_of_nil in H; exact H|reflexivity].
  - rewrite orb_false_iff, IH, sameValueZero_false, not_elem_of_cons.
    split; intros [H1 H2]; split; congruence.
Qed.

Lemma existsb_true_class keys key :
  existsb (fun k => sameValueZero k key) keys = true <->
  keyClass key ∈ map keyClass keys.
Proof.
  induction keys as [|k rest IH]; cbn.
  - split; [discriminate|intros H; apply elem_of_nil in H; contradiction].
  - rewrite orb_true_iff, IH, sameValueZero_keyClass, elem_of_cons.
    split; intros [H|H]; auto.
Qed.

End KeyFacts.

(** ** The depth chart: the map as a table of its keys *)

Section MapFacts.
Import DepthSeries.
Variable Number : string -> number.

Lemma get_entries point keys key :
  get key (entries point keys) =
  point <$> List.find (fun k => sameValueZero k key) keys.
Proof.
  induction keys as [|k rest IH]; cbn; [reflexivity|].
  destruct (sameValueZero k key); [reflexivity|exact IH].
Qed.

Lemma entries_ext point point' keys :
  (forall k, k ∈ keys -> point k = point' k) ->
  entries point keys = entries point' keys.
Proof.
  intros H. unfold entries. apply List.map_ext_in.
  intros k Hk. rewrite (H k) by (apply list_elem_of_In, Hk). reflexivity.
Qed.

Lemma entries_cons point k keys :
  entries point (k :: keys) = (k, point k) :: entries point keys.
Proof. reflexivity. Qed.

Lemma entries_app point keys more :
  entries point (keys ++ more) = entries point keys ++ entries point more.
Proof. apply List.map_app. Qed.

Lemma values_entries point keys : values (entries point keys) = map point keys.
Proof.
  unfold values, entries. rewrite List.map_map. reflexivity.
Qed.

Lemma class_not_in keys key k :
  keyClass key ∉ map keyClass keys -> k ∈ keys -> sameValueZero k key = false.
Proof.
  intros Hout Hk. apply sameValueZero_false. intros Heq. apply Hout.
  rewrite <- Heq. apply list_elem_of_fmap. exists k. auto.
Qed.

Lemma class_inj keys k k' :
  NoDup (map keyClass keys) -> k ∈ keys -> k' ∈ keys ->
  keyClass k = keyClass k' -> k = k'.
Proof.
  induction keys as [|a rest IH]; intros Hnd Hk Hk' Heq.
  - apply elem_of_nil in Hk. contradiction.
  - cbn in Hnd. apply NoDup_cons in Hnd as [Hout Hrest].
    apply elem_of_cons in Hk as [->|Hk]; apply elem_of_cons in Hk' as [->|Hk'].
    + reflexivity.
    + exfalso. apply Hout. rewrite Heq.
      apply list_elem_of_fmap. exists k'. auto.
    + exfalso. apply Hout. rewrite <- Heq.
      apply list_elem_of_fmap. exists k. auto.
    + apply IH; assumption.
Qed.

Lemma set_entries_miss point keys key value :
  keyClass key ∉ map keyClass keys ->
  set key value (entries point keys) = entries point keys ++ [(key, value)].
Proof.
  induction keys as [|k rest IH]; intros Hout; [reflexivity|].
  rewrite entries_cons. cbn [set].
  rewrite (class_not_in (k :: rest) key k Hout) by apply list_elem_of_here.
  rewrite IH; [reflexivity|].
  intros Hin. apply Hout. cbn. apply list_elem_of_further, Hin.
Qed.

Lemma set_entries_hit point keys key value :
  NoDup (map keyClass keys) ->
  keyClass key ∈ map keyClass keys ->
  set key value (entries point keys) =
  entries (fun k => if sameValueZero k key then value else point k) keys.
Proof.
  induction keys as [|k rest IH]; intros Hnd Hin.
  - apply elem_of_nil in Hin. contradiction.
  - cbn in Hnd. apply NoDup_cons in Hnd as [Hout Hrest].
    rewrite !entries_cons. cbn [set].
    destruct (sameValueZero k key) eqn:Hk.
    + f_equal. apply entries_ext. intros k' Hk'.
      rewrite (class_not_in rest key k'); [reflexivity| |exact Hk'].
      apply sameValueZero_keyClass in Hk. rewrite <- Hk. exact Hout.
    + f_equal. apply IH; [exact Hrest|].
      cbn in Hin. apply elem_of_cons in Hin as [Heq|Hin]; [|exact Hin].
      apply sameValueZero_false in Hk. congruence.
Qed.

Lemma find_hit keys key :
  keyClass key ∈ map keyClass keys ->
  exists k, List.find (fun k => sameValueZero k key) keys = Some k /\
    k ∈ keys /\ sameValueZero k key = true.
Proof.
  intros Hin. apply existsb_true_class in Hin.
  destruct (List.find (fun k => sameValueZero k key) keys) as [k|] eqn:Hfind.
  - apply find_elem_of in Hfind as [Hk Hp]. eauto.
  - apply List.existsb_exists in Hin as (k & Hk & Hp).
    rewrite (List.find_none _ _ Hfind k Hk) in Hp. discriminate.
Qed.

Lemma find_miss keys key :
  keyClass key ∉ map keyClass keys ->
  List.find (fun k => sameValueZero k key) keys = None.
Proof.
  intros Hout.
  destruct (List.find (fun k => sameValueZero k key) keys) as [k|] eqn:Hfind;
    [|reflexivity].
  apply find_elem_of in Hfind as [Hk Hp].
  rewrite (class_not_in keys key k Hout Hk) in Hp. discriminate.
Qed.

Lemma addKey_classes keys key c :
  c ∈ map keyClass (addKey keys key) <->
  c ∈ map keyClass keys \/ c = keyClass key.
Proof.
  unfold addKey.
  destruct (existsb (fun k => sameValueZero k key) keys) eqn:H.
  - apply existsb_true_class in H. split; [auto|].
    intros [Hc| ->]; assumption.
  - rewrite map_app. cbn. rewrite elem_of_app, list_elem_of_singleton.
    reflexivity.
Qed.

Lemma addKey_NoDup keys key :
  NoDup (map keyClass keys) -> NoDup (map keyClass (addKey keys key)).
Proof.
  intros Hnd. unfold addKey.
  destruct (existsb (fun k => sameValueZero k key) keys) eqn:H; [exact Hnd|].
  apply existsb_false_class in H.
  rewrite map_app. apply NoDup_app. split; [exact Hnd|]. split.
  - intros c Hc Hkey. cbn in Hkey. apply list_elem_of_singleton in Hkey.
    subst c. contradiction.
  - apply NoDup_singleton.
Qed.

Lemma distinctKeys_NoDup keys : forall seen,
  NoDup (map keyClass seen) ->
  NoDup (map keyClass (fold_left addKey keys seen)).
Proof.
  induction keys as [|k rest IH]; intros seen H; [exact H|].
  cbn. apply IH, addKey_NoDup, H.
Qed.

Lemma addKey_length keys key :
  (length (addKey keys key) <= S (length keys))%nat.
Proof.
  unfold addKey. destruct (existsb _ keys); [lia|].
  rewrite length_app. cbn. lia.
Qed.

Lemma distinctKeys_length keys : forall seen,
  (length (fold_left addKey keys seen) <= length seen + length keys)%nat.
Proof.
  induction keys as [|k rest IH]; intros seen; cbn; [lia|].
  specialize (IH (addKey seen k)). pose proof (addKey_length seen k). lia.
Qed.

Lemma distinctKeys_elem_of keys : forall seen k,
  k ∈ fold_left addKey keys seen -> k ∈ seen \/ k ∈ keys.
Proof.
  induction keys as [|a rest IH]; intros seen k Hk; [auto|].
  cbn in Hk. apply IH in Hk as [Hk|Hk].
  - unfold addKey in Hk. destruct (existsb _ seen); [auto|].
    apply elem_of_app in Hk as [Hk|Hk]; [auto|].
    apply list_elem_of_singleton in Hk. subst. right. apply list_elem_of_here.
  - right. apply list_elem_of_further, Hk.
Qed.

Section Side.
Variable update : number -> DepthPoint -> DepthPoint.
Variable view : list (number * number) -> number -> DepthPoint.
Hypothesis view_snoc : forall totals key c k,
  view (totals ++ [(key, c)]) k =
  if sameValueZero key k then update c (view totals k) else view totals k.

(** One level of a side. *)
Lemma addWith_entries totals keys acc level :
  NoDup (map keyClass keys) ->
  (forall key, keyClass key ∉ map keyClass keys -> view totals key = newPoint key) ->
  addWith Number update (acc, entries (view totals) keys) level =
  ((acc + Number level.2)%float,
   entries (view (totals ++ [(Number level.1, (acc + Number level.2)%float)]))
     (addKey keys (Number level.1))).
Proof.
  intros Hnd Hnew. unfold addWith. cbn [fst snd]. f_equal.
  set (key := Number level.1). set (c := (acc + Number level.2)%float).
  rewrite get_entries. unfold addKey.
  destruct (existsb (fun k => sameValueZero k key) keys) eqn:Hex.
  - apply existsb_true_class in Hex.
    destruct (find_hit keys key Hex) as (k0 & -> & Hk0 & Hsame). cbn.
    rewrite set_entries_hit by assumption.
    apply entries_ext. intros k Hk. rewrite view_snoc.
    rewrite (sameValueZero_sym key k).
    destruct (sameValueZero k key) eqn:Hkk; [|reflexivity].
    rewrite (class_inj keys k k0 Hnd Hk Hk0); [reflexivity|].
    apply sameValueZero_keyClass in Hkk, Hsame. congruence.
  - apply existsb_false_class in Hex.
    rewrite (find_miss keys key Hex). cbn.
    rewrite set_entries_miss by assumption.
    rewrite entries_app. cbn. f_equal.
    + apply entries_ext. intros k Hk. rewrite view_snoc.
      rewrite (sameValueZero_sym key k), (class_not_in keys key k Hex Hk).
      reflexivity.
    + rewrite view_snoc, sameValueZero_refl, (Hnew key Hex). reflexivity.
Qed.

(** All levels of a side. *)
Lemma fold_addWith levels : forall acc totals keys,
  NoDup (map keyClass keys) ->
  (forall key, keyClass key ∉ map keyClass keys -> view totals key = newPoint key) ->
  (fold_left (addWith Number update) levels
     (acc, entries (view totals) keys)).2 =
  entries (view (totals ++ runningTotals Number acc levels))
    (fold_left addKey (map fst (runningTotals Number acc levels)) keys) /\
  (forall key,
     keyClass key ∉
       map keyClass
         (fold_left addKey (map fst (runningTotals Number acc levels)) keys) ->
     view (totals ++ runningTotals Number acc levels) key = newPoint key).
Proof.
  induction levels as [|[price qty] rest IH]; intros acc totals keys Hnd Hnew.
  - cbn. rewrite app_nil_r. auto.
  - cbn [fold_left runningTotals map fst].
    rewrite (addWith_entries totals keys acc (price, qty) Hnd Hnew). cbn [fst snd].
    replace (totals ++ (Number price, (acc + Number qty)%float) ::
               runningTotals Number (acc + Number qty)%float rest)
      with ((totals ++ [(Number price, (acc + Number qty)%float)]) ++
            runningTotals Number (acc + Number qty)%float rest)
      by (rewrite <- app_assoc; reflexivity).
    apply IH; [apply addKey_NoDup, Hnd|].
    intros key Hout. rewrite view_snoc.
    assert (Hne : sameValueZero (Number price) key = false).
    { apply sameValueZero_false. intros Heq. apply Hout.
      apply addKey_classes. right. congruence. }
    rewrite Hne. apply Hnew. intros Hin. apply Hout, addKey_classes. auto.
Qed.

End Side.

Lemma liquidityAt_snoc totals key c k :
  liquidityAt k (totals ++ [(key, c)]) =
  if sameValueZero key k then c else liquidityAt k totals.
Proof. unfold liquidityAt. rewrite fold_left_app. reflexivity. Qed.

Lemma addBid_addWith state level :
  addBid Number state level = addWith Number setBid state level.
Proof. destruct state, level. reflexivity. Qed.

Lemma addAsk_addWith state level :
  addAsk Number state level = addWith Number setAsk state level.
Proof. destruct state, level. reflexivity. Qed.

Lemma fold_left_ext {A B : Type} (f g : A -> B -> A) (arr : list B) : forall a,
  (forall a b, f a b = g a b) -> fold_left f arr a = fold_left g arr a.
Proof.
  induction arr as [|b rest IH]; intros a H; [reflexivity|].
  cbn. rewrite H. apply IH, H.
Qed.

(** The map after both sides: one entry for each distinct price, in the
    order of first occurrence, with the liquidity of either side. *)
Lemma depthMap_entries bids asks :
  let totalsB := runningTotals Number 0%float bids in
  let totalsA := runningTotals Number 0%float asks in
  let keys := distinctKeys (map fst totalsB ++ map fst totalsA) in
  (fold_left (addAsk Number) asks
     (0%float, (fold_left (addBid Number) bids (0%float, [])).2)).2 =
  entries (pointAt totalsB totalsA) keys /\
  NoDup (map keyClass keys).
Proof.
  cbv zeta.
  set (totalsB := runningTotals Number 0%float bids).
  set (totalsA := runningTotals Number 0%float asks).
  rewrite (fold_left_ext (addBid Number) (addWith Number setBid))
    by apply addBid_addWith.
  rewrite (fold_left_ext (addAsk Number) (addWith Number setAsk))
    by apply addAsk_addWith.
  destruct (fold_addWith setBid (fun totals => pointAt totals [])
              ltac:(intros; unfold pointAt; rewrite liquidityAt_snoc;
                    destruct (sameValueZero _ _); reflexivity)
              bids 0%float [] []) as [HB HnewB].
  { constructor. }
  { reflexivity. }
  change (entries (pointAt [] []) []) with (@nil (number * DepthPoint)) in HB.
  cbn [app] in HB, HnewB. fold totalsB in HB, HnewB.
  unfold DepthMap, number in *. rewrite HB.
  destruct (fold_addWith setAsk (fun totals => pointAt totalsB totals)
              ltac:(intros; unfold pointAt; rewrite liquidityAt_snoc;
                    destruct (sameValueZero _ _); reflexivity)
              asks 0%float [] (fold_left addKey (map fst totalsB) []))
    as [HA _].
  { apply distinctKeys_NoDup. constructor. }
  { exact HnewB. }
  cbn [app] in HA. fold totalsA in HA.
  unfold DepthMap, number in *. rewrite HA. unfold distinctKeys. rewrite fold_left_app.
  split; [reflexivity|].
  apply distinctKeys_NoDup, distinctKeys_NoDup. constructor.
Qed.

End MapFacts.

(** ** The depth chart: the series *)

Section SeriesFacts.
Import DepthSeries.
Variable Number : string -> number.

#[local] Abbreviation byPrice :=
  (fun a b : DepthPoint => (price a - price b)%float).

Lemma runningTotals_keys levels : forall acc,
  map fst (runningTotals Number acc levels) = map (fun level => Number level.1) levels.
Proof.
  induction levels as [|[price qty] rest IH]; intros acc; [reflexivity|].
  cbn. rewrite IH. reflexivity.
Qed.

Lemma distinctKeys_classes keys : forall seen c,
  c ∈ map keyClass seen \/ c ∈ map keyClass keys ->
  c ∈ map keyClass (fold_left addKey keys seen).
Proof.
  induction keys as [|k rest IH]; intros seen c [H|H].
  - exact H.
  - apply elem_of_nil in H. contradiction.
  - cbn. apply IH. left. apply addKey_classes. auto.
  - cbn. apply IH. cbn in H. apply elem_of_cons in H as [->|H]; [|auto].
    left. apply addKey_classes. auto.
Qed.

Lemma buildDepthSeries_entries depth :
  buildDepthSeries Number (Some depth) =
  JsSort.sort byPrice
    (map (pointAt
            (runningTotals Number 0%float (top20 (Pi42DepthResponse.b depth)))
            (runningTotals Number 0%float (top20 (Pi42DepthResponse.a depth))))
       (distinctKeys
          (map fst (runningTotals Number 0%float (top20 (Pi42DepthResponse.b depth))) ++
           map fst (runningTotals Number 0%float (top20 (Pi42DepthResponse.a depth)))))).
Proof.
  unfold buildDepthSeries.
  change 20 with (Z.of_nat 20). rewrite !slice_0_take. fold (top20 (Pi42DepthResponse.b depth)).
  fold (top20 (Pi42DepthResponse.a depth)).
  pose proof (depthMap_entries Number (top20 (Pi42DepthResponse.b depth))
                (top20 (Pi42DepthResponse.a depth))) as [H _].
  cbv zeta in H.
  destruct (fold_left (addBid Number) _ (0%float, [])) as [cb mb]. cbn [snd] in H.
  destruct (fold_left (addAsk Number) _ (0%float, mb)) as [ca ma]. cbn [snd] in H.
  rewrite H, values_entries. reflexivity.
Qed.

Lemma buildDepthSeries_described (depth : Pi42DepthResponse.t) :
  let bids := runningTotals Number 0%float (top20 (Pi42DepthResponse.b depth)) in
  let asks := runningTotals Number 0%float (top20 (Pi42DepthResponse.a depth)) in
  let prices := distinctKeys (map fst bids ++ map fst asks) in
  let series := buildDepthSeries Number (Some depth) in
  buildDepthSeries Number None = [] /\
  series = JsSort.sort byPrice (map (pointAt bids asks) prices) /\
  Permutation series (map (pointAt bids asks) prices) /\
  NoDup (map keyClass prices) /\
  (forall point, point ∈ series ->
     bidLiquidity point = liquidityAt (price point) bids /\
     askLiquidity point = liquidityAt (price point) asks /\
     exists level,
       level ∈ top20 (Pi42DepthResponse.b depth) ++
               top20 (Pi42DepthResponse.a depth) /\
       price point = Number level.1) /\
  (forall level,
     level ∈ top20 (Pi42DepthResponse.b depth) ++
             top20 (Pi42DepthResponse.a depth) ->
     exists point, point ∈ series /\
       sameValueZero (price point) (Number level.1) = true) /\
  (length series <= 40)%nat.
Proof.
  cbv zeta.
  set (bids := runningTotals Number 0%float (top20 (Pi42DepthResponse.b depth))).
  set (asks := runningTotals Number 0%float (top20 (Pi42DepthResponse.a depth))).
  set (prices := distinctKeys (map fst bids ++ map fst asks)).
  assert (Hkeys : map fst bids ++ map fst asks =
                  map (fun level => Number level.1)
                    (top20 (Pi42DepthResponse.b depth) ++
                     top20 (Pi42DepthResponse.a depth))).
  { unfold bids, asks. rewrite !runningTotals_keys, map_app. reflexivity. }
  pose proof (buildDepthSeries_entries depth) as Hseries.
  fold bids asks prices in Hseries.
  assert (Hperm : Permutation (buildDepthSeries Number (Some depth))
                    (map (pointAt bids asks) prices))
    by (rewrite Hseries; apply sort_perm).
  split; [reflexivity|]. split; [exact Hseries|]. split; [exact Hperm|].
  split; [apply distinctKeys_NoDup; constructor|]. split; [|split].
  - intros point Hpoint. rewrite Hperm in Hpoint.
    apply list_elem_of_fmap in Hpoint as (key & -> & Hkey).
    split; [reflexivity|]. split; [reflexivity|]. cbn [price pointAt].
    apply distinctKeys_elem_of in Hkey as [Hkey|Hkey];
      [apply elem_of_nil in Hkey; contradiction|].
    rewrite Hkeys in Hkey.
    apply list_elem_of_fmap in Hkey as (level & -> & Hlevel). eauto.
  - intros level Hlevel.
    assert (Hclass : keyClass (Number level.1) ∈ map keyClass prices).
    { apply distinctKeys_classes. right. rewrite Hkeys.
      apply list_elem_of_fmap. exists (Number level.1). split; [reflexivity|].
      apply list_elem_of_fmap. exists level. auto. }
    apply list_elem_of_fmap in Hclass as (key & Heq & Hkey).
    exists (pointAt bids asks key). split.
    + rewrite Hperm. apply list_elem_of_fmap. exists key. auto.
    + apply sameValueZero_keyClass. cbn [price pointAt]. congruence.
  - rewrite Hperm, length_map.
    pose proof (distinctKeys_length (map fst bids ++ map fst asks) []) as Hlen.
    fold (distinctKeys (map fst bids ++ map fst asks)) in Hlen. fold prices in Hlen.
    rewrite Hkeys, length_map, length_app in Hlen. unfold top20 in Hlen.
    rewrite !length_take in Hlen. cbn [length] in Hlen. lia.
Qed.

(** X20: the depth series in words.  Without a depth snapshot the series is
    empty.  With one, the series holds, in some order, one point for each
    distinct price among the first twenty bid and the first twenty ask
    levels (prices are told apart as [Map] keys are); the bid liquidity of
    a point is the bid quantity accumulated up to the last of those bid
    levels that has its price, and [0] when none has, and likewise the
    ask liquidity.  So there are at most 40 points, every point stands
    for a price of the book, and every price of those levels has its
    point. *)
Theorem depth_series_in_words (depth : Pi42DepthResponse.t) :
  let bids := runningTotals Number 0%float (top20 (Pi42DepthResponse.b depth)) in
  let asks := runningTotals Number 0%float (top20 (Pi42DepthResponse.a depth)) in
  let prices := distinctKeys (map fst bids ++ map fst asks) in
  let series := buildDepthSeries Number (Some depth) in
  buildDepthSeries Number None = [] /\
  Permutation series (map (pointAt bids asks) prices) /\
  NoDup (map keyClass prices) /\
  (forall point, point ∈ series ->
     bidLiquidity point = liquidityAt (price point) bids /\
     askLiquidity point = liquidityAt (price point) asks /\
     exists level,
       level ∈ top20 (Pi42DepthResponse.b depth) ++
               top20 (Pi42DepthResponse.a depth) /\
       price point = Number level.1) /\
  (forall level,
     level ∈ top20 (Pi42DepthResponse.b depth) ++
             top20 (Pi42DepthResponse.a depth) ->
     exists point, point ∈ series /\
       sameValueZero (price point) (Number level.1) = true) /\
  (length series <= 40)%nat.
Proof.
  cbv zeta.
  destruct (buildDepthSeries_described depth) as (H1 & _ & H2 & H3 & H4 & H5 & H6).
  auto 10.
Qed.

Lemma ltb_opp a b : (- a <? - b) = (b <? a).
Proof.
  destruct (Z.ltb_spec (- a) (- b)), (Z.ltb_spec b a); try reflexivity; lia.
Qed.

Lemma StronglySorted_strict {A B : Type} (f : A -> B) (R R' : A -> A -> Prop)
    (arr : list A) :
  (forall x y, x ∈ arr -> y ∈ arr -> R x y -> f x <> f y -> R' x y) ->
  NoDup (map f arr) -> StronglySorted R arr -> StronglySorted R' arr.
Proof.
  induction arr as [|a rest IH]; intros Himpl Hnd Hsorted; [constructor|].
  cbn in Hnd. apply NoDup_cons in Hnd as [Hout Hrest].
  apply StronglySorted_inv in Hsorted as [Hs Ha]. constructor.
  - apply IH; [|exact Hrest|exact Hs].
    intros x y Hx Hy. apply Himpl; apply list_elem_of_further; assumption.
  - rewrite Forall_forall in Ha |- *. intros y Hy.
    apply Himpl; [apply list_elem_of_here|apply list_elem_of_further, Hy
                 |apply Ha, Hy|].
    intros Heq. apply Hout. rewrite Heq.
    apply list_elem_of_fmap. exists y. auto.
Qed.

(** X21: when the prices of the first twenty levels of either side read as
    finite numbers, the series is strictly ascending by price: no two
    points share a price, and the chart's x axis runs from the lowest
    price to the highest. *)
Theorem depth_series_ascending (depth : Pi42DepthResponse.t) :
  (forall level,
     level ∈ top20 (Pi42DepthResponse.b depth) ++
             top20 (Pi42DepthResponse.a depth) ->
     PrimFloat.is_finite (Number level.1) = true) ->
  ascending (buildDepthSeries Number (Some depth)).
Proof.
  intros Hfinite.
  destruct (buildDepthSeries_described depth)
    as (_ & Hseries & Hperm & Hnd & Hpoints & _ & _).
  cbv zeta in Hseries, Hperm, Hnd, Hpoints.
  set (bids := runningTotals Number 0%float (top20 (Pi42DepthResponse.b depth))) in *.
  set (asks := runningTotals Number 0%float (top20 (Pi42DepthResponse.a depth))) in *.
  set (prices := distinctKeys (map fst bids ++ map fst asks)) in *.
  set (points := map (pointAt bids asks) prices) in *.
  assert (Hfin : forall point, point ∈ points ->
            PrimFloat.is_finite (price point) = true).
  { intros point Hpoint. rewrite <- Hperm in Hpoint.
    destruct (Hpoints point Hpoint) as (_ & _ & level & Hlevel & ->).
    apply Hfinite, Hlevel. }
  destruct (ranked_sort byPrice (fun point => - Binary64.rank (price point)) points)
    as (_ & Hsorted & _).
  { intros x y Hx Hy. unfold JsSort.comes_after.
    rewrite (difference_rank (price y) (price x)) by (apply Hfin; assumption).
    symmetry. apply ltb_opp. }
  rewrite Hseries. fold points.
  apply (StronglySorted_strict (fun point => keyClass (price point))
           (fun x y => - Binary64.rank (price y) <= - Binary64.rank (price x))).
  - intros x y Hx Hy Hle Hne. apply sort_elem_of in Hx, Hy.
    rewrite ltb_rank by (apply Hfin; assumption). apply Z.ltb_lt.
    assert (Binary64.rank (price x) <> Binary64.rank (price y)); [|lia].
    intros Heq. apply Hne, sameValueZero_keyClass. unfold sameValueZero.
    rewrite eqb_rank by (apply Hfin; assumption).
    rewrite Heq, Z.eqb_refl. reflexivity.
  - assert (Hp : Permutation (map (fun point => keyClass (price point))
                                (JsSort.sort byPrice points))
                   (map keyClass prices)).
    { rewrite (sort_perm byPrice points). unfold points.
      rewrite List.map_map. reflexivity. }
    rewrite Hp. exact Hnd.
  - exact Hsorted.
Qed.

End SeriesFacts.

Section SeriesExamples.
Import DepthSeries.

(** The sample book: the price 100 occurs twice among the bids and keeps
    the later total, and the points come out by ascending price. *)
Lemma depth_series_ascending_witness :
  map (fun point => (price point, bidLiquidity point, askLiquidity point))
    (buildDepthSeries Page.decimalLiteral (Some sampleDepth)) =
  [(99.5%float, 3%float, 0%float); (100%float, 7%float, 0%float);
   (100.5%float, 0%float, 3%float)] /\
  ascending (buildDepthSeries Page.decimalLiteral (Some sampleDepth)).
Proof.
  split; [vm_compute; reflexivity|].
  apply depth_series_ascending. intros level Hlevel.
  vm_compute in Hlevel.
  repeat (apply elem_of_cons in Hlevel as [->|Hlevel]; [vm_compute; reflexivity|]).
  apply elem_of_nil in Hlevel. contradiction.
Defined.

End SeriesExamples.

(** ** The trades table and the requests of a bundle *)

Section TableFacts.
Import Component.

(** X22: the trades table shows the last 100 trades of the list, the newest
    first: row [i] is the trade [i] places from the end. *)
Theorem trade_rows_newest_first (trades : list Pi42AggTrade.t) :
  length (tradeRows trades) = Nat.min 100 (length trades) /\
  (forall i, (i < Nat.min 100 (length trades))%nat ->
     tradeRows trades !! i = trades !! (length trades - 1 - i)%nat) /\
  head (tradeRows trades) = last trades.
Proof.
  unfold tradeRows. rewrite (slice_from_last_entries 100) by lia.
  rewrite rev_alt. fold (reverse (Realtime.last_entries 100 trades)).
  assert (Hlen : length (Realtime.last_entries 100 trades) =
                 Nat.min 100 (length trades))
    by (rewrite last_entries_length; lia).
  split; [rewrite length_reverse; exact Hlen|]. split.
  - intros i Hi. rewrite reverse_lookup by lia. rewrite Hlen.
    unfold Realtime.last_entries. rewrite lookup_drop. f_equal. lia.
  - rewrite head_reverse. apply last_last_entries. lia.
Qed.

End TableFacts.

Section BundleRequests.
Import Proxy EndToEnd Dashboard.

(** X16: the requests of a bundle pass the schema of the proxy route, whatever
    the symbol and the interval: the route answers none of them with 400.
    This takes that an object is still an object after the trip as JSON. *)
Theorem bundle_requests_pass_the_schema
    (wire : Json.t -> Json.t)
    (callApi : ProxyPayload -> Result ApiReply)
    (String_of_json : Json.t -> string)
    (asTicker : Json.t -> Envelope Pi42Ticker.t)
    (asDepth : Json.t -> Envelope Pi42DepthResponse.t)
    (asTrades : Json.t -> Envelope (list Pi42AggTrade.t))
    (asKlines : Json.t -> list Pi42Kline.t)
    (symbol interval : string) (payload : ProxyPayload) :
  (forall fields, isObject (wire (Json.Obj fields)) = true) ->
  payload ∈ (fetchMarketBundle callApi String_of_json asTicker asDepth
               asTrades asKlines symbol interval).2 ->
  conforms (requestJson wire payload) = true /\
  isValid (safeParse (requestJson wire payload)).
Proof.
  intros Hwire Hpayload.
  assert (Hc : conforms (requestJson wire payload) = true).
  { change (payload ∈ [tickerRequest symbol; depthRequest symbol;
                       tradesRequest symbol; klinesRequest symbol interval])
      in Hpayload.
    repeat (apply elem_of_cons in Hpayload as [->|Hpayload]);
      [reflexivity|reflexivity|reflexivity| |apply elem_of_nil in Hpayload; contradiction].
    unfold conforms, requestJson, klinesRequest. cbn.
    unfold bodyOk, absentOr. rewrite Hwire, orb_true_r. reflexivity. }
  split; [exact Hc|apply safeParse_conforms, Hc].
Qed.

(** A bundle for BTCINR at 1h, with JSON that arrives as it was sent. *)
Lemma bundle_requests_pass_the_schema_witness :
  conforms (requestJson (fun v => v) (klinesRequest "BTCINR" "1h")) = true /\
  isValid (safeParse (requestJson (fun v => v) (klinesRequest "BTCINR" "1h"))).
Proof.
  apply (bundle_requests_pass_the_schema (fun v => v) (sampleApi "")
           sampleToString emptyEnvelope emptyEnvelope emptyEnvelope
           (fun _ => []) "BTCINR" "1h").
  - reflexivity.
  - cbn. rewrite !elem_of_cons. auto.
Defined.

End BundleRequests.
